(** * LiveManager: the audio streaming / session core

    A shallow embedding of [services/liveManager.ts] (class [LiveManager]):
    the connection lifecycle, the microphone capture callback, the playback
    scheduler of [handleMessage], and the upload / retry protocol of
    [sendAudioFile] and [streamAudioData].

    Modelling decisions.
    - JavaScript numbers that carry audio samples and audio-clock times are
      exact rationals ([Q]); rounding of IEEE doubles is not modelled.
    - Native browser and SDK objects (audio contexts, nodes, the live
      session) live in a heap indexed by handles; a field of the manager
      holds [Some h] for an object reference and [None] for [null].
    - The code is [async]: at every [await] other callbacks may run.  The
      machine carries the list of [ticks] the environment will deliver at
      the coming suspension points (timer lateness and microphone frames).
    - What the outside world answers ([new AudioContext()], [getUserMedia],
      the live handshake, file decoding) is passed in explicitly.
    - Everything the manager does to the outside is recorded as a list of
      [event]s: observer notifications, messages put on the channel,
      playback starts, and markers for the entry of [connect],
      [disconnect] and [streamAudioData] and for the interruption branch
      of [handleMessage].

    Beside the manager the file embeds its two users, one animation frame
    of [components/Visualizer.tsx] (module [Visualizer]) and the handlers
    of [App.tsx] that drive the manager (module [App]), and the methods of
    an earlier revision of the manager that differ (module [Legacy]). *)

From stdpp Require Import base gmap.
From Stdlib Require Import QArith Qabs Qminmax Qround Lqa String List.
Import ListNotations.

Abbreviation handle := nat (only parsing).
Abbreviation samples := (list Q) (only parsing).

(** ** Thrown values *)

Record Error := { name : string; message : string }.

Definition new_Error (msg : string) : Error :=
  {| name := "Error"; message := msg |}.

(** String conversion used by ["..." + e]: [Error.prototype.toString]
    gives the message alone when the name is empty, the name alone when
    the message is empty, and otherwise the two joined by a colon. *)
Definition toString (e : Error) : string :=
  if String.eqb (name e) "" then message e
  else if String.eqb (message e) "" then name e
  else String.append (name e) (String.append ": " (message e)).

(** [haystack.includes(needle)] *)
Fixpoint includes (haystack needle : string) : bool :=
  if String.prefix needle haystack then true
  else match haystack with
       | EmptyString => false
       | String _ rest => includes rest needle
       end.

(** ** types.ts *)

Inductive ConnectionState := DISCONNECTED | CONNECTING | CONNECTED | ERROR.

(** ** Native objects *)

Inductive AudioContextState := suspended | running | closed.

Record AudioContext := {
  state : AudioContextState;
  sampleRate : Q;
  resume_rejects : option Error   (* what [resume()] would answer *)
}.

(** The live session behind [sessionPromise]: whether the handshake
    resolves, how many sends the channel still accepts ([None]: all of
    them), what a refused send throws, and whether [close()] was called. *)
Record Session := {
  handshake : option Error;
  budget : option nat;
  send_failure : Error;
  close_called : bool
}.

Inductive native :=
| NContext (c : AudioContext)
| NAnalyser (ctx : handle)
| NSource (ctx : handle) (connected : bool)
| NProcessor (ctx : handle) (connected : bool) (callback : bool)
| NBufferSource (ctx : handle) (length : nat) (playbackRate : Q)
| NSession (s : Session).

Definition set_state (s : AudioContextState) (c : AudioContext) : AudioContext :=
  {| state := s; sampleRate := sampleRate c; resume_rejects := resume_rejects c |}.

Definition set_budget (b : option nat) (s : Session) : Session :=
  {| handshake := handshake s; budget := b;
     send_failure := send_failure s; close_called := close_called s |}.

Definition set_close_called (b : bool) (s : Session) : Session :=
  {| handshake := handshake s; budget := budget s;
     send_failure := send_failure s; close_called := b |}.

(** ** What goes out *)

(** The argument of [sendRealtimeInput]:
    [MicBlob d r] is [{media: createGeminiAudioBlob(downsampleTo16k(d, r))}],
    [FileBlob c] is [{media: createGeminiAudioBlob(c)}], and
    [Prompt t] is [{content: {parts: [{text: t}]}}]. *)
Inductive payload :=
| MicBlob (inputData : samples) (rate : Q)
| FileBlob (chunk : samples)
| Prompt (text : string).

Inductive call := CConnect | CDisconnect | CStream (data : samples).

Inductive event :=
| Status (s : ConnectionState)            (* onStatusChange *)
| ErrorEv (msg : string)                  (* onError *)
| TextEv (text : string)                  (* onTextReceived *)
| Sent (at_ms : N) (session : handle) (p : payload)
| Started (ctx : handle) (at_time when duration : Q)
    (* source.start(when), with a buffer of that duration, on a context
       whose clock read at_time *)
| Interrupted                             (* the interruption branch ran *)
| Enter (c : call).

(** ** The manager's fields *)

Record LiveManager := {
  inputContext : option handle;
  outputContext : option handle;
  sessionPromise : option handle;
  nextStartTime : Q;
  scriptProcessor : option handle;
  inputSource : option handle;
  inputAnalyser : option handle;
  outputAnalyser : option handle;
  isProcessingFile : bool;
  hasActiveMic : bool
}.

(** Field initialisers of the class. *)
Definition new_LiveManager : LiveManager :=
  {| inputContext := None; outputContext := None; sessionPromise := None;
     nextStartTime := 0; scriptProcessor := None; inputSource := None;
     inputAnalyser := None; outputAnalyser := None;
     isProcessingFile := false; hasActiveMic := false |}.

Definition set_inputContext v m :=
  {| inputContext := v; outputContext := outputContext m;
     sessionPromise := sessionPromise m; nextStartTime := nextStartTime m;
     scriptProcessor := scriptProcessor m; inputSource := inputSource m;
     inputAnalyser := inputAnalyser m; outputAnalyser := outputAnalyser m;
     isProcessingFile := isProcessingFile m; hasActiveMic := hasActiveMic m |}.

Definition set_outputContext v m :=
  {| inputContext := inputContext m; outputContext := v;
     sessionPromise := sessionPromise m; nextStartTime := nextStartTime m;
     scriptProcessor := scriptProcessor m; inputSource := inputSource m;
     inputAnalyser := inputAnalyser m; outputAnalyser := outputAnalyser m;
     isProcessingFile := isProcessingFile m; hasActiveMic := hasActiveMic m |}.

Definition set_sessionPromise v m :=
  {| inputContext := inputContext m; outputContext := outputContext m;
     sessionPromise := v; nextStartTime := nextStartTime m;
     scriptProcessor := scriptProcessor m; inputSource := inputSource m;
     inputAnalyser := inputAnalyser m; outputAnalyser := outputAnalyser m;
     isProcessingFile := isProcessingFile m; hasActiveMic := hasActiveMic m |}.

Definition set_nextStartTime v m :=
  {| inputContext := inputContext m; outputContext := outputContext m;
     sessionPromise := sessionPromise m; nextStartTime := v;
     scriptProcessor := scriptProcessor m; inputSource := inputSource m;
     inputAnalyser := inputAnalyser m; outputAnalyser := outputAnalyser m;
     isProcessingFile := isProcessingFile m; hasActiveMic := hasActiveMic m |}.

Definition set_scriptProcessor v m :=
  {| inputContext := inputContext m; outputContext := outputContext m;
     sessionPromise := sessionPromise m; nextStartTime := nextStartTime m;
     scriptProcessor := v; inputSource := inputSource m;
     inputAnalyser := inputAnalyser m; outputAnalyser := outputAnalyser m;
     isProcessingFile := isProcessingFile m; hasActiveMic := hasActiveMic m |}.

Definition set_inputSource v m :=
  {| inputContext := inputContext m; outputContext := outputContext m;
     sessionPromise := sessionPromise m; nextStartTime := nextStartTime m;
     scriptProcessor := scriptProcessor m; inputSource := v;
     inputAnalyser := inputAnalyser m; outputAnalyser := outputAnalyser m;
     isProcessingFile := isProcessingFile m; hasActiveMic := hasActiveMic m |}.

Definition set_inputAnalyser v m :=
  {| inputContext := inputContext m; outputContext := outputContext m;
     sessionPromise := sessionPromise m; nextStartTime := nextStartTime m;
     scriptProcessor := scriptProcessor m; inputSource := inputSource m;
     inputAnalyser := v; outputAnalyser := outputAnalyser m;
     isProcessingFile := isProcessingFile m; hasActiveMic := hasActiveMic m |}.

Definition set_outputAnalyser v m :=
  {| inputContext := inputContext m; outputContext := outputContext m;
     sessionPromise := sessionPromise m; nextStartTime := nextStartTime m;
     scriptProcessor := scriptProcessor m; inputSource := inputSource m;
     inputAnalyser := inputAnalyser m; outputAnalyser := v;
     isProcessingFile := isProcessingFile m; hasActiveMic := hasActiveMic m |}.

Definition set_isProcessingFile v m :=
  {| inputContext := inputContext m; outputContext := outputContext m;
     sessionPromise := sessionPromise m; nextStartTime := nextStartTime m;
     scriptProcessor := scriptProcessor m; inputSource := inputSource m;
     inputAnalyser := inputAnalyser m; outputAnalyser := outputAnalyser m;
     isProcessingFile := v; hasActiveMic := hasActiveMic m |}.

Definition set_hasActiveMic v m :=
  {| inputContext := inputContext m; outputContext := outputContext m;
     sessionPromise := sessionPromise m; nextStartTime := nextStartTime m;
     scriptProcessor := scriptProcessor m; inputSource := inputSource m;
     inputAnalyser := inputAnalyser m; outputAnalyser := outputAnalyser m;
     isProcessingFile := isProcessingFile m; hasActiveMic := v |}.

(** ** The machine *)

(** What the event loop runs at one suspension point: the timer fires [lag]
    milliseconds late, and the listed script processors deliver a frame. *)
Record tick := { lag : N; frames : list (handle * samples) }.

Record Machine := {
  this : LiveManager;
  heap : gmap nat native;
  fresh : handle;          (* next unused handle *)
  now : N;                 (* wall clock, milliseconds *)
  ticks : list tick
}.

Definition set_this v (s : Machine) :=
  {| this := v; heap := heap s; fresh := fresh s; now := now s; ticks := ticks s |}.
Definition set_heap v (s : Machine) :=
  {| this := this s; heap := v; fresh := fresh s; now := now s; ticks := ticks s |}.
Definition set_fresh v (s : Machine) :=
  {| this := this s; heap := heap s; fresh := v; now := now s; ticks := ticks s |}.
Definition set_now v (s : Machine) :=
  {| this := this s; heap := heap s; fresh := fresh s; now := v; ticks := ticks s |}.
Definition set_ticks v (s : Machine) :=
  {| this := this s; heap := heap s; fresh := fresh s; now := now s; ticks := v |}.

(** ** A state, exception and output monad *)

Inductive completion (A : Type) :=
| Normal (a : A)
| Throw (e : Error).
Arguments Normal {A} a.
Arguments Throw {A} e.

Definition M (A : Type) : Type := Machine -> completion A * Machine * list event.

Definition ret {A} (a : A) : M A := fun s => (Normal a, s, []).

Definition bind {A B} (m : M A) (k : A -> M B) : M B := fun s =>
  match m s with
  | (Normal a, s1, out1) =>
      match k a s1 with (r, s2, out2) => (r, s2, out1 ++ out2) end
  | (Throw e, s1, out1) => (Throw e, s1, out1)
  end.

Definition throw {A} (e : Error) : M A := fun s => (Throw e, s, []).

(** [try { body } catch (e) { handler e }] *)
Definition try_catch {A} (body : M A) (handler : Error -> M A) : M A := fun s =>
  match body s with
  | (Normal a, s1, out1) => (Normal a, s1, out1)
  | (Throw e, s1, out1) =>
      match handler e s1 with (r, s2, out2) => (r, s2, out1 ++ out2) end
  end.

(** [try { body } finally { final }] *)
Definition try_finally {A} (body : M A) (final : M unit) : M A := fun s =>
  match body s with
  | (r, s1, out1) =>
      match final s1 with
      | (Normal _, s2, out2) => (r, s2, out1 ++ out2)
      | (Throw e, s2, out2) => (Throw e, s2, out1 ++ out2)
      end
  end.

Declare Scope js_scope.
Delimit Scope js_scope with js.
Notation "x <- m ;; k" := (bind m (fun x => k))
  (at level 100, m at next level, right associativity) : js_scope.
Notation "m ;; k" := (bind m (fun _ => k))
  (at level 100, right associativity) : js_scope.
Open Scope js_scope.

Definition emit (e : event) : M unit := fun s => (Normal tt, s, [e]).
Definition gets {A} (f : Machine -> A) : M A := fun s => (Normal (f s), s, []).
Definition modify (f : Machine -> Machine) : M unit := fun s => (Normal tt, f s, []).

(** [this.field = v] *)
Definition assign {V} (set : V -> LiveManager -> LiveManager) (v : V) : M unit :=
  modify (fun s => set_this (set v (this s)) s).

Definition alloc (o : native) : M handle := fun s =>
  (Normal (fresh s),
   set_fresh (S (fresh s)) (set_heap (<[fresh s := o]> (heap s)) s), []).

Definition deref (h : handle) : M (option native) := gets (fun s => heap s !! h).

Definition store (h : handle) (o : native) : M unit :=
  modify (fun s => set_heap (<[h := o]> (heap s)) s).

Fixpoint forM_ {A} (f : A -> M unit) (l : list A) : M unit :=
  match l with
  | [] => ret tt
  | a :: l' => f a ;; forM_ f l'
  end.

Definition onStatusChange (s : ConnectionState) : M unit := emit (Status s).
Definition onError (msg : string) : M unit := emit (ErrorEv msg).
Definition onTextReceived (t : string) : M unit := emit (TextEv t).

(** ** The channel *)

Definition TypeError (msg : string) : Error :=
  {| name := "TypeError"; message := msg |}.

(** [session.sendRealtimeInput(p)]: the message is put on the channel, or
    the call throws when the channel accepts no more. *)
Definition sendRealtimeInput (session : handle) (p : payload) : M unit := fun s =>
  match heap s !! session with
  | Some (NSession c) =>
      match budget c with
      | None => (Normal tt, s, [Sent (now s) session p])
      | Some (S k) =>
          (Normal tt,
           set_heap (<[session := NSession (set_budget (Some k) c)]> (heap s)) s,
           [Sent (now s) session p])
      | Some O => (Throw (send_failure c), s, [])
      end
  | _ => (Throw (TypeError "session.sendRealtimeInput is not a function"), s, [])
  end.

(** [promise.then(cb)].  The outcome of the handshake is fixed when the
    session is created, so the promise counts as settled: the callback runs
    right away when it is fulfilled, and never when it is rejected. *)
Definition then_ (promise : handle) (cb : handle -> M unit) : M unit :=
  o <- deref promise ;;
  match o with
  | Some (NSession c) =>
      match handshake c with
      | None => cb promise
      | Some _ => ret tt
      end
  | _ => ret tt
  end.

(** [this.inputContext.sampleRate] *)
Definition sampleRate_of (ctx : handle) : M Q :=
  o <- deref ctx ;;
  match o with
  | Some (NContext c) => ret (sampleRate c)
  | _ => ret 0%Q
  end.

(** [scriptProcessor.onaudioprocess], the capture callback installed by
    [connect]. *)
Definition onaudioprocess (inputData : samples) : M unit :=
  m <- gets this ;;
  match sessionPromise m, inputContext m, isProcessingFile m with
  | Some promise, Some ic, false =>
      rate <- sampleRate_of ic ;;
      then_ promise (fun session =>
        try_catch (sendRealtimeInput session (MicBlob inputData rate))
                  (fun err => ret tt))
  | _, _, _ => ret tt
  end.

(** A script processor delivers a frame: its callback runs if one is
    installed. *)
Definition fire (f : handle * samples) : M unit :=
  o <- deref (fst f) ;;
  match o with
  | Some (NProcessor _ _ true) => onaudioprocess (snd f)
  | _ => ret tt
  end.

(** A suspension point ([await]): the next tick of the environment runs. *)
Definition await_ : M unit := fun s =>
  match ticks s with
  | [] => (Normal tt, s, [])
  | t :: rest =>
      forM_ fire (frames t) (set_now (now s + lag t)%N (set_ticks rest s))
  end.

(** [await new Promise(r => setTimeout(r, ms))] *)
Definition setTimeout (ms : N) : M unit :=
  modify (fun s => set_now (now s + ms)%N s) ;; await_.

(** [await ctx.resume()] *)
Definition resume (ctx : handle) : M unit :=
  await_ ;;
  o <- deref ctx ;;
  match o with
  | Some (NContext c) =>
      match resume_rejects c with
      | Some e => throw e
      | None => store ctx (NContext (set_state running c))
      end
  | _ => throw (TypeError "resume is not a function")
  end.

Definition state_of (ctx : handle) : M (option AudioContextState) :=
  o <- deref ctx ;;
  match o with
  | Some (NContext c) => ret (Some (state c))
  | _ => ret None
  end.

(** [if (ctx && ctx.state === 'suspended') await ctx.resume()] *)
Definition resume_if_suspended (ctx : option handle) : M unit :=
  match ctx with
  | None => ret tt
  | Some c =>
      st <- state_of c ;;
      match st with
      | Some suspended => resume c
      | _ => ret tt
      end
  end.

(** ** disconnect *)

Definition close_session (promise : option handle) : M unit :=
  match promise with
  | None => ret tt
  | Some p =>
      then_ p (fun s =>
        o <- deref s ;;
        match o with
        | Some (NSession c) => store s (NSession (set_close_called true c))
        | _ => ret tt
        end)
  end.

Definition disconnect_processor (sp : option handle) : M unit :=
  match sp with
  | None => ret tt
  | Some p =>
      o <- deref p ;;
      match o with
      | Some (NProcessor ctx _ _) => store p (NProcessor ctx false false)
      | _ => ret tt
      end
  end.

Definition disconnect_source (src : option handle) : M unit :=
  match src with
  | None => ret tt
  | Some p =>
      o <- deref p ;;
      match o with
      | Some (NSource ctx _) => store p (NSource ctx false)
      | _ => ret tt
      end
  end.

(** [if (ctx && ctx.state !== 'closed') ctx.close()] *)
Definition close_context (ctx : option handle) : M unit :=
  match ctx with
  | None => ret tt
  | Some p =>
      o <- deref p ;;
      match o with
      | Some (NContext c) =>
          match state c with
          | closed => ret tt
          | _ => store p (NContext (set_state closed c))
          end
      | _ => ret tt
      end
  end.

Definition disconnect : M unit :=
  emit (Enter CDisconnect) ;;
  assign set_isProcessingFile false ;;
  assign set_hasActiveMic false ;;
  m <- gets this ;;
  close_session (sessionPromise m) ;;
  disconnect_processor (scriptProcessor m) ;;
  disconnect_source (inputSource m) ;;
  close_context (inputContext m) ;;
  close_context (outputContext m) ;;
  assign set_sessionPromise None ;;
  assign set_inputContext None ;;
  assign set_outputContext None ;;
  assign set_scriptProcessor None ;;
  assign set_inputSource None ;;
  assign set_nextStartTime 0%Q ;;
  onStatusChange DISCONNECTED.

Definition getInputAnalyser : M (option handle) := gets (fun s => inputAnalyser (this s)).
Definition getOutputAnalyser : M (option handle) := gets (fun s => outputAnalyser (this s)).
Definition isMicEnabled : M bool := gets (fun s => hasActiveMic (this s)).

(** ** connect *)

(** The environment's answers to one [connect()]: the two
    [new AudioContext()] calls, [getUserMedia], and the session that
    [ai.live.connect] hands back. *)
Record ConnectEnv := {
  inputDevice : Error + AudioContext;
  outputDevice : Error + AudioContext;
  microphone : option Error;        (* [Some e]: denied or unavailable *)
  channel : Session
}.

Definition new_AudioContext (r : Error + AudioContext) : M handle :=
  match r with
  | inl e => throw e
  | inr c => alloc (NContext c)
  end.

(** [await navigator.mediaDevices.getUserMedia({audio: true})].  The
    MediaStream it yields is not an object of the heap: the model keeps
    the source node that is built from it, and says nothing of the stream
    and its tracks. *)
Definition getUserMedia (r : option Error) : M unit :=
  await_ ;;
  match r with
  | Some e => throw e
  | None => ret tt
  end.

(** Between [createScriptProcessor] and the last [connect] call of the
    microphone block there is no suspension point: the processor enters
    the heap connected and with its callback installed. *)
Definition connect (env : ConnectEnv) : M unit :=
  emit (Enter CConnect) ;;
  try_catch
    (onStatusChange CONNECTING ;;
     ic <- new_AudioContext (inputDevice env) ;;
     assign set_inputContext (Some ic) ;;
     oc <- new_AudioContext (outputDevice env) ;;
     assign set_outputContext (Some oc) ;;
     resume_if_suspended (Some oc) ;;
     ia <- alloc (NAnalyser ic) ;;
     assign set_inputAnalyser (Some ia) ;;
     oa <- alloc (NAnalyser oc) ;;
     assign set_outputAnalyser (Some oa) ;;
     try_catch
       (getUserMedia (microphone env) ;;
        src <- alloc (NSource ic true) ;;
        assign set_inputSource (Some src) ;;
        sp <- alloc (NProcessor ic true true) ;;
        assign set_scriptProcessor (Some sp) ;;
        assign set_hasActiveMic true)
       (fun micErr => assign set_hasActiveMic false) ;;
     session <- alloc (NSession (channel env)) ;;
     assign set_sessionPromise (Some session))
    (fun error =>
       disconnect ;;
       onError (message error) ;;
       onStatusChange ERROR ;;
       throw error).

(** Callbacks handed to [ai.live.connect]. *)
Definition onopen : M unit := onStatusChange CONNECTED.
Definition onclose : M unit := onStatusChange DISCONNECTED.
Definition onerror (err : Error) : M unit :=
  onStatusChange ERROR ;;
  onError (if String.eqb (message err) "" then "Unknown error"%string else message err).

(** ** handleMessage: inbound dispatch and the playback scheduler *)

(** An audio part as the scheduler meets it.  [decodePCM] and
    [pcmToAudioBuffer] belong to utils/audioUtils, so a part carries what
    they yield: the duration of the decoded buffer, or [None] when decoding
    throws.  [currentTime] is the reading of [outputContext.currentTime]
    taken when the part is handled. *)
Record AudioPart := { currentTime : Q; decoded : option Q }.

Record Part := { text : option string; inlineData : option AudioPart }.

Record LiveServerMessage := {
  parts : list Part;
  interrupted : bool;
  turnComplete : bool
}.

Definition pcmToAudioBuffer (a : AudioPart) : M Q :=
  match decoded a with
  | Some duration => ret duration
  | None => throw (new_Error "decode failed")
  end.

Definition handle_text (t : option string) : M unit :=
  match t with
  | Some t => if String.eqb t "" then ret tt else onTextReceived t
  | None => ret tt
  end.

Definition handle_audio (oc : handle) (d : option AudioPart) : M unit :=
  match d with
  | None => ret tt
  | Some a =>
      m <- gets this ;;
      assign set_nextStartTime (Qmax (nextStartTime m) (currentTime a)) ;;
      try_catch
        (duration <- pcmToAudioBuffer a ;;
         m <- gets this ;;
         emit (Started oc (currentTime a) (nextStartTime m) duration) ;;
         assign set_nextStartTime (nextStartTime m + duration)%Q)
        (fun e => ret tt)
  end.

Definition handle_part (oc : handle) (p : Part) : M unit :=
  handle_text (text p) ;; handle_audio oc (inlineData p).

Definition handleMessage (msg : LiveServerMessage) : M unit :=
  m <- gets this ;;
  match outputContext m with
  | None => ret tt
  | Some oc =>
      forM_ (handle_part oc) (parts msg) ;;
      if interrupted msg
      then emit Interrupted ;; assign set_nextStartTime 0%Q
      else ret tt
  end.

(** ** Peak normalisation (inside sendAudioFile) *)

(** [a > b] on numbers *)
Definition gt (a b : Q) : bool := negb (Qle_bool a b).

(** The first loop: [maxVal]. *)
Definition max_abs (resampledData : samples) : Q :=
  fold_left (fun maxVal x => if gt (Qabs x) maxVal then Qabs x else maxVal)
            resampledData 0%Q.

Definition headroom : Q := 95 # 100.

Definition normalize (resampledData : samples) : samples :=
  let maxVal := max_abs resampledData in
  if gt maxVal 0 then
    let scale := (headroom / maxVal)%Q in
    map (fun x => (x * scale)%Q) resampledData
  else resampledData.

(** ** streamAudioData *)

Definition CHUNK_SIZE : nat := Z.to_nat 8192.

Definition completion_prompt : string :=
  "I have finished playing. Generate a musical continuation now.".

(** [data.slice(from, to)] *)
Definition slice (data : samples) (from to : nat) : samples :=
  firstn (to - from) (skipn from data).

(** [await promise] *)
Definition await_promise (promise : handle) : M handle :=
  await_ ;;
  o <- deref promise ;;
  match o with
  | Some (NSession c) =>
      match handshake c with
      | None => ret promise
      | Some e => throw e
      end
  | _ => ret promise
  end.

(** The [for (let i = 0; i < data.length; i += CHUNK_SIZE)] loop, from
    index [i] on; [fuel] bounds the number of iterations. *)
Fixpoint send_chunks (fuel : nat) (session : handle) (data : samples) (i : nat)
  : M unit :=
  match fuel with
  | O => ret tt
  | S fuel' =>
      if (i <? length data)%nat then
        try_catch
          (sendRealtimeInput session (FileBlob (slice data i (i + CHUNK_SIZE))))
          (fun e => throw (new_Error
                      (String.append "Failed to send chunk: " (toString e)))) ;;
        setTimeout 50 ;;
        send_chunks fuel' session data (i + CHUNK_SIZE)
      else ret tt
  end.

(** The visualisation block: when there are an input context and an input
    analyser, a buffer source holding the whole clip is created on the
    input context, connected to the analyser only, and started at five
    times the speed.  [createBuffer] refuses an empty buffer; the block
    swallows every error. *)
Definition visualise (data : samples) : M unit :=
  m <- gets this ;;
  match inputContext m, inputAnalyser m with
  | Some ic, Some _ =>
      try_catch
        (match data with
         | [] => throw {| name := "NotSupportedError";
                          message := "createBuffer: zero frames" |}
         | _ => vizSource <- alloc (NBufferSource ic (length data) 5) ;; ret tt
         end)
        (fun e => ret tt)
  | _, _ => ret tt
  end.

Definition streamAudioData (data : samples) : M unit :=
  emit (Enter (CStream data)) ;;
  m <- gets this ;;
  match sessionPromise m with
  | None => throw (new_Error "Session not active")
  | Some promise =>
      session <- await_promise promise ;;
      visualise data ;;
      send_chunks (length data) session data 0 ;;
      sendRealtimeInput session (Prompt completion_prompt)
  end.

(** ** sendAudioFile *)

(** One uploaded file, with the environment's answers during the job:
    what [file.arrayBuffer], [decodeAudioData] and [resampleTo16k] yield,
    the context [new AudioContext()] gives when there is no input context,
    and the answers to the [connect()] of a retry. *)
Record Upload := {
  decoding : Error + samples;
  fallbackContext : Error + AudioContext;
  reconnect : ConnectEnv
}.

(** The test of the retry branch on [e.message]. *)
Definition isTransient (msg : string) : bool :=
  includes msg "unavailable" || includes msg "timeout" ||
  includes msg "closed" || includes msg "Session not active".

(** [await file.arrayBuffer()], [await decodeCtx.decodeAudioData(..)],
    [await resampleTo16k(..)] *)
Definition decode_and_resample (r : Error + samples) : M samples :=
  await_ ;;
  await_ ;;
  match r with
  | inl e => throw e
  | inr resampledData => await_ ;; ret resampledData
  end.

(** The [try { stream } catch { retry once } finally { unmute }] statement
    that ends sendAudioFile. *)
Definition stream_with_retry (env : ConnectEnv) (resampledData : samples) : M unit :=
  try_finally
    (try_catch
       (streamAudioData resampledData)
       (fun e =>
          if isTransient (message e) then
            disconnect ;;
            connect env ;;
            streamAudioData resampledData
          else throw e))
    (assign set_isProcessingFile false).

(** Everything in sendAudioFile before the streaming statement: the
    session guard, setting the mic-mute flag, waking the contexts, and the
    decoding [try] with the peak normalisation.  It yields the normalised
    buffer. *)
Definition prepare_upload (file : Upload) : M samples :=
  m <- gets this ;;
  match sessionPromise m with
  | None => throw (new_Error "Session not active")
  | Some _ =>
      assign set_isProcessingFile true ;;
      resume_if_suspended (outputContext m) ;;
      m <- gets this ;;
      resume_if_suspended (inputContext m) ;;
      m <- gets this ;;
      decodeCtx <- match inputContext m with
                   | Some c => ret c
                   | None => new_AudioContext (fallbackContext file)
                   end ;;
      try_catch
        (decoded <- decode_and_resample (decoding file) ;;
         ret (normalize decoded))
        (fun e =>
           assign set_isProcessingFile false ;;
           throw (new_Error
                    (String.append "Failed to decode audio file: " (message e))))
  end.

Definition sendAudioFile (file : Upload) : M unit :=
  resampledData <- prepare_upload file ;;
  stream_with_retry (reconnect file) resampledData.

(** ** Running from a fresh page *)

Definition boot (ts : list tick) : Machine :=
  {| this := new_LiveManager; heap := ∅; fresh := 0; now := 0; ticks := ts |}.

Definition a_context : AudioContext :=
  {| state := running; sampleRate := 48000; resume_rejects := None |}.

Definition a_channel : Session :=
  {| handshake := None; budget := None;
     send_failure := new_Error "WebSocket is closed"; close_called := false |}.

Definition fine : ConnectEnv :=
  {| inputDevice := inr a_context; outputDevice := inr a_context;
     microphone := None; channel := a_channel |}.

Definition run {A} (m : M A) (s : Machine) : Machine := snd (fst (m s)).
Definition result {A} (m : M A) (s : Machine) : completion A := fst (fst (m s)).
Definition output {A} (m : M A) (s : Machine) : list event := snd (m s).

(** ** Reading a trace *)

Definition calls (evs : list event) : list call :=
  flat_map (fun e => match e with Enter c => [c] | _ => [] end) evs.

Definition statuses (evs : list event) : list ConnectionState :=
  flat_map (fun e => match e with Status c => [c] | _ => [] end) evs.

Definition is_mic_send (e : event) : bool :=
  match e with Sent _ _ (MicBlob _ _) => true | _ => false end.

Definition is_upload_send (e : event) : bool :=
  match e with
  | Sent _ _ (FileBlob _) | Sent _ _ (Prompt _) => true
  | _ => false
  end.

Definition is_started (e : event) : bool :=
  match e with Started _ _ _ _ => true | _ => false end.

Definition nonneg_duration (e : event) : Prop :=
  match e with Started _ _ _ d => (0 <= d)%Q | _ => True end.

(** * components/Visualizer.tsx: one animation frame *)

Module Visualizer.

(** What [draw] does to the canvas and to the animation loop.
    [fillRoundRect] stands for the five statements that draw one bar:
    [fillStyle], [globalAlpha], [beginPath], [roundRect] and [fill]. *)
Inductive canvas_op :=
| clearRect (x y w h : Q)
| fillRoundRect (fillStyle : string) (globalAlpha : Q) (x y w h radii : Q)
| requestAnimationFrame.

Open Scope Q_scope.

(** [dataArray[i]], an element of a Uint8Array, as a number. *)
Definition level (b : Byte.byte) : Q := inject_Z (Z.of_N (Byte.to_N b)).

(** The [for] loop from the bin at the head of [dataArray] on, with the
    pen at [x]. *)
Fixpoint bars (color : string) (width height barWidth : Q)
  (dataArray : list Byte.byte) (x : Q) : list canvas_op :=
  match dataArray with
  | [] => []
  | b :: rest =>
      let barHeight := (level b / 255) * height in
      fillRoundRect color (8 # 10) x (height - barHeight) barWidth barHeight 2 ::
      (let x := x + (barWidth + 1) in
       if gt x width then [] else bars color width height barWidth rest x)
  end.

(** [draw], given what [getByteFrequencyData] put into [dataArray], whose
    length is [bufferLength].  With no bin at all the division yields no
    number that is used: the loop does not run. *)
Definition draw (isActive : bool) (color : string) (width height : Q)
  (dataArray : list Byte.byte) : list canvas_op :=
  if negb isActive then [clearRect 0 0 width height]
  else
    let bufferLength := inject_Z (Z.of_nat (length dataArray)) in
    let barWidth := (width / bufferLength) * (25 # 10) in
    requestAnimationFrame :: clearRect 0 0 width height ::
      bars color width height barWidth dataArray 0.

Close Scope Q_scope.

End Visualizer.

(** * App.tsx: the handlers of the page

    A handler reads the state of the component as its closure captured it:
    [isUploading] and [connectionState] are arguments.  A call of a state
    setter is an event of the handler's trace, beside what the manager
    does.  The callbacks that startSession installs on the manager are the
    functions [on_status], [on_error] and [on_text]: a [Status], [ErrorEv]
    or [TextEv] event of the manager is a call of one of them. *)

Module App.

Inductive ui_event :=
| setConnectionState (c : ConnectionState)
| setError (e : option string)
| setIsUploading (b : bool)
| setIsMicActive (b : bool)
| setAiText (t : option string)
| setInputAnalyser (a : option handle)
| setOutputAnalyser (a : option handle)
| later (ms : N) (u : ui_event).       (* setTimeout(() => u, ms) *)

Inductive app_event :=
| Ui (u : ui_event)
| Manager (e : event).

(** [liveManagerRef.current] is null or a manager; the fields of that
    manager are [this machine]. *)
Record Page := {
  liveManagerRef : bool;
  machine : Machine
}.

Definition App (A : Type) : Type := Page -> completion A * Page * list app_event.

Definition ret {A} (a : A) : App A := fun p => (Normal a, p, []).

Definition bind {A B} (m : App A) (k : A -> App B) : App B := fun p =>
  match m p with
  | (Normal a, p1, out1) =>
      match k a p1 with (r, p2, out2) => (r, p2, out1 ++ out2) end
  | (Throw e, p1, out1) => (Throw e, p1, out1)
  end.

Definition throw {A} (e : Error) : App A := fun p => (Throw e, p, []).

Definition try_catch {A} (body : App A) (handler : Error -> App A) : App A := fun p =>
  match body p with
  | (Normal a, p1, out1) => (Normal a, p1, out1)
  | (Throw e, p1, out1) =>
      match handler e p1 with (r, p2, out2) => (r, p2, out1 ++ out2) end
  end.

Definition try_finally {A} (body : App A) (final : App unit) : App A := fun p =>
  match body p with
  | (r, p1, out1) =>
      match final p1 with
      | (Normal _, p2, out2) => (r, p2, out1 ++ out2)
      | (Throw e, p2, out2) => (Throw e, p2, out1 ++ out2)
      end
  end.

Declare Scope app_scope.
Delimit Scope app_scope with app.
Notation "x <- m ;; k" := (bind m (fun x => k))
  (at level 100, m at next level, right associativity) : app_scope.
Notation "m ;; k" := (bind m (fun _ => k))
  (at level 100, right associativity) : app_scope.

(** A setter is called. *)
Definition ui (u : ui_event) : App unit := fun p => (Normal tt, p, [Ui u]).

(** A method of the manager behind the ref runs. *)
Definition call {A} (m : M A) : App A := fun p =>
  match m (machine p) with
  | (r, s, out) =>
      (r, {| liveManagerRef := liveManagerRef p; machine := s |}, map Manager out)
  end.

(** [liveManagerRef.current] as a condition, and its assignment. *)
Definition current : App bool := fun p => (Normal (liveManagerRef p), p, []).

Definition set_current (b : bool) : App unit := fun p =>
  (Normal tt, {| liveManagerRef := b; machine := machine p |}, []).

(** [new LiveManager(API_KEY)]: the constructor builds the SDK client,
    which may throw; the new object has the field initialisers. *)
Definition new_manager (sdk : option Error) : App unit := fun p =>
  match sdk with
  | Some e => (Throw e, p, [])
  | None =>
      (Normal tt,
       {| liveManagerRef := liveManagerRef p;
          machine := set_this new_LiveManager (machine p) |}, [])
  end.

(** The three callbacks that startSession installs on the manager. *)
Definition on_status (manager : LiveManager) (status : ConnectionState) : list ui_event :=
  setConnectionState status ::
  match status with
  | CONNECTED =>
      [setInputAnalyser (inputAnalyser manager);
       setOutputAnalyser (outputAnalyser manager);
       setIsMicActive (hasActiveMic manager)]
  | DISCONNECTED => [setIsMicActive false]
  | _ => []
  end.

Definition on_error (err : string) : list ui_event := [setError (Some err)].

Definition on_text (text : string) : list ui_event :=
  [setAiText (Some text); later 5000 (setAiText None)].

(** The callback of the manager that one of its events is; [manager] is
    what the closure of onStatusChange reads through the getters. *)
Definition callback (manager : LiveManager) (e : event) : list ui_event :=
  match e with
  | Status status => on_status manager status
  | ErrorEv err => on_error err
  | TextEv text => on_text text
  | _ => []
  end.

(** The state of the component: one field for each [useState], with the
    initial values of the source. *)
Module State.

Record t := {
  connectionState : ConnectionState;
  error : option string;
  isUploading : bool;
  isMicActive : bool;
  aiText : option string;
  inputAnalyser : option handle;
  outputAnalyser : option handle
}.

Definition initial : t :=
  {| connectionState := DISCONNECTED; error := None; isUploading := false;
     isMicActive := false; aiText := None;
     inputAnalyser := None; outputAnalyser := None |}.

End State.

(** What a setter call does to the state.  A call that is only scheduled
    changes nothing yet. *)
Definition apply_setter (v : State.t) (u : ui_event) : State.t :=
  match u with
  | setConnectionState c =>
      {| State.connectionState := c; State.error := State.error v;
         State.isUploading := State.isUploading v;
         State.isMicActive := State.isMicActive v; State.aiText := State.aiText v;
         State.inputAnalyser := State.inputAnalyser v;
         State.outputAnalyser := State.outputAnalyser v |}
  | setError e =>
      {| State.connectionState := State.connectionState v; State.error := e;
         State.isUploading := State.isUploading v;
         State.isMicActive := State.isMicActive v; State.aiText := State.aiText v;
         State.inputAnalyser := State.inputAnalyser v;
         State.outputAnalyser := State.outputAnalyser v |}
  | setIsUploading b =>
      {| State.connectionState := State.connectionState v;
         State.error := State.error v; State.isUploading := b;
         State.isMicActive := State.isMicActive v; State.aiText := State.aiText v;
         State.inputAnalyser := State.inputAnalyser v;
         State.outputAnalyser := State.outputAnalyser v |}
  | setIsMicActive b =>
      {| State.connectionState := State.connectionState v;
         State.error := State.error v; State.isUploading := State.isUploading v;
         State.isMicActive := b; State.aiText := State.aiText v;
         State.inputAnalyser := State.inputAnalyser v;
         State.outputAnalyser := State.outputAnalyser v |}
  | setAiText t =>
      {| State.connectionState := State.connectionState v;
         State.error := State.error v; State.isUploading := State.isUploading v;
         State.isMicActive := State.isMicActive v; State.aiText := t;
         State.inputAnalyser := State.inputAnalyser v;
         State.outputAnalyser := State.outputAnalyser v |}
  | setInputAnalyser a =>
      {| State.connectionState := State.connectionState v;
         State.error := State.error v; State.isUploading := State.isUploading v;
         State.isMicActive := State.isMicActive v; State.aiText := State.aiText v;
         State.inputAnalyser := a;
         State.outputAnalyser := State.outputAnalyser v |}
  | setOutputAnalyser a =>
      {| State.connectionState := State.connectionState v;
         State.error := State.error v; State.isUploading := State.isUploading v;
         State.isMicActive := State.isMicActive v; State.aiText := State.aiText v;
         State.inputAnalyser := State.inputAnalyser v;
         State.outputAnalyser := a |}
  | later _ _ => v
  end.

(** What the page gets from the outside for one session start. *)
Record StartEnv := {
  sdk : option Error;
  devices : ConnectEnv
}.

Open Scope app_scope.

Definition startSession (env : StartEnv) : App unit :=
  ui (setError None) ;;
  ui (setAiText None) ;;
  c <- current ;;
  (if c then call disconnect else ret tt) ;;
  new_manager (sdk env) ;;
  set_current true ;;
  try_catch (call (connect (devices env))) (fun e => throw e).

Definition toggleConnection (connectionState : ConnectionState) (env : StartEnv)
  : App unit :=
  match connectionState with
  | CONNECTED | CONNECTING =>
      c <- current ;;
      (if c then call disconnect else ret tt) ;;
      set_current false ;;
      ui (setConnectionState DISCONNECTED) ;;
      ui (setInputAnalyser None) ;;
      ui (setOutputAnalyser None) ;;
      ui (setIsMicActive false) ;;
      ui (setAiText None)
  | _ => startSession env
  end.

(** [e.message || "Upload failed"] *)
Definition shown (e : Error) : string :=
  if String.eqb (message e) "" then "Upload failed"%string else message e.

Definition handleFileUpload (isUploading : bool) (connectionState : ConnectionState)
  (file : Upload) (env : StartEnv) : App unit :=
  if isUploading then ret tt
  else
    ui (setIsUploading true) ;;
    ui (setError None) ;;
    ui (setAiText None) ;;
    try_finally
      (try_catch
         (manager <- current ;;
          manager <-
            (if negb manager ||
                match connectionState with
                | DISCONNECTED | ERROR => true
                | _ => false
                end
             then startSession env ;; current
             else
               match connectionState with
               | CONNECTING =>
                   throw (new_Error "Connection in progress. Please wait a moment.")
               | _ => ret manager
               end) ;;
          (if manager then ret tt
           else throw (new_Error "Failed to initialize session")) ;;
          call (sendAudioFile file))
         (fun e => ui (setError (Some (shown e)))))
      (ui (setIsUploading false)).

(** The mount effect and its cleanup. *)
Definition mount (API_KEY : string) : App unit :=
  if String.eqb API_KEY "" then
    ui (setError (Some "API Key is missing. Please set process.env.API_KEY."%string)) ;;
    ui (setConnectionState ERROR)
  else ret tt.

Definition unmount : App unit :=
  c <- current ;;
  if c then call disconnect else ret tt.

Close Scope app_scope.

End App.

(** * services/liveManager.ts before the retry: an earlier revision

    The revision of the class in which the microphone is not optional and
    an upload is decoded, cut and sent by sendAudioFile alone.  It has no
    [hasActiveMic] field and no onTextReceived callback: the field of the
    record is never read or written here.  The capture callback and the
    primitives are those above. *)

Module Legacy.

Definition disconnect : M unit :=
  emit (Enter CDisconnect) ;;
  assign set_isProcessingFile false ;;
  m <- gets this ;;
  close_session (sessionPromise m) ;;
  disconnect_processor (scriptProcessor m) ;;
  disconnect_source (inputSource m) ;;
  close_context (inputContext m) ;;
  close_context (outputContext m) ;;
  assign set_sessionPromise None ;;
  assign set_inputContext None ;;
  assign set_outputContext None ;;
  assign set_scriptProcessor None ;;
  assign set_inputSource None ;;
  assign set_nextStartTime 0%Q ;;
  onStatusChange DISCONNECTED.

(** The output context is not resumed, and [getUserMedia] is inside the
    one [try] of the method. *)
Definition connect (env : ConnectEnv) : M unit :=
  emit (Enter CConnect) ;;
  try_catch
    (onStatusChange CONNECTING ;;
     ic <- new_AudioContext (inputDevice env) ;;
     assign set_inputContext (Some ic) ;;
     oc <- new_AudioContext (outputDevice env) ;;
     assign set_outputContext (Some oc) ;;
     ia <- alloc (NAnalyser ic) ;;
     assign set_inputAnalyser (Some ia) ;;
     oa <- alloc (NAnalyser oc) ;;
     assign set_outputAnalyser (Some oa) ;;
     getUserMedia (microphone env) ;;
     src <- alloc (NSource ic true) ;;
     assign set_inputSource (Some src) ;;
     sp <- alloc (NProcessor ic true true) ;;
     assign set_scriptProcessor (Some sp) ;;
     session <- alloc (NSession (channel env)) ;;
     assign set_sessionPromise (Some session))
    (fun error =>
       disconnect ;;
       onError (message error) ;;
       onStatusChange ERROR ;;
       throw error).

Definition CHUNK_SIZE : nat := Z.to_nat 4000.

Definition continuation_prompt : string :=
  "I have just played a melody. Continue it from where it left off.".

(** The [for] loop of sendAudioFile, from index [i] on; [fuel] bounds the
    number of iterations.  A send that throws is not wrapped here. *)
Fixpoint send_chunks (fuel : nat) (session : handle) (data : samples) (i : nat)
  : M unit :=
  match fuel with
  | O => ret tt
  | S fuel' =>
      if (i <? length data)%nat then
        sendRealtimeInput session (FileBlob (slice data i (i + CHUNK_SIZE))) ;;
        setTimeout 10 ;;
        send_chunks fuel' session data (i + CHUNK_SIZE)
      else ret tt
  end.

(** [await tempCtx.close()]: the promise of a context that is closed
    already rejects. *)
Definition close (ctx : handle) : M unit :=
  o <- deref ctx ;;
  match o with
  | Some (NContext c) =>
      match state c with
      | closed =>
          await_ ;;
          throw {| name := "InvalidStateError";
                   message := "Cannot close a closed AudioContext" |}
      | _ => store ctx (NContext (set_state closed c)) ;; await_
      end
  | _ => throw (TypeError "tempCtx.close is not a function")
  end.

(** [fallbackContext file] is what [new AudioContext()] gives for the
    temporary context; the samples go out as decoded, without the peak
    normalisation, and there is no retry. *)
Definition sendAudioFile (file : Upload) : M unit :=
  m <- gets this ;;
  match sessionPromise m with
  | None => throw (new_Error "Session not active")
  | Some promise =>
      assign set_isProcessingFile true ;;
      session <- await_promise promise ;;
      tempCtx <- new_AudioContext (fallbackContext file) ;;
      try_finally
        (try_catch
           (resampledData <- decode_and_resample (decoding file) ;;
            send_chunks (length resampledData) session resampledData 0 ;;
            sendRealtimeInput session (Prompt continuation_prompt))
           (fun e =>
              throw (new_Error
                       (String.append "Failed to process audio file: " (message e)))))
        (close tempCtx ;;
         assign set_isProcessingFile false)
  end.

End Legacy.

(** * Vocabulary of the properties *)

(** ** Frames and invariants *)

(** Operations that only touch the heap, complete normally and stay silent. *)
Definition heap_only (m : M unit) : Prop :=
  forall s, exists hp, m s = (Normal tt, set_heap hp s, []).

(** The manager as [disconnect] leaves it. *)
Definition torn_down (m : LiveManager) : LiveManager :=
  {| inputContext := None; outputContext := None; sessionPromise := None;
     nextStartTime := 0; scriptProcessor := None; inputSource := None;
     inputAnalyser := inputAnalyser m; outputAnalyser := outputAnalyser m;
     isProcessingFile := false; hasActiveMic := false |}.

(** [keeps I P m]: started in a machine satisfying [I], the computation [m]
    ends (normally or by a throw) in a machine satisfying [I], and what it
    wrote satisfies [P]. *)
Definition keeps (I : Machine -> Prop) (P : list event -> Prop)
  {A} (m : M A) : Prop :=
  forall s, I s -> I (run m s) /\ P (output m s).

Definition is_session (o : native) : bool :=
  match o with NSession _ => true | _ => false end.

(** [ambient s s']: the machine moved on in ways the manager does not see:
    the clock, the pending ticks, the cells of sessions. *)
Definition ambient (s s' : Machine) : Prop :=
  this s' = this s /\ fresh s' = fresh s /\
  forall h o, heap s !! h = Some o -> is_session o = false ->
              heap s' !! h = Some o.

Definition is_send (e : event) : bool :=
  match e with Sent _ _ _ => true | _ => false end.

(** Only channel messages were written. *)
Definition sends (o : list event) : Prop := Forall (fun e => is_send e = true) o.

(** Only upload messages were written. *)
Definition uploads (o : list event) : Prop :=
  Forall (fun e => is_upload_send e = true) o.

Definition anywhere (s : Machine) : Prop := True.

(** The mic-mute flag is set. *)
Definition muted (s : Machine) : Prop := isProcessingFile (this s) = true.

(** Started muted, the computation writes only upload messages, and is
    still muted when it completes normally. *)
Definition lands_muted {A} (m : M A) : Prop :=
  forall s, muted s ->
    uploads (output m s) /\ (forall a, result m s = Normal a -> muted (run m s)).

Definition not_from_mic (e : event) : Prop := is_mic_send e = false.

Definition whatever (o : list event) : Prop := True.

(** The audio context [h] exists and is not closed. *)
Definition stays_open (h : handle) (s : Machine) : Prop :=
  (h < fresh s)%nat /\
  exists c, heap s !! h = Some (NContext c) /\ state c <> closed.

(** What disconnect() does to one cell of the heap. *)
Definition teardown (o : native) : native :=
  match o with
  | NContext c => NContext (set_state closed c)
  | NProcessor ctx _ _ => NProcessor ctx false false
  | NSource ctx _ => NSource ctx false
  | NSession c => NSession (set_close_called true c)
  | o => o
  end.

(** Every cell is as before or torn down. *)
Definition wound (hp hp' : gmap nat native) : Prop :=
  forall h, hp' !! h = hp !! h \/ hp' !! h = teardown <$> (hp !! h).

(** [m] changes the heap only, by tearing cells down; when [tears h] it
    leaves the cell at [h] torn down. *)
Definition winds_down (m : M unit) (tears : nat -> native -> Prop) : Prop :=
  forall s, exists hp,
    m s = (Normal tt, set_heap hp s, []) /\ wound (heap s) hp /\
    forall h o, tears h o -> heap s !! h = Some o -> hp !! h = Some (teardown o).

(** The session behind [sessionPromise] is [h]; its handshake resolves and
    it accepts every send. *)
Definition healthy (h : handle) (s : Machine) : Prop :=
  sessionPromise (this s) = Some h /\
  exists c, heap s !! h = Some (NSession c) /\ handshake c = None /\
            budget c = None /\ (h < fresh s)%nat.

(** ** The scheduler as a function of the cursor

    [handleMessage] only reads [outputContext] and reads and writes
    [nextStartTime]: from the cursor before, these functions compute the
    cursor after and the events written. *)

Definition text_events (t : option string) : list event :=
  match t with
  | Some t => if String.eqb t "" then [] else [TextEv t]
  | None => []
  end.

Definition audio_events (oc : handle) (cursor : Q) (d : option AudioPart)
  : Q * list event :=
  match d with
  | None => (cursor, [])
  | Some a =>
      let start := Qmax cursor (currentTime a) in
      match decoded a with
      | Some duration =>
          ((start + duration)%Q, [Started oc (currentTime a) start duration])
      | None => (start, [])
      end
  end.

Definition part_events (oc : handle) (cursor : Q) (p : Part) : Q * list event :=
  let '(c, o) := audio_events oc cursor (inlineData p) in
  (c, text_events (text p) ++ o).

Fixpoint parts_events (oc : handle) (cursor : Q) (ps : list Part)
  : Q * list event :=
  match ps with
  | [] => (cursor, [])
  | p :: rest =>
      let '(c1, o1) := part_events oc cursor p in
      let '(c2, o2) := parts_events oc c1 rest in
      (c2, o1 ++ o2)
  end.

Definition message_events (oc : handle) (cursor : Q) (msg : LiveServerMessage)
  : Q * list event :=
  let '(c, o) := parts_events oc cursor (parts msg) in
  if interrupted msg then (0%Q, o ++ [Interrupted]) else (c, o).

Fixpoint messages_events (oc : handle) (cursor : Q) (msgs : list LiveServerMessage)
  : Q * list event :=
  match msgs with
  | [] => (cursor, [])
  | msg :: rest =>
      let '(c1, o1) := message_events oc cursor msg in
      let '(c2, o2) := messages_events oc c1 rest in
      (c2, o1 ++ o2)
  end.

Definition with_cursor (c : Q) (s : Machine) : Machine :=
  set_this (set_nextStartTime c (this s)) s.

(** ** Schedules and clocks *)

Open Scope Q_scope.

(** Scanning a trace: every chunk starts at or after [floor], the end of
    the chunk before it; an interruption puts the floor back to 0. *)
Fixpoint in_order (floor : Q) (o : list event) : Prop :=
  match o with
  | [] => True
  | Started _ _ w d :: rest => floor <= w /\ in_order (w + d) rest
  | Interrupted :: rest => in_order 0 rest
  | _ :: rest => in_order floor rest
  end.

Fixpoint floor_after (floor : Q) (o : list event) : Q :=
  match o with
  | [] => floor
  | Started _ _ w d :: rest => floor_after (w + d) rest
  | Interrupted :: rest => floor_after 0 rest
  | _ :: rest => floor_after floor rest
  end.

(** The readings of the output clock taken while the messages are
    handled, in order. *)
Definition part_readings (p : Part) : list Q :=
  match inlineData p with
  | Some a => [currentTime a]
  | None => []
  end.

Definition clock_readings (msgs : list LiveServerMessage) : list Q :=
  flat_map (fun msg => flat_map part_readings (parts msg)) msgs.

(** The clock starts at or after [from] and never runs backwards. *)
Fixpoint ascending (from : Q) (readings : list Q) : Prop :=
  match readings with
  | [] => True
  | r :: rest => from <= r /\ ascending r rest
  end.

(** Scanning a trace: the first chunk started after an interruption starts
    no later than the clock reading taken for it. *)
Fixpoint prompt (armed : bool) (o : list event) : Prop :=
  match o with
  | [] => True
  | Interrupted :: rest => prompt true rest
  | Started _ at_time w _ :: rest =>
      (armed = true -> w <= at_time) /\ prompt false rest
  | _ :: rest => prompt armed rest
  end.

Fixpoint armed_after (armed : bool) (o : list event) : bool :=
  match o with
  | [] => armed
  | Interrupted :: rest => armed_after true rest
  | Started _ _ _ _ :: rest => armed_after false rest
  | _ :: rest => armed_after armed rest
  end.

Close Scope Q_scope.

(** ** The largest sample *)

Open Scope Q_scope.

(** [m] is the largest absolute sample of the buffer (0 for an empty one). *)
Definition peak_of (data : samples) (m : Q) : Prop :=
  Forall (fun x => Qabs x <= m) data /\
  (Exists (fun x => Qabs x == m) data \/ (data = [] /\ m == 0)).

Close Scope Q_scope.

(** ** Status sequences and what drives the manager *)

(** The transition relation of the specification.  ERROR is left by a
    fresh connect only, so "any state to DISCONNECTED" is every state but
    ERROR. *)
Definition strict (a b : ConnectionState) : bool :=
  match a, b with
  | DISCONNECTED, CONNECTING => true      (* connect *)
  | CONNECTING, CONNECTED => true         (* channel open *)
  | CONNECTING, ERROR => true             (* failure *)
  | CONNECTED, ERROR => true
  | ERROR, DISCONNECTED => false
  | _, DISCONNECTED => true               (* close, disconnect *)
  | ERROR, CONNECTING => true             (* a fresh connect *)
  | _, _ => false
  end.

(** The relation with two more edges.  DISCONNECTED to ERROR: a failing
    connect() has already notified DISCONNECTED when it notifies ERROR.
    ERROR to DISCONNECTED: a close or a disconnect() after an error. *)
Definition relaxed (a b : ConnectionState) : bool :=
  strict a b ||
  match a, b with
  | DISCONNECTED, ERROR => true
  | ERROR, DISCONNECTED => true
  | _, _ => false
  end.

(** Every two neighbours of the sequence are related. *)
Fixpoint follows (R : ConnectionState -> ConnectionState -> bool)
  (l : list ConnectionState) : bool :=
  match l with
  | a :: (b :: _) as rest => R a b && follows R rest
  | _ => true
  end.

(** What reaches the manager: calls of its owner and callbacks of the
    channel. *)
Inductive request :=
| Connect (env : ConnectEnv)
| Disconnect
| Opened
| Closed
| Failed (err : Error)
| Received (msg : LiveServerMessage)
| SendFile (file : Upload).

(** The owner catches what connect() and sendAudioFile() throw. *)
Definition caught (m : M unit) : M unit := try_catch m (fun _ => ret tt).

Definition serve (r : request) : M unit :=
  match r with
  | Connect env => caught (connect env)
  | Disconnect => disconnect
  | Opened => onopen
  | Closed => onclose
  | Failed err => onerror err
  | Received msg => handleMessage msg
  | SendFile file => caught (sendAudioFile file)
  end.

(** A request arrives in a state in which the specification expects it:
    connect when disconnected or after an error, channel-open while
    connecting, a channel failure while connecting or connected. *)
Definition expected (current : ConnectionState) (r : request) : bool :=
  match r, current with
  | Connect _, (DISCONNECTED | ERROR) => true
  | Connect _, _ => false
  | Opened, CONNECTING => true
  | Opened, _ => false
  | Failed _, (CONNECTING | CONNECTED) => true
  | Failed _, _ => false
  | _, _ => true
  end.

Definition last_status (current : ConnectionState) (o : list event) : ConnectionState :=
  List.last (statuses o) current.

Fixpoint well_driven (current : ConnectionState) (rs : list request) (s : Machine)
  : Prop :=
  match rs with
  | [] => True
  | r :: rest =>
      expected current r = true /\
      well_driven (last_status current (output (serve r) s)) rest (run (serve r) s)
  end.


(** ** Chunks and their pacing *)

(** The indices the streaming loop visits. *)
Fixpoint offsets (fuel i n : nat) : list nat :=
  match fuel with
  | O => []
  | S fuel' => if (i <? n)%nat then i :: offsets fuel' (i + CHUNK_SIZE) n else []
  end.

(** Send times: none before [earliest], and 50 ms or more apart. *)
Fixpoint paced (earliest : N) (ts : list N) : Prop :=
  match ts with
  | [] => True
  | t :: rest => (earliest <= t)%N /\ paced (t + 50) rest
  end.

Definition chunk_message (h : handle) (data : samples) (tj : N * nat) : event :=
  Sent (fst tj) h (FileBlob (slice data (snd tj) (snd tj + CHUNK_SIZE))).

(** [ceil(n / 8192)] *)
Definition chunk_count (n : nat) : nat :=
  Z.to_nat (Qceiling (inject_Z (Z.of_nat n) / 8192)).

(** ** Scenarios *)

Open Scope Q_scope.

Definition connected : Machine := run (connect fine) (boot []).

Definition uploading : Machine :=
  set_this (set_isProcessingFile true (this connected)) connected.

(** A channel that refuses every send. *)
Definition dead_channel : Session :=
  {| handshake := None; budget := Some O;
     send_failure := new_Error "WebSocket is closed"; close_called := false |}.

Definition flaky : ConnectEnv :=
  {| inputDevice := inr a_context; outputDevice := inr a_context;
     microphone := None; channel := dead_channel |}.

(** The browser refuses to hand out an audio context. *)
Definition no_audio : ConnectEnv :=
  {| inputDevice := inl (new_Error "The number of hardware contexts has been reached");
     outputDevice := inr a_context; microphone := None; channel := a_channel |}.

Definition a_clip : samples := [1 # 2; -1 # 4].

Definition clip_with (env : ConnectEnv) : Upload :=
  {| decoding := inr a_clip; fallbackContext := inr a_context; reconnect := env |}.

Definition on_dead_channel : Machine := run (connect flaky) (boot []).

(** The job of the claim as first stated: the first attempt fails on a dead
    channel, the retry reconnects, and a frame arrives from the new script
    processor while the retry is pacing its chunks. *)
Definition retry_with_live_mic : Machine :=
  set_ticks (repeat {| lag := 0; frames := [] |} 6
             ++ [ {| lag := 2; frames := [(13%nat, [2#3]%Q)] |} ])
            on_dead_channel.

Definition solo (ct d : Q) : LiveServerMessage :=
  {| parts := [ {| text := Some "la"%string;
                   inlineData := Some {| currentTime := ct; decoded := Some d |} |} ];
     interrupted := false; turnComplete := false |}.

Definition barge_in : LiveServerMessage :=
  {| parts := []; interrupted := true; turnComplete := false |}.

Close Scope Q_scope.

(** ** What the event loop may change *)

(** Only microphone messages were written. *)
Definition mic_only (o : list event) : Prop :=
  Forall (fun e => is_mic_send e = true) o.

(** A budget after sends: it did not grow. *)
Definition spent (b b' : option nat) : Prop :=
  match b, b' with
  | None, None => True
  | Some k, Some k' => (k' <= k)%nat
  | _, _ => False
  end.

(** A session cell after sends: only its budget may differ. *)
Definition same_session (c c' : Session) : Prop :=
  handshake c' = handshake c /\ send_failure c' = send_failure c /\
  close_called c' = close_called c /\ spent (budget c) (budget c').

(** A cell is as it was, or it is a session that took some sends. *)
Definition cell_drift (o o' : option native) : Prop :=
  o' = o \/
  exists c c', o = Some (NSession c) /\ o' = Some (NSession c') /\ same_session c c'.

(** [s'] is [s] after callbacks of the event loop ran: the manager and the
    allocation pointer are as before, the clock did not go back, and in the
    heap only budgets of sessions differ. *)
Definition drift (s s' : Machine) : Prop :=
  this s' = this s /\ fresh s' = fresh s /\ (now s <= now s')%N /\
  forall h, cell_drift (heap s !! h) (heap s' !! h).

(** ** What connect builds and disconnect closes *)

(** What makes connect() fail: the browser refuses one of the two audio
    contexts, or the output context is suspended and its resume() rejects. *)
Definition refusal (env : ConnectEnv) : option Error :=
  match inputDevice env with
  | inl e => Some e
  | inr _ =>
      match outputDevice env with
      | inl e => Some e
      | inr oc =>
          match state oc with
          | suspended => resume_rejects oc
          | _ => None
          end
      end
  end.

(** The output context once connect() has looked at it. *)
Definition woken (c : AudioContext) : AudioContext :=
  match state c with suspended => set_state running c | _ => c end.

(** The fields after a connect() that returned normally, [f] being the
    first handle it allocated. *)
Definition wired (mic : option Error) (f : handle) (m : LiveManager) : LiveManager :=
  match mic with
  | None =>
      {| inputContext := Some f; outputContext := Some (S f);
         sessionPromise := Some (6 + f)%nat; nextStartTime := nextStartTime m;
         scriptProcessor := Some (5 + f)%nat; inputSource := Some (4 + f)%nat;
         inputAnalyser := Some (2 + f)%nat; outputAnalyser := Some (3 + f)%nat;
         isProcessingFile := isProcessingFile m; hasActiveMic := true |}
  | Some _ =>
      {| inputContext := Some f; outputContext := Some (S f);
         sessionPromise := Some (4 + f)%nat; nextStartTime := nextStartTime m;
         scriptProcessor := scriptProcessor m; inputSource := inputSource m;
         inputAnalyser := Some (2 + f)%nat; outputAnalyser := Some (3 + f)%nat;
         isProcessingFile := isProcessingFile m; hasActiveMic := false |}
  end.

(** [close()] was called on the session if its handshake had resolved. *)
Definition closing (c : Session) : Session :=
  match handshake c with
  | None => set_close_called true c
  | Some _ => c
  end.

(** [m] changes the heap only, and leaves every session cell alone. *)
Definition spares_sessions (m : M unit) : Prop :=
  forall s, exists hp,
    m s = (Normal tt, set_heap hp s, []) /\
    forall h c, heap s !! h = Some (NSession c) -> hp !! h = Some (NSession c).

(** ** What the scheduler writes *)

(** The texts handed to onTextReceived. *)
Definition texts (o : list event) : list string :=
  flat_map (fun e => match e with TextEv t => [t] | _ => [] end) o.

(** The non-empty texts of the parts of a message, in order. *)
Definition spoken (msg : LiveServerMessage) : list string :=
  flat_map (fun p => match text p with
                     | Some t => if String.eqb t "" then [] else [t]
                     | None => []
                     end) (parts msg).

(** Playback starts at or after the reading of the clock taken for it. *)
Definition not_in_the_past (e : event) : Prop :=
  match e with Started _ at_time when _ => (at_time <= when)%Q | _ => True end.

(** What handleMessage may write: texts, playback starts, the
    interruption marker. *)
Definition from_scheduler (e : event) : Prop :=
  match e with
  | TextEv _ | Started _ _ _ _ | Interrupted => True
  | _ => False
  end.

Definition without_interruption (msg : LiveServerMessage) : LiveServerMessage :=
  {| parts := parts msg; interrupted := false; turnComplete := turnComplete msg |}.

(** ** What an upload needs and sends *)

(** The context behind [ctx], if there is one and it is suspended, accepts
    [resume()]. *)
Definition wakes (ctx : option handle) (s : Machine) : Prop :=
  forall h c, ctx = Some h -> heap s !! h = Some (NContext c) ->
              state c = suspended -> resume_rejects c = None.

(** The context behind [ctx] is suspended and rejects [resume()] with [e]. *)
Definition stuck (ctx : option handle) (s : Machine) (e : Error) : Prop :=
  exists h c, ctx = Some h /\ heap s !! h = Some (NContext c) /\
              state c = suspended /\ resume_rejects c = Some e.

(** In the heap of [s'] the cells are those of [s], but for contexts that
    were woken. *)
Definition woke (s s' : Machine) : Prop :=
  forall h, heap s' !! h = heap s !! h \/
            exists c, heap s !! h = Some (NContext c) /\
                      heap s' !! h = Some (NContext (set_state running c)).

(** The samples of the file chunks put on the channel, in the order sent. *)
Definition file_samples (o : list event) : samples :=
  flat_map (fun e => match e with Sent _ _ (FileBlob c) => c | _ => [] end) o.

Definition is_prompt (e : event) : bool :=
  match e with Sent _ _ (Prompt _) => true | _ => false end.

(** ** Bars on the canvas *)

Open Scope Q_scope.

(** A bar lies on the canvas: its left edge is on it, and it stands on the
    bottom edge, no taller than the canvas. *)
Definition on_canvas (width height : Q) (op : Visualizer.canvas_op) : Prop :=
  match op with
  | Visualizer.fillRoundRect _ _ x y w h _ =>
      0 <= x /\ x <= width /\ 0 <= w /\ 0 <= h /\ 0 <= y /\ y + h == height
  | _ => True
  end.

(** The heights of the bars drawn, left to right. *)
Definition heights (ops : list Visualizer.canvas_op) : list Q :=
  flat_map (fun op => match op with
                      | Visualizer.fillRoundRect _ _ _ _ _ h _ => [h]
                      | _ => []
                      end) ops.

Close Scope Q_scope.

(** ** Traces of the page *)

(** What the manager did, of a trace of the page. *)
Definition manager_events (o : list App.app_event) : list event :=
  flat_map (fun e => match e with App.Manager e => [e] | App.Ui _ => [] end) o.

(** The setter calls the handlers make themselves.  Those made by the
    callbacks are the images of the manager's [Status], [ErrorEv] and
    [TextEv] events under [App.on_status], [App.on_error] and
    [App.on_text]. *)
Definition ui_events (o : list App.app_event) : list App.ui_event :=
  flat_map (fun e => match e with App.Ui u => [u] | App.Manager _ => [] end) o.

(** The values written to [isUploading], in order. *)
Definition uploading_flags (o : list App.app_event) : list bool :=
  flat_map (fun e => match e with
                     | App.Ui (App.setIsUploading b) => [b]
                     | _ => []
                     end) o.

Definition page_after {A} (m : App.App A) (p : App.Page) : App.Page := snd (fst (m p)).
Definition outcome {A} (m : App.App A) (p : App.Page) : completion A := fst (fst (m p)).
Definition trace {A} (m : App.App A) (p : App.Page) : list App.app_event := snd (m p).

(** All the setter calls of a trace, in order: those of the handlers and
    those of the callbacks the manager's events are. *)
Definition setter_calls (manager : LiveManager) (o : list App.app_event)
  : list App.ui_event :=
  flat_map (fun e => match e with
                     | App.Ui u => [u]
                     | App.Manager e => App.callback manager e
                     end) o.

(** The state of the component once [m] has run from page [p], having
    been [v] before. *)
Definition shown_after {A} (manager : LiveManager) (v : App.State.t)
  (m : App.App A) (p : App.Page) : App.State.t :=
  fold_left App.apply_setter (setter_calls manager (trace m p)) v.

(** [m] never writes [isUploading]. *)
Definition leaves_flag {A} (m : App.App A) : Prop :=
  forall p, uploading_flags (trace m p) = [].

(** A browser and a backend that let a session start, with a channel that
    accepts every send and an input context that can be woken. *)
Definition welcoming (env : App.StartEnv) : Prop :=
  App.sdk env = None /\ refusal (App.devices env) = None /\
  handshake (channel (App.devices env)) = None /\
  budget (channel (App.devices env)) = None /\
  forall ic, inputDevice (App.devices env) = inr ic ->
             state ic = suspended -> resume_rejects ic = None.

(** ** More scenarios *)

Open Scope Q_scope.

(** The microphone is denied. *)
Definition mic_denied : ConnectEnv :=
  {| inputDevice := inr a_context; outputDevice := inr a_context;
     microphone := Some {| name := "NotAllowedError"; message := "Permission denied" |};
     channel := a_channel |}.

(** The browser hands out the input context and refuses the output one. *)
Definition half_audio : ConnectEnv :=
  {| inputDevice := inr a_context;
     outputDevice := inl (new_Error "The number of hardware contexts has been reached");
     microphone := None; channel := a_channel |}.

(** A message with a part that cannot be decoded, a part with an empty
    text, a part that plays, and the interruption flag. *)
Definition duet : LiveServerMessage :=
  {| parts := [ {| text := Some "do"%string;
                   inlineData := Some {| currentTime := 1; decoded := None |} |};
                {| text := Some ""%string; inlineData := None |};
                {| text := Some "re"%string;
                   inlineData := Some {| currentTime := 2; decoded := Some (1 # 2) |} |} ];
     interrupted := true; turnComplete := true |}.

(** A file that cannot be decoded. *)
Definition noise : Upload :=
  {| decoding := inl {| name := "EncodingError";
                        message := "Unable to decode audio data" |};
     fallbackContext := inr a_context; reconnect := fine |}.

Definition asleep : AudioContext :=
  {| state := suspended; sampleRate := 48000;
     resume_rejects := Some {| name := "InvalidStateError";
                               message := "cannot resume" |} |}.

(** A connected manager whose input context went to sleep and cannot be
    woken. *)
Definition dozing : Machine :=
  set_heap (<[0%nat := NContext asleep]> (heap connected)) connected.

(** A channel that refuses every send for a reason that no reconnect
    would cure. *)
Definition over_quota : Session :=
  {| handshake := None; budget := Some O;
     send_failure := new_Error "quota exceeded"; close_called := false |}.

Definition throttled : ConnectEnv :=
  {| inputDevice := inr a_context; outputDevice := inr a_context;
     microphone := None; channel := over_quota |}.

Definition on_throttled_channel : Machine := run (connect throttled) (boot []).

(** The page once a session is up, and before any session. *)
Definition live_page : App.Page :=
  {| App.liveManagerRef := true; App.machine := connected |}.

Definition blank_page : App.Page :=
  {| App.liveManagerRef := false; App.machine := boot [] |}.

Definition good_start : App.StartEnv := {| App.sdk := None; App.devices := fine |}.

Definition bad_start : App.StartEnv := {| App.sdk := None; App.devices := no_audio |}.

Close Scope Q_scope.

(** The earlier revision, connected; and connected to a backend whose
    handshake rejects. *)
Definition legacy_connected : Machine := run (Legacy.connect fine) (boot []).

Definition refusing : Session :=
  {| handshake := Some (new_Error "API key not valid"); budget := None;
     send_failure := new_Error "WebSocket is closed"; close_called := false |}.

Definition turned_away : Machine :=
  run (Legacy.connect {| inputDevice := inr a_context; outputDevice := inr a_context;
                         microphone := None; channel := refusing |})
      (boot []).

(** * Properties *)

(** ** Generic facts about the monad *)

Lemma set_heap_same (s : Machine) : set_heap (heap s) s = s.
Proof. destruct s; reflexivity. Qed.

Lemma set_this_same (s : Machine) : set_this (this s) s = s.
Proof. destruct s; reflexivity. Qed.

Lemma heap_only_ret : heap_only (ret tt).
Proof. intros s. exists (heap s). now rewrite set_heap_same. Qed.

Lemma heap_only_store h o : heap_only (store h o).
Proof. intros s. now exists (<[h := o]> (heap s)). Qed.

Lemma heap_only_then promise cb :
  (forall h, heap_only (cb h)) -> heap_only (then_ promise cb).
Proof.
  intros Hcb s. unfold then_, deref, gets, bind. simpl.
  destruct (heap s !! promise) as [[ | | | | |c]|]; try apply heap_only_ret.
  destruct (handshake c).
  - destruct (heap_only_ret s) as [hp ->]. now exists hp.
  - destruct (Hcb promise s) as [hp ->]. now exists hp.
Qed.

Lemma heap_only_close_session p : heap_only (close_session p).
Proof.
  destruct p as [p|]; [|apply heap_only_ret].
  apply heap_only_then. intros h s. unfold deref, gets, bind. simpl.
  destruct (heap s !! h) as [[ | | | | |c]|];
    try (destruct (heap_only_ret s) as [hp ->]; now exists hp).
  destruct (heap_only_store h (NSession (set_close_called true c)) s) as [hp ->].
  now exists hp.
Qed.

Lemma heap_only_disconnect_processor p : heap_only (disconnect_processor p).
Proof.
  destruct p as [p|]; [|apply heap_only_ret].
  intros s. unfold disconnect_processor, deref, gets, bind. simpl.
  destruct (heap s !! p) as [[ | | |ctx c b| | ]|];
    try (destruct (heap_only_ret s) as [hp ->]; now exists hp).
  destruct (heap_only_store p (NProcessor ctx false false) s) as [hp ->].
  now exists hp.
Qed.

Lemma heap_only_disconnect_source p : heap_only (disconnect_source p).
Proof.
  destruct p as [p|]; [|apply heap_only_ret].
  intros s. unfold disconnect_source, deref, gets, bind. simpl.
  destruct (heap s !! p) as [[ | |ctx c| | | ]|];
    try (destruct (heap_only_ret s) as [hp ->]; now exists hp).
  destruct (heap_only_store p (NSource ctx false) s) as [hp ->].
  now exists hp.
Qed.

Lemma heap_only_close_context p : heap_only (close_context p).
Proof.
  destruct p as [p|]; [|apply heap_only_ret].
  intros s. unfold close_context, deref, gets, bind. simpl.
  destruct (heap s !! p) as [[c| | | | | ]|];
    try (destruct (heap_only_ret s) as [hp ->]; now exists hp).
  destruct (state c);
    try (destruct (heap_only_store p (NContext (set_state closed c)) s) as [hp ->];
         now exists hp).
  destruct (heap_only_ret s) as [hp ->]; now exists hp.
Qed.

Lemma disconnect_spec (s : Machine) :
  exists hp,
    disconnect s =
    (Normal tt, set_this (torn_down (this s)) (set_heap hp s),
     [Enter CDisconnect; Status DISCONNECTED]).
Proof.
  unfold disconnect.
  unfold bind at 1. unfold emit at 1.
  unfold bind at 1. unfold assign at 1, modify at 1.
  unfold bind at 1. unfold assign at 1, modify at 1.
  unfold bind at 1. unfold gets at 1.
  set (s1 := set_this _ (set_this _ s)).
  unfold bind at 1.
  destruct (heap_only_close_session (sessionPromise (this s1)) s1) as [h1 ->].
  unfold bind at 1.
  destruct (heap_only_disconnect_processor (scriptProcessor (this s1)) (set_heap h1 s1)) as [h2 ->].
  unfold bind at 1.
  destruct (heap_only_disconnect_source (inputSource (this s1)) (set_heap h2 (set_heap h1 s1))) as [h3 ->].
  unfold bind at 1.
  destruct (heap_only_close_context (inputContext (this s1)) (set_heap h3 (set_heap h2 (set_heap h1 s1)))) as [h4 ->].
  unfold bind at 1.
  destruct (heap_only_close_context (outputContext (this s1)) (set_heap h4 (set_heap h3 (set_heap h2 (set_heap h1 s1))))) as [h5 ->].
  exists h5. reflexivity.
Qed.

(** ** Invariants along a computation *)

Lemma ambient_clock s n t : ambient s (set_now n (set_ticks t s)).
Proof. repeat split; auto. Qed.

Lemma ambient_budget s h c k :
  heap s !! h = Some (NSession c) ->
  ambient s (set_heap (<[h := NSession (set_budget k c)]> (heap s)) s).
Proof.
  intros Hc. repeat split; auto. simpl. intros h' o Ho Hs.
  destruct (decide (h = h')) as [->|Hne].
  - rewrite Hc in Ho. inversion Ho; subst. discriminate.
  - now rewrite lookup_insert_ne.
Qed.

Section Keeps.
Variable I : Machine -> Prop.
Variable P : list event -> Prop.
Hypothesis P_nil : P [].
Hypothesis P_app : forall a b, P a -> P b -> P (a ++ b).
(** [I] does not look at the clock, the pending ticks, or the cells of
    sessions. *)
Hypothesis I_ambient : forall s s', ambient s s' -> I s -> I s'.

Lemma keeps_ret {A} (a : A) : keeps I P (ret a).
Proof. intros s Hs. split; [exact Hs | exact P_nil]. Qed.

Lemma keeps_throw {A} (e : Error) : keeps I P (@throw A e).
Proof. intros s Hs. split; [exact Hs | exact P_nil]. Qed.

Lemma keeps_gets {A} (f : Machine -> A) : keeps I P (gets f).
Proof. intros s Hs. split; [exact Hs | exact P_nil]. Qed.

Lemma keeps_modify (f : Machine -> Machine) :
  (forall s, I s -> I (f s)) -> keeps I P (modify f).
Proof.
  intros Hf s Hs. split; [|exact P_nil]. now apply Hf.
Qed.

Lemma keeps_emit (e : event) : P [e] -> keeps I P (emit e).
Proof. intros He s Hs. split; [exact Hs | exact He]. Qed.

Lemma keeps_bind {A B} (m : M A) (k : A -> M B) :
  keeps I P m -> (forall a, keeps I P (k a)) -> keeps I P (bind m k).
Proof.
  intros Hm Hk s Hs. destruct (Hm s Hs) as [H1 H2].
  unfold run, output in *. unfold bind.
  destruct (m s) as [[[a|e] s1] out1]; simpl in *; [|now split].
  destruct (Hk a s1 H1) as [H3 H4]. unfold run, output in *.
  destruct (k a s1) as [[r s2] out2]; simpl in *. split; [exact H3|].
  now apply P_app.
Qed.

Lemma keeps_try_catch {A} (m : M A) (h : Error -> M A) :
  keeps I P m -> (forall e, keeps I P (h e)) -> keeps I P (try_catch m h).
Proof.
  intros Hm Hh s Hs. destruct (Hm s Hs) as [H1 H2].
  unfold run, output in *. unfold try_catch.
  destruct (m s) as [[[a|e] s1] out1]; simpl in *; [now split|].
  destruct (Hh e s1 H1) as [H3 H4]. unfold run, output in *.
  destruct (h e s1) as [[r s2] out2]; simpl in *. split; [exact H3|].
  now apply P_app.
Qed.

Lemma keeps_try_finally {A} (m : M A) (f : M unit) :
  keeps I P m -> keeps I P f -> keeps I P (try_finally m f).
Proof.
  intros Hm Hf s Hs. destruct (Hm s Hs) as [H1 H2].
  unfold run, output in *. unfold try_finally.
  destruct (m s) as [[r s1] out1]; simpl in *.
  destruct (Hf s1 H1) as [H3 H4]. unfold run, output in *.
  destruct (f s1) as [[[[]|e] s2] out2]; simpl in *;
    (split; [exact H3 | now apply P_app]).
Qed.

Lemma keeps_forM_ {A} (f : A -> M unit) (l : list A) :
  (forall a, keeps I P (f a)) -> keeps I P (forM_ f l).
Proof.
  intros Hf. induction l as [|a l IH]; simpl.
  - apply keeps_ret.
  - apply keeps_bind; [apply Hf | intros _; exact IH].
Qed.

Lemma keeps_deref h : keeps I P (deref h).
Proof. apply keeps_gets. Qed.

Lemma keeps_store h o :
  (forall s, I s -> I (run (store h o) s)) -> keeps I P (store h o).
Proof. intros Hf. now apply keeps_modify. Qed.

Lemma keeps_alloc o :
  (forall s, I s -> I (run (alloc o) s)) -> keeps I P (alloc o).
Proof. intros Hf s Hs. split; [now apply Hf | exact P_nil]. Qed.

Lemma keeps_sendRealtimeInput session p :
  (forall t, P [Sent t session p]) -> keeps I P (sendRealtimeInput session p).
Proof.
  intros Hp s Hs. unfold run, output, sendRealtimeInput.
  destruct (heap s !! session) as [[ | | | | |c]|] eqn:Hc; simpl; try now split.
  destruct (budget c) as [[|k]|]; simpl; try now split.
  split; [|apply Hp]. eapply I_ambient; [|exact Hs].
  now apply ambient_budget.
Qed.

Lemma keeps_then_ promise cb :
  (forall h, keeps I P (cb h)) -> keeps I P (then_ promise cb).
Proof.
  intros Hcb. unfold then_. apply keeps_bind; [apply keeps_deref|].
  intros [[ | | | | |c]|]; try apply keeps_ret.
  destruct (handshake c); [apply keeps_ret | apply Hcb].
Qed.

Lemma keeps_sampleRate_of ctx : keeps I P (sampleRate_of ctx).
Proof.
  unfold sampleRate_of. apply keeps_bind; [apply keeps_deref|].
  intros [[ | | | | | ]|]; apply keeps_ret.
Qed.

Lemma keeps_state_of ctx : keeps I P (state_of ctx).
Proof.
  unfold state_of. apply keeps_bind; [apply keeps_deref|].
  intros [[ | | | | | ]|]; apply keeps_ret.
Qed.

Lemma keeps_new_AudioContext r :
  (forall o s, I s -> I (run (alloc o) s)) -> keeps I P (new_AudioContext r).
Proof. intros Hf. destruct r; [apply keeps_throw | apply keeps_alloc, Hf]. Qed.

Lemma keeps_onaudioprocess d :
  (forall t h p, P [Sent t h p]) -> keeps I P (onaudioprocess d).
Proof.
  intros HP. unfold onaudioprocess. apply keeps_bind; [apply keeps_gets|].
  intros m.
  destruct (sessionPromise m), (inputContext m), (isProcessingFile m);
    try apply keeps_ret.
  apply keeps_bind; [apply keeps_sampleRate_of|].
  intros rate. apply keeps_then_. intros h.
  apply keeps_try_catch.
  - apply keeps_sendRealtimeInput. intros t. apply HP.
  - intros e. apply keeps_ret.
Qed.

Lemma keeps_fire_any f :
  (forall t h p, P [Sent t h p]) -> keeps I P (fire f).
Proof.
  intros HP. unfold fire. apply keeps_bind; [apply keeps_deref|].
  intros [[ | | |ctx c [|]| | ]|]; try apply keeps_ret.
  now apply keeps_onaudioprocess.
Qed.

(** From here on: the capture callback respects [I] and [P]. *)
Hypothesis keeps_fire : forall f, keeps I P (fire f).

Lemma keeps_await_ : keeps I P await_.
Proof.
  intros s Hs. unfold run, output, await_.
  destruct (ticks s) as [|t rest]; [now split|].
  apply (keeps_forM_ fire (frames t) keeps_fire).
  eapply I_ambient; [|exact Hs]. apply ambient_clock.
Qed.

Lemma keeps_setTimeout ms : keeps I P (setTimeout ms).
Proof.
  unfold setTimeout. apply keeps_bind; [|intros _; apply keeps_await_].
  apply keeps_modify. intros s. apply I_ambient.
  change (set_now (now s + ms)%N s) with (set_now (now s + ms)%N (set_ticks (ticks s) s)).
  apply ambient_clock.
Qed.

Lemma keeps_resume ctx :
  (forall c s, I s -> I (run (store ctx (NContext (set_state running c))) s)) ->
  keeps I P (resume ctx).
Proof.
  intros Hf.
  unfold resume. apply keeps_bind; [apply keeps_await_|]. intros _.
  apply keeps_bind; [apply keeps_deref|].
  intros [[c| | | | | ]|]; try apply keeps_throw.
  destruct (resume_rejects c); [apply keeps_throw | apply keeps_store, Hf].
Qed.

Lemma keeps_resume_if_suspended ctx :
  (forall h c s, I s -> I (run (store h (NContext (set_state running c))) s)) ->
  keeps I P (resume_if_suspended ctx).
Proof.
  intros Hf.
  destruct ctx as [c|]; [|apply keeps_ret]. simpl.
  apply keeps_bind; [apply keeps_state_of|].
  intros [[ | | ]|]; try apply keeps_ret. apply keeps_resume, Hf.
Qed.

Lemma keeps_getUserMedia r : keeps I P (getUserMedia r).
Proof.
  unfold getUserMedia. apply keeps_bind; [apply keeps_await_|]. intros _.
  destruct r; [apply keeps_throw | apply keeps_ret].
Qed.

Lemma keeps_await_promise p : keeps I P (await_promise p).
Proof.
  unfold await_promise. apply keeps_bind; [apply keeps_await_|]. intros _.
  apply keeps_bind; [apply keeps_deref|].
  intros [[ | | | | |c]|]; try apply keeps_ret.
  destruct (handshake c); [apply keeps_throw | apply keeps_ret].
Qed.

Lemma keeps_decode_and_resample r : keeps I P (decode_and_resample r).
Proof.
  unfold decode_and_resample.
  apply keeps_bind; [apply keeps_await_|]. intros _.
  apply keeps_bind; [apply keeps_await_|]. intros _.
  destruct r; [apply keeps_throw|].
  apply keeps_bind; [apply keeps_await_|]. intros _. apply keeps_ret.
Qed.

(** The uploads that go out satisfy [P]. *)
Hypothesis P_upload : forall e, is_upload_send e = true -> P [e].

Lemma keeps_send_chunks fuel session data i :
  keeps I P (send_chunks fuel session data i).
Proof.
  revert i. induction fuel as [|fuel IH]; intros i; simpl.
  - apply keeps_ret.
  - destruct (i <? length data)%nat; [|apply keeps_ret].
    apply keeps_bind.
    + apply keeps_try_catch.
      * apply keeps_sendRealtimeInput. intros t. now apply P_upload.
      * intros e. apply keeps_throw.
    + intros _. apply keeps_bind; [apply keeps_setTimeout|].
      intros _. apply IH.
Qed.

(** [streamAudioData] writes its entry marker, then only what [P] allows. *)
Lemma streamAudioData_keeps data s :
  (forall o s, I s -> I (run (alloc o) s)) ->
  I s ->
  exists r s' o,
    streamAudioData data s = (r, s', Enter (CStream data) :: o) /\
    P o /\ I s'.
Proof.
  intros Halloc Hs.
  assert (keeps I P (visualise data)) as Hviz.
  { unfold visualise. apply keeps_bind; [apply keeps_gets|]. intros m.
    destruct (inputContext m), (inputAnalyser m); try apply keeps_ret.
    apply keeps_try_catch; [|intros e; apply keeps_ret].
    destruct data; [apply keeps_throw|].
    apply keeps_bind; [apply keeps_alloc, Halloc|]. intros _. apply keeps_ret. }
  assert (keeps I P
            (m <- gets this ;;
             match sessionPromise m with
             | None => throw (new_Error "Session not active")
             | Some promise =>
                 session <- await_promise promise ;;
                 visualise data ;;
                 send_chunks (length data) session data 0 ;;
                 sendRealtimeInput session (Prompt completion_prompt)
             end)) as Hbody.
  { apply keeps_bind; [apply keeps_gets|]. intros m.
    destruct (sessionPromise m); [|apply keeps_throw].
    apply keeps_bind; [apply keeps_await_promise|]. intros session.
    apply keeps_bind; [exact Hviz|]. intros _.
    apply keeps_bind; [apply keeps_send_chunks|]. intros _.
    apply keeps_sendRealtimeInput. intros t. now apply P_upload. }
  destruct (Hbody s Hs) as [H1 H2]. unfold run, output in *.
  unfold streamAudioData. unfold bind at 1. unfold emit at 1.
  match goal with
  | |- context [match ?b s with _ => _ end] => destruct (b s) as [[r s'] o]
  end.
  simpl in *. exists r, s', o. auto.
Qed.

(** [connect]: what it allocates, assigns and resumes respects [I]. *)
Hypothesis I_alloc : forall o s, I s -> I (run (alloc o) s).
Hypothesis I_assign : forall m s, I s -> I (set_this m s).
Hypothesis I_resume : forall h c s,
  I s -> I (run (store h (NContext (set_state running c))) s).

Lemma keeps_assign {V} (set : V -> LiveManager -> LiveManager) v :
  keeps I P (assign set v).
Proof. intros s Hs. split; [now apply I_assign | exact P_nil]. Qed.

Lemma connect_keeps (env : ConnectEnv) (s : Machine) :
  I s ->
  (exists s' o,
      connect env s =
      (Normal tt, s', Enter CConnect :: Status CONNECTING :: o) /\
      P o /\ I s') \/
  (exists e s1 hp o,
      connect env s =
      (Throw e, set_this (torn_down (this s1)) (set_heap hp s1),
       Enter CConnect :: Status CONNECTING ::
         o ++ [Enter CDisconnect; Status DISCONNECTED;
               ErrorEv (message e); Status ERROR]) /\
      P o /\ I s1).
Proof.
  intros Hs.
  destruct (connect env s) as [[r s'] out] eqn:Hc.
  unfold connect in Hc. unfold bind at 1 in Hc. unfold emit at 1 in Hc.
  unfold try_catch at 1 in Hc. unfold bind at 1 in Hc.
  unfold onStatusChange at 1, emit at 1 in Hc.
  match type of Hc with
  | context [match ?k s with _ => _ end] => assert (keeps I P k) as Hk
  end.
  { apply keeps_bind; [apply keeps_new_AudioContext, I_alloc|]. intros ic.
    apply keeps_bind; [apply keeps_assign|]. intros _.
    apply keeps_bind; [apply keeps_new_AudioContext, I_alloc|]. intros oc.
    apply keeps_bind; [apply keeps_assign|]. intros _.
    apply keeps_bind; [apply keeps_resume_if_suspended, I_resume|]. intros _.
    apply keeps_bind; [apply keeps_alloc, I_alloc|]. intros ia.
    apply keeps_bind; [apply keeps_assign|]. intros _.
    apply keeps_bind; [apply keeps_alloc, I_alloc|]. intros oa.
    apply keeps_bind; [apply keeps_assign|]. intros _.
    apply keeps_bind.
    { apply keeps_try_catch; [|intros e; apply keeps_assign].
      apply keeps_bind; [apply keeps_getUserMedia|]. intros _.
      apply keeps_bind; [apply keeps_alloc, I_alloc|]. intros src.
      apply keeps_bind; [apply keeps_assign|]. intros _.
      apply keeps_bind; [apply keeps_alloc, I_alloc|]. intros sp.
      apply keeps_bind; [apply keeps_assign|]. intros _.
      apply keeps_assign. }
    intros _.
    apply keeps_bind; [apply keeps_alloc, I_alloc|]. intros session.
    apply keeps_assign. }
  match type of Hc with
  | context [match ?k s with _ => _ end] =>
      destruct (Hk s Hs) as [Hi Ho]; unfold output, run in Hi, Ho;
      destruct (k s) as [[[[]|e] s1] o]
  end; simpl in Hi, Ho.
  - left. exists s1, o. split; [|split; [exact Ho | exact Hi]].
    simpl in Hc. now inversion Hc.
  - right. unfold bind at 1 in Hc.
    destruct (disconnect_spec s1) as [hp Hd]. rewrite Hd in Hc.
    exists e, s1, hp, o. split; [|split; [exact Ho | exact Hi]].
    unfold bind, onError, onStatusChange, emit, throw in Hc. simpl in Hc.
    now inversion Hc.
Qed.
End Keeps.

(** ** Two instances *)

Create HintDb keeps.

Lemma sends_nil : sends [].
Proof. constructor. Qed.

Lemma sends_app a b : sends a -> sends b -> sends (a ++ b).
Proof. intros Ha Hb. apply Forall_app; now split. Qed.

Lemma uploads_nil : uploads [].
Proof. constructor. Qed.

Lemma uploads_app a b : uploads a -> uploads b -> uploads (a ++ b).
Proof. intros Ha Hb. apply Forall_app; now split. Qed.

Lemma uploads_sends o : uploads o -> sends o.
Proof.
  apply Forall_impl. intros [ | | |t h [ | | ]| | | ]; simpl; congruence.
Qed.

Lemma anywhere_ambient s s' : ambient s s' -> anywhere s -> anywhere s'.
Proof. trivial. Qed.

Lemma muted_ambient s s' : ambient s s' -> muted s -> muted s'.
Proof. unfold muted. now intros [-> _]. Qed.

Lemma anywhere_always (f : Machine -> Machine) s : anywhere s -> anywhere (f s).
Proof. trivial. Qed.

Lemma muted_store h o s : muted s -> muted (run (store h o) s).
Proof. trivial. Qed.

Lemma muted_alloc o s : muted s -> muted (run (alloc o) s).
Proof. trivial. Qed.

Lemma sends_one t h p : sends [Sent t h p].
Proof. repeat constructor. Qed.

Lemma sends_upload e : is_upload_send e = true -> sends [e].
Proof. intros He. apply uploads_sends. now repeat constructor. Qed.

Lemma uploads_upload e : is_upload_send e = true -> uploads [e].
Proof. intros He. now repeat constructor. Qed.

#[local] Hint Resolve sends_nil sends_app uploads_nil uploads_app
  anywhere_ambient muted_ambient anywhere_always muted_store muted_alloc
  sends_one sends_upload uploads_upload : keeps.

Lemma onaudioprocess_sends d : keeps anywhere sends (onaudioprocess d).
Proof.
  unfold onaudioprocess. apply keeps_bind; auto with keeps.
  { apply keeps_gets; auto with keeps. }
  intros m.
  destruct (sessionPromise m), (inputContext m), (isProcessingFile m);
    try (apply keeps_ret; auto with keeps).
  apply keeps_bind; auto with keeps.
  { apply keeps_sampleRate_of; auto with keeps. }
  intros rate. apply keeps_then_; auto with keeps. intros h.
  apply keeps_try_catch; auto with keeps.
  - apply keeps_sendRealtimeInput; auto with keeps.
  - intros e. apply keeps_ret; auto with keeps.
Qed.

Lemma fire_sends f : keeps anywhere sends (fire f).
Proof.
  unfold fire. apply keeps_bind; auto with keeps.
  { apply keeps_deref; auto with keeps. }
  intros [[ | | |ctx c [|]| | ]|]; try (apply keeps_ret; auto with keeps).
  apply onaudioprocess_sends.
Qed.

(** While the flag is set the capture callback does nothing at all. *)
Lemma onaudioprocess_muted d s :
  muted s -> onaudioprocess d s = (Normal tt, s, []).
Proof.
  unfold muted, onaudioprocess, bind, gets. simpl. intros ->.
  now destruct (sessionPromise (this s)), (inputContext (this s)).
Qed.

Lemma fire_muted f s : muted s -> fire f s = (Normal tt, s, []).
Proof.
  intros Hs. unfold fire, bind, deref, gets. simpl.
  destruct (heap s !! f.1) as [[ | | |ctx c [|]| | ]|]; try reflexivity.
  now rewrite onaudioprocess_muted.
Qed.

Lemma fire_uploads f : keeps muted uploads (fire f).
Proof.
  intros s Hs. unfold run, output. rewrite fire_muted by exact Hs.
  simpl. split; [exact Hs | constructor].
Qed.

#[local] Hint Resolve fire_sends fire_uploads : keeps.

Lemma assign_anywhere {V} P (set : V -> LiveManager -> LiveManager) v :
  P [] -> keeps anywhere P (assign set v).
Proof. intros HP s _. split; [exact Logic.I | exact HP]. Qed.

Ltac step lem := apply lem; eauto with keeps.

(** ** What connect writes *)

Lemma connect_spec (env : ConnectEnv) (s : Machine) :
  (exists s' o,
      connect env s =
      (Normal tt, s', Enter CConnect :: Status CONNECTING :: o) /\ sends o) \/
  (exists e s1 hp o,
      connect env s =
      (Throw e, set_this (torn_down (this s1)) (set_heap hp s1),
       Enter CConnect :: Status CONNECTING ::
         o ++ [Enter CDisconnect; Status DISCONNECTED;
               ErrorEv (message e); Status ERROR]) /\ sends o).
Proof.
  destruct (connect_keeps anywhere sends sends_nil sends_app anywhere_ambient
              fire_sends (fun o s => anywhere_always _ s)
              (fun m s => anywhere_always (set_this m) s)
              (fun h c s => anywhere_always _ s) env s Logic.I)
    as [(s' & o & H & Ho & _) | (e & s1 & hp & o & H & Ho & _)].
  - left. now exists s', o.
  - right. now exists e, s1, hp, o.
Qed.

(** ** Reading traces *)

Lemma calls_app a b : calls (a ++ b) = calls a ++ calls b.
Proof. apply flat_map_app. Qed.

Lemma statuses_app a b : statuses (a ++ b) = statuses a ++ statuses b.
Proof. apply flat_map_app. Qed.

Lemma calls_sends o : sends o -> calls o = [].
Proof.
  induction 1 as [|e o He _ IH]; [reflexivity|].
  destruct e; try discriminate. exact IH.
Qed.

Lemma statuses_sends o : sends o -> statuses o = [].
Proof.
  induction 1 as [|e o He _ IH]; [reflexivity|].
  destruct e; try discriminate. exact IH.
Qed.

Lemma streamAudioData_sends data s :
  exists r s' o,
    streamAudioData data s = (r, s', Enter (CStream data) :: o) /\ sends o.
Proof.
  destruct (streamAudioData_keeps anywhere sends sends_nil sends_app
              anywhere_ambient fire_sends sends_upload data s
              (fun o s => anywhere_always _ s) Logic.I)
    as (r & s' & o & H & Ho & _).
  now exists r, s', o.
Qed.

(** ** The retry protocol *)

(** What the streaming statement does once the first attempt has failed
    with a transient failure. *)
Lemma stream_with_retry_transient env data s e s1 o1 :
  streamAudioData data s = (Throw e, s1, o1) ->
  isTransient (message e) = true ->
  exists s2,
    disconnect s1 = (Normal tt, s2, [Enter CDisconnect; Status DISCONNECTED]) /\
    ((exists s3 o3 r s4 o4,
         connect env s2 = (Normal tt, s3, o3) /\
         streamAudioData data s3 = (r, s4, o4) /\
         stream_with_retry env data s =
         (r, set_this (set_isProcessingFile false (this s4)) s4,
          o1 ++ [Enter CDisconnect; Status DISCONNECTED] ++ o3 ++ o4) /\
         calls o3 = [CConnect] /\ calls o4 = [CStream data] /\
         statuses o3 = [CONNECTING] /\ statuses o4 = []) \/
     (exists e' s3 o3,
         connect env s2 = (Throw e', s3, o3) /\
         stream_with_retry env data s =
         (Throw e', set_this (set_isProcessingFile false (this s3)) s3,
          o1 ++ [Enter CDisconnect; Status DISCONNECTED] ++ o3) /\
         calls o3 = [CConnect; CDisconnect] /\
         statuses o3 = [CONNECTING; DISCONNECTED; ERROR])).
Proof.
  intros H1 Ht.
  destruct (disconnect_spec s1) as [hp Hd].
  eexists. split; [exact Hd|].
  set (s2 := set_this (torn_down (this s1)) (set_heap hp s1)) in *.
  set (unmute := fun s : Machine => set_this (set_isProcessingFile false (this s)) s).
  set (od := [Enter CDisconnect; Status DISCONNECTED]) in *.
  assert (stream_with_retry env data s =
          match connect env s2 with
          | (Normal _, s3, o3) =>
              match streamAudioData data s3 with
              | (r, s4, o4) => (r, unmute s4, o1 ++ od ++ o3 ++ o4)
              end
          | (Throw e', s3, o3) => (Throw e', unmute s3, o1 ++ od ++ o3)
          end) as Hrun.
  { unfold stream_with_retry, try_finally, try_catch. rewrite H1, Ht.
    unfold bind. rewrite Hd.
    destruct (connect env s2) as [[[[]|e'] s3] o3].
    - destruct (streamAudioData data s3) as [[r s4] o4].
      unfold assign, modify. now rewrite List.app_nil_r.
    - unfold assign, modify. now rewrite List.app_nil_r. }
  destruct (connect_spec env s2)
    as [(s3 & o3 & Hc & Ho3) | (e' & s3 & hp' & o3 & Hc & Ho3)];
    rewrite Hc in Hrun.
  - left.
    destruct (streamAudioData_sends data s3) as (r & s4 & o4 & Hs & Ho4).
    rewrite Hs in Hrun. do 5 eexists. split; [exact Hc|].
    split; [exact Hs|]. split; [exact Hrun|].
    simpl. rewrite (calls_sends _ Ho3), (calls_sends _ Ho4).
    now rewrite (statuses_sends _ Ho3), (statuses_sends _ Ho4).
  - right. do 3 eexists. split; [exact Hc|]. split; [exact Hrun|].
    simpl. rewrite calls_app, statuses_app.
    now rewrite (calls_sends _ Ho3), (statuses_sends _ Ho3).
Qed.

(** ** C1 *)

(** C1. A microphone frame delivered to the script-processor callback while
    [isProcessingFile] is true is dropped: the callback returns at once,
    nothing is put on the channel and the machine is unchanged; the same
    holds when the frame arrives through the script processor. *)
Theorem mic_frame_dropped_while_uploading
  (s : Machine) (processor : handle) (inputData : samples) :
  isProcessingFile (this s) = true ->
  onaudioprocess inputData s = (Normal tt, s, []) /\
  fire (processor, inputData) s = (Normal tt, s, []).
Proof.
  intros H. split; [now apply onaudioprocess_muted | now apply fire_muted].
Qed.

Lemma mic_frame_dropped_while_uploading_witness :
  isProcessingFile (this uploading) = true /\
  onaudioprocess a_clip uploading = (Normal tt, uploading, []) /\
  fire (5%nat, a_clip) uploading = (Normal tt, uploading, []).
Proof.
  split; [reflexivity|].
  apply (mic_frame_dropped_while_uploading uploading 5%nat a_clip).
  reflexivity.
Defined.

(** Without the flag the same frame goes out. *)
Example mic_frame_forwarded_otherwise :
  output (fire (5%nat, a_clip)) connected = [Sent 0 6%nat (MicBlob a_clip 48000)].
Proof. vm_compute. reflexivity. Qed.

(** ** C10 *)

(** C10. After [disconnect()] the session promise, both audio contexts, the
    script processor and the input source are null and the playback cursor
    is 0, while the two analyser fields are as before: getInputAnalyser()
    and getOutputAnalyser() still return the analysers of the torn-down
    session. *)
Theorem disconnect_keeps_analysers (s : Machine) :
  result disconnect s = Normal tt /\
  sessionPromise (this (run disconnect s)) = None /\
  inputContext (this (run disconnect s)) = None /\
  outputContext (this (run disconnect s)) = None /\
  scriptProcessor (this (run disconnect s)) = None /\
  inputSource (this (run disconnect s)) = None /\
  nextStartTime (this (run disconnect s)) = 0%Q /\
  result getInputAnalyser (run disconnect s) = Normal (inputAnalyser (this s)) /\
  result getOutputAnalyser (run disconnect s) = Normal (outputAnalyser (this s)).
Proof.
  destruct (disconnect_spec s) as [hp H]. unfold result, run. rewrite H.
  simpl. repeat split.
Qed.

(** On a session that was connected the analysers are not null, before and
    after the teardown. *)
Example analysers_survive_disconnect :
  result getInputAnalyser connected = Normal (Some 2%nat) /\
  result getOutputAnalyser connected = Normal (Some 3%nat) /\
  result getInputAnalyser (run disconnect connected) = Normal (Some 2%nat) /\
  result getOutputAnalyser (run disconnect connected) = Normal (Some 3%nat).
Proof. vm_compute. repeat split. Qed.

(** ** C2 *)

(** C2, as amended.  When the first streaming attempt of an upload job fails
    with a transient failure, sendAudioFile calls disconnect() once and
    connect() once.  If that connect() returns, streamAudioData runs once
    more, on the same normalised buffer, and its outcome (a failure
    included) is the outcome of the job.  If that connect() throws, there
    is no second streaming run and the job fails with connect's error.  In
    both cases nothing is retried again, and isProcessingFile is false when
    the job ends. *)
Theorem retry_once
  (file : Upload) (s0 s s1 : Machine) (data : samples) (e : Error)
  (o0 o1 : list event) :
  prepare_upload file s0 = (Normal data, s, o0) ->
  streamAudioData data s = (Throw e, s1, o1) ->
  isTransient (message e) = true ->
  exists r s' o2,
    sendAudioFile file s0 = (r, s', o0 ++ o1 ++ o2) /\
    isProcessingFile (this s') = false /\
    exists s2,
      disconnect s1 = (Normal tt, s2, [Enter CDisconnect; Status DISCONNECTED]) /\
      ((exists s3 o3 s4 o4,
           connect (reconnect file) s2 = (Normal tt, s3, o3) /\
           streamAudioData data s3 = (r, s4, o4) /\
           calls o2 = [CDisconnect; CConnect; CStream data]) \/
       (exists e' s3 o3,
           connect (reconnect file) s2 = (Throw e', s3, o3) /\
           r = Throw e' /\
           calls o2 = [CDisconnect; CConnect; CDisconnect])).
Proof.
  intros Hp Hs Ht.
  destruct (stream_with_retry_transient (reconnect file) data s e s1 o1 Hs Ht)
    as (s2 & Hd & [(s3 & o3 & r & s4 & o4 & Hc & Hs' & Hrun & Hc3 & Hc4 & _)
                  |(e' & s3 & o3 & Hc & Hrun & Hc3 & _)]).
  - exists r, (set_this (set_isProcessingFile false (this s4)) s4),
      ([Enter CDisconnect; Status DISCONNECTED] ++ o3 ++ o4).
    split; [|split; [reflexivity|]].
    { unfold sendAudioFile, bind. now rewrite Hp, Hrun. }
    exists s2. split; [exact Hd|]. left. exists s3, o3, s4, o4.
    split; [exact Hc|]. split; [exact Hs'|].
    rewrite !calls_app, Hc3, Hc4. reflexivity.
  - exists (Throw e'), (set_this (set_isProcessingFile false (this s3)) s3),
      ([Enter CDisconnect; Status DISCONNECTED] ++ o3).
    split; [|split; [reflexivity|]].
    { unfold sendAudioFile, bind. now rewrite Hp, Hrun. }
    exists s2. split; [exact Hd|]. right. exists e', s3, o3.
    split; [exact Hc|]. split; [reflexivity|].
    rewrite !calls_app, Hc3. reflexivity.
Qed.

Lemma retry_once_witness :
  let file := clip_with fine in
  let s0 := on_dead_channel in
  let data := normalize a_clip in
  let s := run (prepare_upload file) s0 in
  let o0 := output (prepare_upload file) s0 in
  let e := new_Error "Failed to send chunk: Error: WebSocket is closed" in
  let s1 := run (streamAudioData data) s in
  let o1 := output (streamAudioData data) s in
  prepare_upload file s0 = (Normal data, s, o0) /\
  streamAudioData data s = (Throw e, s1, o1) /\
  isTransient (message e) = true /\
  exists r s' o2,
    sendAudioFile file s0 = (r, s', o0 ++ o1 ++ o2) /\
    isProcessingFile (this s') = false /\
    exists s2,
      disconnect s1 = (Normal tt, s2, [Enter CDisconnect; Status DISCONNECTED]) /\
      ((exists s3 o3 s4 o4,
           connect (reconnect file) s2 = (Normal tt, s3, o3) /\
           streamAudioData data s3 = (r, s4, o4) /\
           calls o2 = [CDisconnect; CConnect; CStream data]) \/
       (exists e' s3 o3,
           connect (reconnect file) s2 = (Throw e', s3, o3) /\
           r = Throw e' /\
           calls o2 = [CDisconnect; CConnect; CDisconnect])).
Proof.
  intros file s0 data s o0 e s1 o1.
  assert (prepare_upload file s0 = (Normal data, s, o0)) as Hp
    by (vm_compute; reflexivity).
  assert (streamAudioData data s = (Throw e, s1, o1)) as Hs
    by (vm_compute; reflexivity).
  assert (isTransient (message e) = true) as Ht by reflexivity.
  split; [exact Hp|]. split; [exact Hs|]. split; [exact Ht|].
  exact (retry_once file s0 s s1 data e o0 o1 Hp Hs Ht).
Defined.

(** The claim as first stated fails when the reconnect itself fails: the
    first attempt fails with a transient failure, yet streamAudioData is
    entered only once in the whole job. *)
Lemma failed_reconnect_means_no_rerun :
  let file := clip_with no_audio in
  let s0 := on_dead_channel in
  let data := normalize a_clip in
  let e := new_Error "Failed to send chunk: Error: WebSocket is closed" in
  result (prepare_upload file) s0 = Normal data /\
  result (streamAudioData data) (run (prepare_upload file) s0) = Throw e /\
  isTransient (message e) = true /\
  calls (output (sendAudioFile file) s0) =
    [CStream data; CDisconnect; CConnect; CDisconnect].
Proof. vm_compute. repeat split. Qed.

(** ** The scheduler is a function of the cursor *)

Lemma with_cursor_same s : with_cursor (nextStartTime (this s)) s = s.
Proof. destruct s as [[] ? ? ? ?]; reflexivity. Qed.

Lemma with_cursor_twice c c' s : with_cursor c (with_cursor c' s) = with_cursor c s.
Proof. reflexivity. Qed.

Lemma cursor_with_cursor c s : nextStartTime (this (with_cursor c s)) = c.
Proof. reflexivity. Qed.

Lemma handle_part_events oc p s :
  handle_part oc p s =
  (Normal tt,
   with_cursor (fst (part_events oc (nextStartTime (this s)) p)) s,
   snd (part_events oc (nextStartTime (this s)) p)).
Proof.
  unfold handle_part, part_events, handle_text, handle_audio, audio_events,
    text_events.
  destruct (inlineData p) as [a|].
  - unfold pcmToAudioBuffer.
    destruct (decoded a) as [d|];
      destruct (text p) as [t|]; try destruct (String.eqb t ""); reflexivity.
  - rewrite <- (with_cursor_same s) at 1.
    destruct (text p) as [t|]; try destruct (String.eqb t "");
      unfold bind, ret, onTextReceived, emit; simpl;
      now rewrite with_cursor_same.
Qed.

Lemma handle_parts_events oc ps s :
  forM_ (handle_part oc) ps s =
  (Normal tt,
   with_cursor (fst (parts_events oc (nextStartTime (this s)) ps)) s,
   snd (parts_events oc (nextStartTime (this s)) ps)).
Proof.
  revert s. induction ps as [|p ps IH]; intros s; simpl.
  - unfold ret. now rewrite with_cursor_same.
  - unfold bind. rewrite handle_part_events, IH.
    rewrite cursor_with_cursor, with_cursor_twice.
    destruct (part_events oc (nextStartTime (this s)) p) as [c1 o1]; simpl.
    destruct (parts_events oc c1 ps) as [c2 o2]; reflexivity.
Qed.

Lemma handleMessage_events oc msg s :
  outputContext (this s) = Some oc ->
  handleMessage msg s =
  (Normal tt,
   with_cursor (fst (message_events oc (nextStartTime (this s)) msg)) s,
   snd (message_events oc (nextStartTime (this s)) msg)).
Proof.
  intros Hoc. unfold handleMessage. unfold bind at 1. unfold gets at 1.
  rewrite Hoc. unfold bind at 1. rewrite handle_parts_events.
  unfold message_events.
  destruct (parts_events oc (nextStartTime (this s)) (parts msg)) as [c o]; simpl.
  destruct (interrupted msg); simpl.
  - reflexivity.
  - unfold ret. now rewrite List.app_nil_r.
Qed.

Lemma handleMessage_no_context msg s :
  outputContext (this s) = None -> handleMessage msg s = (Normal tt, s, []).
Proof.
  intros Hoc. unfold handleMessage, bind, gets. now rewrite Hoc.
Qed.

Lemma handleMessages_events oc msgs s :
  outputContext (this s) = Some oc ->
  forM_ handleMessage msgs s =
  (Normal tt,
   with_cursor (fst (messages_events oc (nextStartTime (this s)) msgs)) s,
   snd (messages_events oc (nextStartTime (this s)) msgs)).
Proof.
  revert s. induction msgs as [|msg msgs IH]; intros s Hoc; simpl.
  - unfold ret. now rewrite with_cursor_same.
  - unfold bind. rewrite (handleMessage_events oc) by exact Hoc.
    rewrite IH by exact Hoc.
    rewrite cursor_with_cursor, with_cursor_twice.
    destruct (message_events oc (nextStartTime (this s)) msg) as [c1 o1]; simpl.
    destruct (messages_events oc c1 msgs) as [c2 o2]; reflexivity.
Qed.

(** ** C3: gapless scheduling *)

Open Scope Q_scope.

Lemma in_order_app f a b :
  in_order f (a ++ b) <-> in_order f a /\ in_order (floor_after f a) b.
Proof.
  revert f. induction a as [|e a IH]; intros f; simpl.
  - tauto.
  - destruct e; try apply IH. rewrite IH. tauto.
Qed.

Lemma floor_after_app f a b :
  floor_after f (a ++ b) = floor_after (floor_after f a) b.
Proof.
  revert f. induction a as [|e a IH]; intros f; simpl; [reflexivity|].
  destruct e; apply IH.
Qed.

Lemma in_order_text f t : in_order f (text_events t) /\ floor_after f (text_events t) = f.
Proof.
  destruct t as [t|]; simpl; [|tauto]. destruct (String.eqb t ""); simpl; tauto.
Qed.

Lemma part_in_order oc cursor floor p :
  floor <= cursor ->
  in_order floor (snd (part_events oc cursor p)) /\
  floor_after floor (snd (part_events oc cursor p)) <= fst (part_events oc cursor p).
Proof.
  intros Hf. unfold part_events, audio_events.
  destruct (in_order_text floor (text p)) as [Ht Hft].
  destruct (inlineData p) as [a|]; simpl.
  - pose proof (Q.le_max_l cursor (currentTime a)) as Hm.
    destruct (decoded a) as [d|]; simpl.
    + rewrite in_order_app, floor_after_app, Hft. simpl.
      repeat split; auto; try lra.
    + rewrite List.app_nil_r, Hft. split; [exact Ht | lra].
  - rewrite List.app_nil_r, Hft. split; [exact Ht | exact Hf].
Qed.

Lemma parts_in_order oc ps : forall cursor floor,
  floor <= cursor ->
  in_order floor (snd (parts_events oc cursor ps)) /\
  floor_after floor (snd (parts_events oc cursor ps)) <= fst (parts_events oc cursor ps).
Proof.
  induction ps as [|p ps IH]; intros cursor floor Hf; simpl.
  - split; [exact Logic.I | exact Hf].
  - destruct (part_in_order oc cursor floor p Hf) as [H1 H2].
    destruct (part_events oc cursor p) as [c1 o1]; simpl in *.
    destruct (IH c1 _ H2) as [H3 H4].
    destruct (parts_events oc c1 ps) as [c2 o2]; simpl in *.
    rewrite in_order_app, floor_after_app. auto.
Qed.

Lemma message_in_order oc msg cursor floor :
  floor <= cursor ->
  in_order floor (snd (message_events oc cursor msg)) /\
  floor_after floor (snd (message_events oc cursor msg))
    <= fst (message_events oc cursor msg).
Proof.
  intros Hf. unfold message_events.
  destruct (parts_in_order oc (parts msg) cursor floor Hf) as [H1 H2].
  destruct (parts_events oc cursor (parts msg)) as [c o]; simpl in *.
  destruct (interrupted msg); simpl; [|auto].
  rewrite in_order_app, floor_after_app. simpl. repeat split; auto. lra.
Qed.

Lemma messages_in_order oc msgs : forall cursor floor,
  floor <= cursor ->
  in_order floor (snd (messages_events oc cursor msgs)).
Proof.
  induction msgs as [|msg msgs IH]; intros cursor floor Hf; simpl.
  - exact Logic.I.
  - destruct (message_in_order oc msg cursor floor Hf) as [H1 H2].
    destruct (message_events oc cursor msg) as [c1 o1]; simpl in *.
    specialize (IH c1 _ H2).
    destruct (messages_events oc c1 msgs) as [c2 o2]; simpl in *.
    rewrite in_order_app. auto.
Qed.

(** Without an interruption, and with chunks of non-negative length, the
    floor only rises. *)
Lemma floor_rises mid : forall f,
  ~ In Interrupted mid -> Forall nonneg_duration mid ->
  in_order f mid -> f <= floor_after f mid.
Proof.
  induction mid as [|e mid IH]; intros f Hi Hd Ho; simpl in *.
  - lra.
  - inversion Hd as [|? ? He Hd']; subst.
    assert (~ In Interrupted mid) as Hi' by tauto.
    destruct e; try (apply IH; assumption).
    + destruct Ho as [H1 H2]. simpl in He.
      specialize (IH _ Hi' Hd' H2). lra.
    + exfalso. apply Hi. now left.
Qed.

Lemma messages_without_context msgs s :
  outputContext (this s) = None ->
  forM_ handleMessage msgs s = (Normal tt, s, []).
Proof.
  intros Hoc. induction msgs as [|msg msgs IH]; simpl; [reflexivity|].
  unfold bind. now rewrite handleMessage_no_context, IH.
Qed.

Lemma messages_scheduled_in_order msgs s :
  in_order (nextStartTime (this s)) (output (forM_ handleMessage msgs) s).
Proof.
  unfold output. destruct (outputContext (this s)) as [oc|] eqn:Hoc.
  - rewrite (handleMessages_events oc) by exact Hoc. simpl.
    apply messages_in_order. lra.
  - rewrite messages_without_context by exact Hoc. exact Logic.I.
Qed.

(** C3. Of two chunks scheduled one after the other with no interruption
    signal in between (and chunks of non-negative duration in between),
    the later one starts no earlier than the earlier one's start plus its
    duration.  Each decoded chunk starts at max(cursor, currentTime), and
    the cursor then moves on by exactly the chunk's duration. *)
Theorem gapless_schedule
  (s : Machine) (msgs : list LiveServerMessage)
  (pre mid post : list event) (c1 c2 : handle) (a1 w1 d1 a2 w2 d2 : Q)
  (s' : Machine) (oc : handle) (ct d : Q) :
  output (forM_ handleMessage msgs) s =
    pre ++ Started c1 a1 w1 d1 :: mid ++ Started c2 a2 w2 d2 :: post ->
  ~ In Interrupted mid ->
  Forall nonneg_duration mid ->
  w1 + d1 <= w2 /\
  handle_audio oc (Some {| currentTime := ct; decoded := Some d |}) s' =
    (Normal tt,
     with_cursor (Qmax (nextStartTime (this s')) ct + d) s',
     [Started oc ct (Qmax (nextStartTime (this s')) ct) d]).
Proof.
  intros Ho Hi Hd. split; [|reflexivity].
  pose proof (messages_scheduled_in_order msgs s) as H. rewrite Ho in H.
  apply in_order_app in H. destruct H as [_ H]. simpl in H.
  destruct H as [_ H]. apply in_order_app in H. destruct H as [Hmid H].
  simpl in H. destruct H as [H _].
  pose proof (floor_rises mid _ Hi Hd Hmid). lra.
Qed.

Lemma gapless_schedule_witness :
  output (forM_ handleMessage [solo 1 (1#2); solo 1 (1#4)]) connected =
    [TextEv "la"] ++ Started 1%nat 1 1 (1#2) ::
      [TextEv "la"] ++ Started 1%nat 1 (3#2) (1#4) :: [] /\
  ~ In Interrupted [TextEv "la"] /\
  Forall nonneg_duration [TextEv "la"] /\
  1 + (1#2) <= 3#2 /\
  handle_audio 1%nat (Some {| currentTime := 1; decoded := Some (1#4) |}) connected =
    (Normal tt,
     with_cursor (Qmax (nextStartTime (this connected)) 1 + (1#4)) connected,
     [Started 1%nat 1 (Qmax (nextStartTime (this connected)) 1) (1#4)]).
Proof.
  assert (output (forM_ handleMessage [solo 1 (1#2); solo 1 (1#4)]) connected =
          [TextEv "la"] ++ Started 1%nat 1 1 (1#2) ::
            [TextEv "la"] ++ Started 1%nat 1 (3#2) (1#4) :: []) as H1
    by (vm_compute; reflexivity).
  assert (~ In Interrupted [TextEv "la"]) as H2
    by (simpl; intros [H|[]]; discriminate H).
  assert (Forall nonneg_duration [TextEv "la"]) as H3
    by (repeat constructor).
  split; [exact H1|]. split; [exact H2|]. split; [exact H3|].
  exact (gapless_schedule connected [solo 1 (1#2); solo 1 (1#4)]
           [TextEv "la"] [TextEv "la"] [] 1%nat 1%nat 1 1 (1#2) 1 (3#2) (1#4)
           connected 1%nat 1 (1#4) H1 H2 H3).
Defined.

(** ** C8: after an interruption *)

Lemma prompt_app armed a b :
  prompt armed (a ++ b) <-> prompt armed a /\ prompt (armed_after armed a) b.
Proof.
  revert armed. induction a as [|e a IH]; intros armed; simpl.
  - tauto.
  - destruct e; try apply IH. rewrite IH. tauto.
Qed.

Lemma armed_after_app armed a b :
  armed_after armed (a ++ b) = armed_after (armed_after armed a) b.
Proof.
  revert armed. induction a as [|e a IH]; intros armed; simpl; [reflexivity|].
  destruct e; apply IH.
Qed.

Lemma last_cons (r : Q) a d : List.last (r :: a) d = List.last a r.
Proof.
  revert r d. induction a as [|x a IH]; intros r d; [reflexivity|].
  change (List.last (r :: x :: a) d) with (List.last (x :: a) d).
  now rewrite (IH x d), (IH x r).
Qed.

Lemma last_app_from (a b : list Q) d :
  List.last (a ++ b) d = List.last b (List.last a d).
Proof.
  revert d. induction a as [|r a IH]; intros d; [reflexivity|].
  change ((r :: a) ++ b) with (r :: (a ++ b)). now rewrite !last_cons, IH.
Qed.

Lemma ascending_app from a b :
  ascending from (a ++ b) <-> ascending from a /\ ascending (List.last a from) b.
Proof.
  revert from. induction a as [|r a IH]; intros from.
  - simpl. tauto.
  - rewrite last_cons. simpl. rewrite IH. tauto.
Qed.

Lemma ascending_last from a : ascending from a -> from <= List.last a from.
Proof.
  revert from. induction a as [|r a IH]; intros from.
  - simpl. lra.
  - rewrite last_cons. simpl. intros [H1 H2]. specialize (IH _ H2). lra.
Qed.

Lemma prompt_text armed t :
  prompt armed (text_events t) /\ armed_after armed (text_events t) = armed.
Proof.
  destruct t as [t|]; simpl; [|tauto]. destruct (String.eqb t ""); simpl; tauto.
Qed.

(** The invariant: while armed, the cursor is not ahead of the clock. *)
Lemma part_prompt oc cursor lb armed p :
  ascending lb (part_readings p) ->
  (armed = true -> cursor <= lb) ->
  prompt armed (snd (part_events oc cursor p)) /\
  (armed_after armed (snd (part_events oc cursor p)) = true ->
   fst (part_events oc cursor p) <= List.last (part_readings p) lb).
Proof.
  intros Ha Hc. unfold part_events, audio_events, part_readings in *.
  destruct (prompt_text armed (text p)) as [Ht Hat].
  destruct (inlineData p) as [a|]; simpl in *.
  - destruct Ha as [Ha _].
    destruct (decoded a) as [d|]; simpl.
    + rewrite prompt_app, armed_after_app, Hat. simpl.
      split; [|discriminate]. split; [exact Ht|]. split; [|exact Logic.I].
      intros E. specialize (Hc E). apply Q.max_lub; lra.
    + rewrite List.app_nil_r, Hat. split; [exact Ht|].
      intros E. specialize (Hc E). apply Q.max_lub; lra.
  - rewrite List.app_nil_r, Hat. auto.
Qed.

Lemma parts_prompt oc ps : forall cursor lb armed,
  ascending lb (flat_map part_readings ps) ->
  (armed = true -> cursor <= lb) ->
  prompt armed (snd (parts_events oc cursor ps)) /\
  (armed_after armed (snd (parts_events oc cursor ps)) = true ->
   fst (parts_events oc cursor ps) <= List.last (flat_map part_readings ps) lb).
Proof.
  induction ps as [|p ps IH]; intros cursor lb armed Ha Hc; simpl in *.
  - auto.
  - apply ascending_app in Ha. destruct Ha as [Ha1 Ha2].
    destruct (part_prompt oc cursor lb armed p Ha1 Hc) as [H1 H2].
    destruct (part_events oc cursor p) as [c1 o1]; simpl in *.
    destruct (IH c1 _ _ Ha2 H2) as [H3 H4].
    destruct (parts_events oc c1 ps) as [c2 o2]; simpl in *.
    rewrite prompt_app, armed_after_app, last_app_from. auto.
Qed.

Lemma message_prompt oc msg cursor lb armed :
  ascending lb (flat_map part_readings (parts msg)) ->
  0 <= lb ->
  (armed = true -> cursor <= lb) ->
  prompt armed (snd (message_events oc cursor msg)) /\
  (armed_after armed (snd (message_events oc cursor msg)) = true ->
   fst (message_events oc cursor msg)
     <= List.last (flat_map part_readings (parts msg)) lb).
Proof.
  intros Ha H0 Hc. unfold message_events.
  destruct (parts_prompt oc (parts msg) cursor lb armed Ha Hc) as [H1 H2].
  pose proof (ascending_last _ _ Ha) as Hl.
  destruct (parts_events oc cursor (parts msg)) as [c o]; simpl in *.
  destruct (interrupted msg); simpl; [|auto].
  rewrite prompt_app, armed_after_app. simpl.
  split; [auto|]. intros _. lra.
Qed.

Lemma messages_prompt oc msgs : forall cursor lb armed,
  ascending lb (clock_readings msgs) ->
  0 <= lb ->
  (armed = true -> cursor <= lb) ->
  prompt armed (snd (messages_events oc cursor msgs)).
Proof.
  induction msgs as [|msg msgs IH]; intros cursor lb armed Ha H0 Hc; simpl in *.
  - exact Logic.I.
  - unfold clock_readings in Ha. simpl in Ha.
    apply ascending_app in Ha. destruct Ha as [Ha1 Ha2].
    destruct (message_prompt oc msg cursor lb armed Ha1 H0 Hc) as [H1 H2].
    pose proof (ascending_last _ _ Ha1) as Hl.
    destruct (message_events oc cursor msg) as [c1 o1]; simpl in *.
    assert (0 <= List.last (flat_map part_readings (parts msg)) lb) as H0' by lra.
    specialize (IH c1 _ (armed_after armed o1) Ha2 H0' H2).
    destruct (messages_events oc c1 msgs) as [c2 o2]; simpl in *.
    rewrite prompt_app. auto.
Qed.

Lemma still_armed mid :
  Forall (fun e => is_started e = false) mid -> armed_after true mid = true.
Proof.
  induction 1 as [|e mid He _ IH]; simpl; [reflexivity|].
  destruct e; try exact IH. discriminate He.
Qed.

Lemma messages_prompt_from_any_state msgs s :
  ascending 0 (clock_readings msgs) ->
  prompt false (output (forM_ handleMessage msgs) s).
Proof.
  intros Ha. unfold output. destruct (outputContext (this s)) as [oc|] eqn:Hoc.
  - rewrite (handleMessages_events oc) by exact Hoc. simpl.
    apply (messages_prompt oc msgs _ 0 false Ha); [lra | discriminate].
  - rewrite messages_without_context by exact Hoc. exact Logic.I.
Qed.

(** C8. When the clock of the output context starts at 0 or later and never
    runs backwards, the first chunk started after an interruption signal
    starts no later than the clock reading taken when it was dispatched;
    the interruption branch of handleMessage sets the cursor to 0. *)
Theorem start_after_interruption
  (s : Machine) (msgs : list LiveServerMessage)
  (pre mid post : list event) (c : handle) (at_time w d : Q)
  (s' : Machine) (msg : LiveServerMessage) :
  ascending 0 (clock_readings msgs) ->
  output (forM_ handleMessage msgs) s =
    pre ++ Interrupted :: mid ++ Started c at_time w d :: post ->
  Forall (fun e => is_started e = false) mid ->
  outputContext (this s') <> None ->
  interrupted msg = true ->
  w <= at_time /\
  nextStartTime (this (run (handleMessage msg) s')) = 0.
Proof.
  intros Ha Ho Hmid Hoc Hi. split.
  - pose proof (messages_prompt_from_any_state msgs s Ha) as H.
    rewrite Ho in H. apply prompt_app in H. destruct H as [_ H].
    simpl in H. apply prompt_app in H. destruct H as [_ H].
    rewrite (still_armed mid Hmid) in H. simpl in H. now apply H.
  - destruct (outputContext (this s')) as [oc|] eqn:E; [|congruence].
    unfold run. rewrite (handleMessage_events oc) by exact E. simpl.
    unfold message_events.
    destruct (parts_events oc (nextStartTime (this s')) (parts msg)).
    now rewrite Hi.
Qed.

Lemma start_after_interruption_witness :
  let msgs := [solo 1 2; barge_in; solo (3#2) (1#4)] in
  ascending 0 (clock_readings msgs) /\
  output (forM_ handleMessage msgs) connected =
    [TextEv "la"; Started 1%nat 1 1 2] ++ Interrupted ::
      [TextEv "la"] ++ Started 1%nat (3#2) (3#2) (1#4) :: [] /\
  Forall (fun e => is_started e = false) [TextEv "la"] /\
  outputContext (this connected) <> None /\
  interrupted barge_in = true /\
  3#2 <= 3#2 /\
  nextStartTime (this (run (handleMessage barge_in) connected)) = 0.
Proof.
  intros msgs.
  assert (ascending 0 (clock_readings msgs)) as H1
    by (simpl; repeat split; lra).
  assert (output (forM_ handleMessage msgs) connected =
          [TextEv "la"; Started 1%nat 1 1 2] ++ Interrupted ::
            [TextEv "la"] ++ Started 1%nat (3#2) (3#2) (1#4) :: []) as H2
    by (vm_compute; reflexivity).
  assert (Forall (fun e => is_started e = false) [TextEv "la"]) as H3
    by (repeat constructor).
  assert (outputContext (this connected) <> None) as H4
    by (vm_compute; discriminate).
  assert (interrupted barge_in = true) as H5 by reflexivity.
  split; [exact H1|]. split; [exact H2|]. split; [exact H3|].
  split; [exact H4|]. split; [exact H5|].
  exact (start_after_interruption connected msgs
           [TextEv "la"; Started 1%nat 1 1 2] [TextEv "la"] [] 1%nat
           (3#2) (3#2) (1#4) connected barge_in H1 H2 H3 H4 H5).
Defined.

(** ** C6: peak normalisation *)

Lemma gt_spec a b : gt a b = true <-> b < a.
Proof.
  unfold gt. rewrite negb_true_iff, <- not_true_iff_false, Qle_bool_iff. lra.
Qed.

Lemma gt_false a b : gt a b = false <-> a <= b.
Proof.
  unfold gt. rewrite negb_false_iff, Qle_bool_iff. tauto.
Qed.

(** The loop keeps the largest value met so far. *)
Lemma max_loop data : forall m0,
  let m := fold_left (fun maxVal x => if gt (Qabs x) maxVal then Qabs x else maxVal)
                     data m0 in
  m0 <= m /\ Forall (fun x => Qabs x <= m) data /\
  (m = m0 \/ Exists (fun x => Qabs x = m) data).
Proof.
  induction data as [|x data IH]; intros m0; simpl.
  - repeat split; [lra | constructor | now left].
  - destruct (gt (Qabs x) m0) eqn:E.
    + apply gt_spec in E. destruct (IH (Qabs x)) as (H1 & H2 & H3).
      repeat split; [lra | constructor; assumption|].
      right. destruct H3 as [->|H3]; [now left | now right].
    + apply gt_false in E. destruct (IH m0) as (H1 & H2 & H3).
      repeat split; [assumption | constructor; [lra | assumption]|].
      destruct H3 as [H3|H3]; [now left | right; now right].
Qed.

Lemma max_abs_peak data : peak_of data (max_abs data).
Proof.
  destruct (max_loop data 0) as (H1 & H2 & H3). fold (max_abs data) in *.
  split; [exact H2|].
  destruct H3 as [H3|H3].
  - destruct data as [|x data]; [right; split; [reflexivity | now rewrite H3]|].
    left. inversion H2 as [|? ? Hx _]; subst. left.
    pose proof (Qabs_nonneg x). rewrite H3 in *. lra.
  - left. revert H3. apply Exists_impl. intros x ->. reflexivity.
Qed.

Lemma peak_unique data m m' : peak_of data m -> peak_of data m' -> m == m'.
Proof.
  intros [Hu [He|[-> H0]]] [Hu' [He'|[E H0']]].
  - apply Exists_exists in He. destruct He as (x & Hx & Ex).
    apply Exists_exists in He'. destruct He' as (y & Hy & Ey).
    rewrite Forall_forall in Hu, Hu'.
    pose proof (Hu _ Hy). pose proof (Hu' _ Hx). lra.
  - subst. inversion He.
  - inversion He'.
  - lra.
Qed.

(** C6. When the largest absolute sample [m] of the resampled buffer is
    positive, normalisation multiplies every sample by 0.95 / m; when it is
    0 the buffer is left as it is (the division is never reached). *)
Theorem peak_normalisation (resampledData : samples) (m : Q) :
  peak_of resampledData m ->
  (0 < m ->
   Forall2 (fun y x => y == x * ((95 # 100) / m))
           (normalize resampledData) resampledData) /\
  (m == 0 -> normalize resampledData = resampledData).
Proof.
  intros Hp.
  pose proof (peak_unique _ _ _ Hp (max_abs_peak resampledData)) as Hm.
  unfold normalize. split; intros H.
  - assert (gt (max_abs resampledData) 0 = true) as ->
      by (apply gt_spec; lra).
    assert (forall l, Forall2 (fun y x => y == x * ((95 # 100) / m))
                        (map (fun x => x * (headroom / max_abs resampledData)) l) l)
      as Hall.
    { induction l as [|x l IH]; simpl; constructor; [|exact IH].
      unfold headroom. now rewrite Hm. }
    apply Hall.
  - assert (gt (max_abs resampledData) 0 = false) as ->
      by (apply gt_false; lra).
    reflexivity.
Qed.

Lemma peak_normalisation_witness :
  peak_of a_clip (1 # 2) /\
  (0 < 1 # 2 ->
   Forall2 (fun y x => y == x * ((95 # 100) / (1 # 2)))
           (normalize a_clip) a_clip) /\
  ((1 # 2) == 0 -> normalize a_clip = a_clip).
Proof.
  assert (peak_of a_clip (1 # 2)) as H.
  { split.
    - repeat constructor; unfold Qle; simpl; lia.
    - left. left. reflexivity. }
  split; [exact H|]. exact (peak_normalisation a_clip (1 # 2) H).
Defined.

(** A silent buffer, and the loudest sample of a normalised clip. *)
Example normalize_silence : normalize [0; 0; 0] = [0; 0; 0].
Proof. reflexivity. Qed.

Example normalize_reaches_headroom : max_abs (normalize a_clip) == 95 # 100.
Proof. vm_compute. reflexivity. Qed.

Close Scope Q_scope.

(** ** C9: status notifications *)

Lemma prepare_upload_sends file : keeps anywhere sends (prepare_upload file).
Proof.
  unfold prepare_upload.
  step @keeps_bind. { step @keeps_gets. } intros m.
  destruct (sessionPromise m); [|step @keeps_throw].
  step @keeps_bind. { step @assign_anywhere. } intros _.
  step @keeps_bind. { step keeps_resume_if_suspended. } intros _.
  step @keeps_bind. { step @keeps_gets. } intros m1.
  step @keeps_bind. { step keeps_resume_if_suspended. } intros _.
  step @keeps_bind. { step @keeps_gets. } intros m2.
  step @keeps_bind.
  { destruct (inputContext m2); [step @keeps_ret | step keeps_new_AudioContext]. }
  intros _.
  step @keeps_try_catch.
  - step @keeps_bind. { step keeps_decode_and_resample. }
    intros d. step @keeps_ret.
  - intros e. step @keeps_bind. { step @assign_anywhere. }
    intros _. step @keeps_throw.
Qed.

(** The notifications of one upload job. *)
Lemma sendAudioFile_statuses file s :
  statuses (output (sendAudioFile file) s) = [] \/
  statuses (output (sendAudioFile file) s) = [DISCONNECTED; CONNECTING] \/
  statuses (output (sendAudioFile file) s) =
    [DISCONNECTED; CONNECTING; DISCONNECTED; ERROR].
Proof.
  destruct (prepare_upload_sends file s Logic.I) as [_ Hp].
  unfold output in *. unfold sendAudioFile, bind.
  destruct (prepare_upload file s) as [[[data|e] s0] o0]; simpl in Hp.
  2: { left. simpl. now apply statuses_sends. }
  apply statuses_sends in Hp.
  destruct (streamAudioData_sends data s0) as (r1 & s1 & o1 & Hs & Ho1).
  apply statuses_sends in Ho1.
  assert (forall r, (r = Normal tt \/ exists e, r = Throw e /\
                       isTransient (message e) = false) ->
                    streamAudioData data s0 = (r, s1, Enter (CStream data) :: o1) ->
                    statuses (snd (let '(r, s2, o2) :=
                                     stream_with_retry (reconnect file) data s0 in
                                   (r, s2, o0 ++ o2))) = []) as Hplain.
  { intros r Hr Hs'. unfold stream_with_retry, try_finally, try_catch.
    rewrite Hs'. destruct Hr as [->|(e & -> & ->)]; simpl;
      repeat (rewrite statuses_app || rewrite List.app_nil_r || simpl);
      now rewrite Hp, Ho1. }
  destruct r1 as [[]|e].
  - left. apply (Hplain _ (or_introl eq_refl) Hs).
  - destruct (isTransient (message e)) eqn:Ht.
    + destruct (stream_with_retry_transient (reconnect file) data s0 e s1 _ Hs Ht)
        as (s2 & Hd & [(s3 & o3 & r & s4 & o4 & _ & _ & Hrun & _ & _ & H3 & H4)
                      |(e' & s3 & o3 & _ & Hrun & _ & H3)]);
        rewrite Hrun;
        repeat (rewrite statuses_app || rewrite List.app_nil_r || simpl);
        rewrite Hp, Ho1; simpl.
      * right. left. rewrite H3, H4. reflexivity.
      * right. right. now rewrite H3.
    + left. apply (Hplain _ (or_intror (ex_intro _ e (conj eq_refl Ht))) Hs).
Qed.

Lemma caught_normal m s : result (caught m) s = Normal tt.
Proof.
  unfold result, caught, try_catch.
  destruct (m s) as [[[[]|e] s1] o1]; reflexivity.
Qed.

Lemma caught_output m s : output (caught m) s = output m s.
Proof.
  unfold output, caught, try_catch.
  destruct (m s) as [[[[]|e] s1] o1]; simpl; [reflexivity|].
  apply List.app_nil_r.
Qed.

Lemma handleMessage_quiet msg s :
  result (handleMessage msg) s = Normal tt /\
  statuses (output (handleMessage msg) s) = [].
Proof.
  unfold result, output. destruct (outputContext (this s)) as [oc|] eqn:Hoc.
  - rewrite (handleMessage_events oc) by exact Hoc. simpl. split; [reflexivity|].
    unfold message_events.
    assert (forall ps c, statuses (snd (parts_events oc c ps)) = []) as Hps.
    { induction ps as [|p ps IH]; intros c; simpl; [reflexivity|].
      specialize (IH (fst (part_events oc c p))).
      unfold part_events, audio_events, text_events in *.
      destruct (inlineData p) as [a|]; [destruct (decoded a)|];
        destruct (text p) as [t|]; try destruct (String.eqb t ""); simpl in *;
        destruct (parts_events oc _ ps); simpl in *; exact IH. }
    specialize (Hps (parts msg) (nextStartTime (this s))).
    destruct (parts_events oc (nextStartTime (this s)) (parts msg)) as [c o].
    simpl in Hps. destruct (interrupted msg); simpl; [|exact Hps].
    rewrite statuses_app, Hps. reflexivity.
  - now rewrite handleMessage_no_context.
Qed.

(** What each request notifies. *)
Lemma serve_statuses r s :
  result (serve r) s = Normal tt /\
  match r with
  | Connect _ =>
      statuses (output (serve r) s) = [CONNECTING] \/
      statuses (output (serve r) s) = [CONNECTING; DISCONNECTED; ERROR]
  | Disconnect | Closed => statuses (output (serve r) s) = [DISCONNECTED]
  | Opened => statuses (output (serve r) s) = [CONNECTED]
  | Failed _ => statuses (output (serve r) s) = [ERROR]
  | Received _ => statuses (output (serve r) s) = []
  | SendFile _ =>
      statuses (output (serve r) s) = [] \/
      statuses (output (serve r) s) = [DISCONNECTED; CONNECTING] \/
      statuses (output (serve r) s) =
        [DISCONNECTED; CONNECTING; DISCONNECTED; ERROR]
  end.
Proof.
  destruct r as [env| | | |err|msg|file]; simpl.
  - split; [apply caught_normal|]. rewrite caught_output. unfold output.
    destruct (connect_spec env s)
      as [(s' & o & -> & Ho) | (e & s1 & hp & o & -> & Ho)]; simpl.
    + left. now rewrite (statuses_sends _ Ho).
    + right. rewrite statuses_app, (statuses_sends _ Ho). reflexivity.
  - unfold result, output. destruct (disconnect_spec s) as [hp ->]. now split.
  - now split.
  - now split.
  - now split.
  - apply handleMessage_quiet.
  - split; [apply caught_normal|]. rewrite caught_output.
    apply sendAudioFile_statuses.
Qed.

Lemma follows_app R current a b :
  follows R (current :: a ++ b) =
  follows R (current :: a) && follows R (List.last a current :: b).
Proof.
  revert current. induction a as [|x a IH]; intros current.
  - simpl. reflexivity.
  - change (follows R (current :: (x :: a) ++ b))
      with (R current x && follows R (x :: a ++ b)).
    change (follows R (current :: x :: a))
      with (R current x && follows R (x :: a)).
    rewrite IH. 
    assert (List.last (x :: a) current = List.last a x) as ->.
    { clear. revert x current. induction a as [|y a IH]; intros x current;
        [reflexivity|].
      change (List.last (x :: y :: a) current) with (List.last (y :: a) current).
      now rewrite (IH y current), (IH y x). }
    now rewrite andb_assoc.
Qed.

Lemma output_bind_normal {A B} (m : M A) (k : A -> M B) s a :
  result m s = Normal a ->
  output (bind m k) s = output m s ++ output (k a) (run m s).
Proof.
  unfold result, output, run, bind.
  destruct (m s) as [[r s1] o1]; simpl. intros ->.
  destruct (k a s1) as [[r2 s2] o2]; reflexivity.
Qed.

(** Driven by requests that arrive in the states the specification
    expects, the status notifications follow the relation with the two
    more edges. *)
Lemma in_order_requests_follow_the_relation
  (current : ConnectionState) (rs : list request) (s : Machine) :
  well_driven current rs s ->
  follows relaxed (current :: statuses (output (forM_ serve rs) s)) = true.
Proof.
  revert current s. induction rs as [|r rs IH]; intros current s Hd.
  - reflexivity.
  - destruct Hd as [He Hd]. specialize (IH _ _ Hd).
    destruct (serve_statuses r s) as [Hn Hst].
    change (forM_ serve (r :: rs)) with (bind (serve r) (fun _ => forM_ serve rs)).
    rewrite (output_bind_normal _ _ _ _ Hn), statuses_app, follows_app.
    unfold last_status in IH. rewrite IH, andb_true_r.
    destruct r; cbv beta iota in Hst;
      repeat match goal with H : _ \/ _ |- _ => destruct H end;
      match goal with H : statuses _ = _ |- _ => rewrite H end;
      destruct current; simpl in He; try discriminate He; reflexivity.
Qed.

Example requests_in_order :
  well_driven DISCONNECTED [Connect no_audio; Connect fine; Opened; Disconnect]
    (boot []) /\
  follows relaxed
    (DISCONNECTED ::
       statuses (output (forM_ serve [Connect no_audio; Connect fine; Opened; Disconnect])
                   (boot []))) = true.
Proof.
  assert (well_driven DISCONNECTED
            [Connect no_audio; Connect fine; Opened; Disconnect] (boot [])) as H
    by (vm_compute; repeat split).
  split; [exact H|].
  exact (in_order_requests_follow_the_relation DISCONNECTED
           [Connect no_audio; Connect fine; Opened; Disconnect] (boot []) H).
Qed.




(** ** C5: what a streaming pass sends *)

Lemma paced_earlier e e' ts : (e' <= e)%N -> paced e ts -> paced e' ts.
Proof. destruct ts as [|t ts]; simpl; [tauto|]. intros H [H1 H2]. split; [lia|exact H2]. Qed.

Lemma send_healthy h p s :
  healthy h s -> sendRealtimeInput h p s = (Normal tt, s, [Sent (now s) h p]).
Proof.
  intros [_ (c & Hc & _ & Hb & _)]. unfold sendRealtimeInput. now rewrite Hc, Hb.
Qed.

Lemma bind_silent {A B} (m : M A) (k : A -> M B) s a s1 :
  m s = (Normal a, s1, []) -> bind m k s = k a s1.
Proof.
  intros H. unfold bind. rewrite H.
  destruct (k a s1) as [[r s2] o2]; reflexivity.
Qed.

Lemma sampleRate_of_silent ic s :
  exists rate, sampleRate_of ic s = (Normal rate, s, []).
Proof.
  unfold sampleRate_of, bind, deref, gets. simpl.
  destruct (heap s !! ic) as [[cx| | | | | ]|]; eexists; reflexivity.
Qed.

Lemma then_healthy h cb s : healthy h s -> then_ h cb s = cb h s.
Proof.
  intros [_ (c & Hc & Hk & _)]. unfold then_.
  rewrite (bind_silent _ _ s (Some (NSession c)) s).
  - now rewrite Hk.
  - unfold deref, gets. now rewrite Hc.
Qed.

Lemma onaudioprocess_healthy h d s :
  healthy h s ->
  exists o, onaudioprocess d s = (Normal tt, s, o) /\ filter is_upload_send o = [].
Proof.
  intros Hh. unfold onaudioprocess.
  rewrite (bind_silent _ _ s (this s) s) by reflexivity.
  destruct Hh as [Hp Hc]. rewrite Hp.
  destruct (inputContext (this s)) as [ic|]; [|exists []; split; reflexivity].
  destruct (isProcessingFile (this s)); [exists []; split; reflexivity|].
  destruct (sampleRate_of_silent ic s) as [rate Hr].
  rewrite (bind_silent _ _ s rate s Hr).
  rewrite (then_healthy h) by (split; assumption).
  unfold try_catch. rewrite (send_healthy h) by (split; assumption).
  eexists. split; reflexivity.
Qed.

Lemma fire_healthy h f s :
  healthy h s ->
  exists o, fire f s = (Normal tt, s, o) /\ filter is_upload_send o = [].
Proof.
  intros Hh. unfold fire.
  rewrite (bind_silent _ _ s (heap s !! f.1) s) by reflexivity.
  destruct (heap s !! f.1) as [[ | | |ctx cn [|]| | ]|];
    try (exists []; split; reflexivity).
  now apply (onaudioprocess_healthy h).
Qed.

Lemma frames_healthy h fs s :
  healthy h s ->
  exists o, forM_ fire fs s = (Normal tt, s, o) /\ filter is_upload_send o = [].
Proof.
  intros Hh. induction fs as [|f fs (o2 & IH & Ho2)]; simpl.
  - exists []. split; reflexivity.
  - destruct (fire_healthy h f s Hh) as (o1 & H1 & Ho1).
    unfold bind. rewrite H1, IH. exists (o1 ++ o2). split; [reflexivity|].
    now rewrite filter_app, Ho1, Ho2.
Qed.

Lemma healthy_ambient h s s' :
  this s' = this s -> heap s' = heap s -> fresh s' = fresh s ->
  healthy h s -> healthy h s'.
Proof. unfold healthy. now intros -> -> ->. Qed.

Lemma visualise_healthy h data s :
  healthy h s ->
  exists s', visualise data s = (Normal tt, s', []) /\ healthy h s' /\
             now s' = now s.
Proof.
  intros Hh. unfold visualise.
  rewrite (bind_silent _ _ s (this s) s) by reflexivity.
  destruct (inputContext (this s)) as [ic|];
    [|exists s; split; [reflexivity | now split]].
  destruct (inputAnalyser (this s)) as [ia|];
    [|exists s; split; [reflexivity | now split]].
  destruct data as [|x data].
  - exists s. split; [reflexivity | now split].
  - eexists. split; [reflexivity|]. split; [|reflexivity].
    destruct Hh as [Hp (c & Hc & Hk & Hb & Hf)]. split; [exact Hp|].
    exists c. simpl. rewrite lookup_insert_ne by lia.
    repeat split; auto.
Qed.

Lemma await_healthy h s :
  healthy h s ->
  exists s' o,
    await_ s = (Normal tt, s', o) /\ healthy h s' /\ (now s <= now s')%N /\
    filter is_upload_send o = [].
Proof.
  intros Hh. unfold await_. destruct (ticks s) as [|t rest].
  - exists s, []. split; [reflexivity|]. split; [exact Hh|].
    split; [lia | reflexivity].
  - set (s1 := set_now (now s + lag t)%N (set_ticks rest s)).
    assert (healthy h s1) as Hh1 by (now apply (healthy_ambient h s)).
    destruct (frames_healthy h (frames t) s1 Hh1) as (o & -> & Ho).
    exists s1, o. split; [reflexivity|]. split; [exact Hh1|].
    split; [simpl; lia | exact Ho].
Qed.

Lemma setTimeout_healthy h ms s :
  healthy h s ->
  exists s' o,
    setTimeout ms s = (Normal tt, s', o) /\ healthy h s' /\
    (now s + ms <= now s')%N /\ filter is_upload_send o = [].
Proof.
  intros Hh. unfold setTimeout, bind, modify.
  set (s1 := set_now (now s + ms)%N s).
  assert (healthy h s1) as Hh1 by (now apply (healthy_ambient h s)).
  destruct (await_healthy h s1 Hh1) as (s' & o & -> & Hh' & Hn & Ho).
  exists s', o. split; [reflexivity|]. split; [exact Hh'|].
  split; [exact Hn | exact Ho].
Qed.

Lemma send_chunks_healthy h data : forall fuel i s,
  healthy h s ->
  exists s' o ts,
    send_chunks fuel h data i s = (Normal tt, s', o) /\ healthy h s' /\
    filter is_upload_send o =
      map (chunk_message h data) (combine ts (offsets fuel i (length data))) /\
    length ts = length (offsets fuel i (length data)) /\
    paced (now s) (ts ++ [now s']).
Proof.
  induction fuel as [|fuel IH]; intros i s Hh; simpl.
  - exists s, [], []. split; [reflexivity|]. split; [exact Hh|].
    repeat split. simpl. lia.
  - destruct (i <? length data)%nat.
    + unfold bind, try_catch. rewrite (send_healthy h _ s Hh).
      destruct (setTimeout_healthy h 50 s Hh) as (s1 & o1 & -> & Hh1 & Hn1 & Ho1).
      destruct (IH (i + CHUNK_SIZE)%nat s1 Hh1) as (s' & o2 & ts & -> & Hh' & Ho2 & Hl & Hp).
      exists s', ([Sent (now s) h (FileBlob (slice data i (i + CHUNK_SIZE)))]
                    ++ o1 ++ o2), (now s :: ts).
      split; [reflexivity|]. split; [exact Hh'|]. split; [|split].
      * rewrite !filter_app, Ho1, Ho2. reflexivity.
      * simpl. now rewrite Hl.
      * simpl. split; [lia|].
        apply paced_earlier with (now s1); [exact Hn1 | exact Hp].
    + exists s, [], []. split; [reflexivity|]. split; [exact Hh|].
      repeat split. simpl. lia.
Qed.

Lemma CHUNK_SIZE_pos : (0 < CHUNK_SIZE)%nat.
Proof. unfold CHUNK_SIZE. lia. Qed.

Lemma ceiling_div z : Qceiling (inject_Z z / 8192) = ((z + 8191) / 8192)%Z.
Proof.
  unfold Qceiling, Qfloor. simpl. Z.div_mod_to_equations. lia.
Qed.

Lemma chunk_count_div n :
  chunk_count n = ((n + (CHUNK_SIZE - 1)) / CHUNK_SIZE)%nat.
Proof.
  unfold chunk_count. rewrite ceiling_div.
  assert (Z.of_nat CHUNK_SIZE = 8192%Z) as Hc by (unfold CHUNK_SIZE; lia).
  pose proof CHUNK_SIZE_pos as Hpos.
  apply Nat2Z.inj. rewrite Nat2Z.inj_div, Nat2Z.inj_add, Nat2Z.inj_sub by lia.
  rewrite Hc. rewrite Z2Nat.id.
  - reflexivity.
  - apply Z.div_pos; lia.
Qed.

Lemma ceil_step m :
  (0 < m)%nat ->
  ((m + (CHUNK_SIZE - 1)) / CHUNK_SIZE
   = S ((m - CHUNK_SIZE + (CHUNK_SIZE - 1)) / CHUNK_SIZE))%nat.
Proof.
  pose proof CHUNK_SIZE_pos as Hc. intros Hm.
  destruct (le_lt_dec CHUNK_SIZE m) as [H|H].
  - replace (m + (CHUNK_SIZE - 1))%nat
      with ((m - CHUNK_SIZE + (CHUNK_SIZE - 1)) + 1 * CHUNK_SIZE)%nat by lia.
    rewrite Nat.div_add by lia. lia.
  - replace (m - CHUNK_SIZE)%nat with 0%nat by lia. rewrite Nat.add_0_l.
    rewrite (Nat.div_small (CHUNK_SIZE - 1)) by lia.
    symmetry. apply (Nat.div_unique _ _ 1%nat (m - 1)%nat); lia.
Qed.

Lemma offsets_spec n : forall fuel i,
  (n - i <= fuel)%nat ->
  offsets fuel i n =
  map (fun k => i + k * CHUNK_SIZE)%nat
      (seq 0 ((n - i + (CHUNK_SIZE - 1)) / CHUNK_SIZE)).
Proof.
  pose proof CHUNK_SIZE_pos as Hc.
  induction fuel as [|fuel IH]; intros i Hf; cbn [offsets].
  - replace (n - i)%nat with 0%nat by lia. rewrite Nat.add_0_l.
    rewrite Nat.div_small by lia. reflexivity.
  - destruct (Nat.ltb_spec i n) as [H|H].
    + rewrite ceil_step by lia. cbn [seq map]. f_equal; [lia|].
      rewrite IH by lia. rewrite <- seq_shift, map_map.
      replace (n - (i + CHUNK_SIZE))%nat with (n - i - CHUNK_SIZE)%nat by lia.
      apply map_ext. intros k. lia.
    + replace (n - i)%nat with 0%nat by lia. rewrite Nat.add_0_l.
      rewrite Nat.div_small by lia. reflexivity.
Qed.

(** C5. On a session that is active and accepts every send, one streaming
    pass over a buffer of [n] samples puts on the channel exactly
    ceil(n / 8192) media chunks, the k-th one being the slice of the buffer
    at offset 8192 k, each at least 50 ms after the one before, and then
    exactly one text message with the completion prompt. *)
Theorem streaming_sends_chunks_then_prompt
  (data : samples) (h : handle) (s : Machine) :
  healthy h s ->
  exists ts t_end,
    result (streamAudioData data) s = Normal tt /\
    filter is_upload_send (output (streamAudioData data) s) =
      map (chunk_message h data)
          (combine ts (map (fun k => k * CHUNK_SIZE)%nat
                           (seq 0 (chunk_count (length data)))))
      ++ [Sent t_end h
            (Prompt "I have finished playing. Generate a musical continuation now.")] /\
    length ts = chunk_count (length data) /\
    paced (now s) (ts ++ [t_end]).
Proof.
  intros Hh.
  destruct (await_healthy h s Hh) as (s1 & o1 & Ha & Hh1 & Hn1 & Ho1).
  assert (await_promise h s = (Normal h, s1, o1)) as Hap.
  { unfold await_promise. unfold bind at 1. rewrite Ha.
    destruct Hh1 as [_ (c & Hc1 & Hk & _)].
    rewrite (bind_silent _ _ s1 (Some (NSession c)) s1)
      by (unfold deref, gets; now rewrite Hc1).
    rewrite Hk. unfold ret. now rewrite List.app_nil_r. }
  destruct (visualise_healthy h data s1 Hh1) as (sv & Hv & Hhv & Hnv).
  destruct (send_chunks_healthy h data (length data) 0 sv Hhv)
    as (s2 & o2 & ts & Hsc & Hh2 & Ho2 & Hl & Hpaced).
  rewrite Hnv in Hpaced.
  assert (streamAudioData data s =
          (Normal tt, s2,
           Enter (CStream data) ::
             o1 ++ o2 ++ [Sent (now s2) h (Prompt completion_prompt)])) as Hrun.
  { unfold streamAudioData. unfold bind at 1. unfold emit at 1.
    rewrite (bind_silent _ _ s (this s) s) by reflexivity.
    destruct Hh as [-> _].
    unfold bind at 1. rewrite Hap.
    unfold bind at 1. rewrite Hv.
    unfold bind at 1. rewrite Hsc. now rewrite (send_healthy h _ s2 Hh2). }
  rewrite offsets_spec in Ho2, Hl by lia.
  rewrite Nat.sub_0_r, <- chunk_count_div in Ho2, Hl.
  rewrite length_map, length_seq in Hl.
  exists ts, (now s2). unfold result, output. rewrite Hrun. cbn [fst snd].
  split; [reflexivity|]. split; [|split].
  - change (Enter (CStream data) :: o1 ++ o2 ++ [Sent (now s2) h (Prompt completion_prompt)])
      with ([Enter (CStream data)] ++ o1 ++ o2 ++ [Sent (now s2) h (Prompt completion_prompt)]).
    rewrite !filter_app, Ho1, Ho2. reflexivity.
  - exact Hl.
  - apply paced_earlier with (now s1); [exact Hn1 | exact Hpaced].
Qed.

Lemma healthy_connected : healthy 6 connected.
Proof.
  split; [reflexivity|]. exists a_channel.
  split; [vm_compute; reflexivity|]. split; [reflexivity|].
  split; [reflexivity | vm_compute; lia].
Qed.

Lemma streaming_sends_chunks_then_prompt_witness :
  healthy 6 connected /\
  exists ts t_end,
    result (streamAudioData a_clip) connected = Normal tt /\
    filter is_upload_send (output (streamAudioData a_clip) connected) =
      map (chunk_message 6 a_clip)
          (combine ts (map (fun k => k * CHUNK_SIZE)%nat
                           (seq 0 (chunk_count (length a_clip)))))
      ++ [Sent t_end 6%nat
            (Prompt "I have finished playing. Generate a musical continuation now.")] /\
    length ts = chunk_count (length a_clip) /\
    paced (now connected) (ts ++ [t_end]).
Proof.
  split; [exact healthy_connected|].
  exact (streaming_sends_chunks_then_prompt a_clip 6%nat connected healthy_connected).
Defined.

(** A clip of 8193 samples goes out as two chunks and the prompt. *)
Example two_chunks_and_a_prompt :
  chunk_count (Z.to_nat 8193) = 2%nat /\
  map (fun e => match e with
                | Sent t _ (FileBlob c) => (t, length c)
                | Sent t _ _ => (t, O)
                | _ => (0%N, O)
                end)
      (output (streamAudioData (repeat 0%Q (Z.to_nat 8193))) connected)
  = [(0%N, O); (0%N, CHUNK_SIZE); (50%N, 1%nat); (100%N, O)].
Proof. vm_compute. split; reflexivity. Qed.

(** ** C7: the mic-mute flag during an upload job *)

Lemma lands_of_keeps {A} (m : M A) : keeps muted uploads m -> lands_muted m.
Proof. intros Hm s Hs. destruct (Hm s Hs). auto. Qed.

Lemma lands_bind {A B} (m : M A) (k : A -> M B) :
  keeps muted uploads m -> (forall a, lands_muted (k a)) -> lands_muted (bind m k).
Proof.
  intros Hm Hk s Hs. destruct (Hm s Hs) as [H1 H2].
  unfold run, output, result in *. unfold bind.
  destruct (m s) as [[[a|e] s1] o1]; simpl in *.
  - destruct (Hk a s1 H1) as [H3 H4]. unfold run, output, result in *.
    destruct (k a s1) as [[r s2] o2]; simpl in *.
    split; [now apply uploads_app | exact H4].
  - split; [exact H2 | discriminate].
Qed.

Lemma lands_try_catch {A} (body : M A) (handler : Error -> M A) :
  keeps muted uploads body ->
  (forall e s, output (handler e) s = [] /\ exists e', result (handler e) s = Throw e') ->
  lands_muted (try_catch body handler).
Proof.
  intros Hb Hh s Hs. destruct (Hb s Hs) as [H1 H2].
  unfold run, output, result in *. unfold try_catch.
  destruct (body s) as [[[a|e] s1] o1]; simpl in *.
  - auto.
  - destruct (Hh e s1) as [H3 [e' H4]]. unfold output, result in *.
    destruct (handler e s1) as [[r s2] o2]; simpl in *. subst.
    split; [now rewrite List.app_nil_r | discriminate].
Qed.

Lemma prepare_upload_mutes file s :
  uploads (output (prepare_upload file) s) /\
  (forall data, result (prepare_upload file) s = Normal data ->
                muted (run (prepare_upload file) s)).
Proof.
  unfold run, output, result, prepare_upload.
  rewrite (bind_silent _ _ s (this s) s) by reflexivity.
  destruct (sessionPromise (this s)) as [p|]; [|split; [constructor | discriminate]].
  rewrite (bind_silent _ _ s tt (set_this (set_isProcessingFile true (this s)) s))
    by reflexivity.
  set (s1 := set_this (set_isProcessingFile true (this s)) s).
  assert (muted s1) as Hm by reflexivity.
  clearbody s1. revert s1 Hm.
  change (lands_muted
            (resume_if_suspended (outputContext (this s));;
             m <- gets this;;
             resume_if_suspended (inputContext m);;
             m0 <- gets this;;
             _ <- match inputContext m0 with
                  | Some c => ret c
                  | None => new_AudioContext (fallbackContext file)
                  end;;
             try_catch
               (decoded <- decode_and_resample (decoding file);;
                ret (normalize decoded))
               (fun e =>
                  assign set_isProcessingFile false;;
                  throw (new_Error
                           (String.append "Failed to decode audio file: "
                              (message e)))))).
  apply lands_bind. { step keeps_resume_if_suspended. } intros _.
  apply lands_bind. { step @keeps_gets. } intros m1.
  apply lands_bind. { step keeps_resume_if_suspended. } intros _.
  apply lands_bind. { step @keeps_gets. } intros m2.
  apply lands_bind.
  { destruct (inputContext m2); [step @keeps_ret | step keeps_new_AudioContext]. }
  intros _. apply lands_try_catch.
  - step @keeps_bind. { step keeps_decode_and_resample. }
    intros d. step @keeps_ret.
  - intros e s'. split; [reflexivity | eexists; reflexivity].
Qed.

Lemma uploads_not_from_mic o : uploads o -> Forall not_from_mic o.
Proof.
  apply Forall_impl. intros [ | | |t h [ | | ]| | | ]; unfold not_from_mic; simpl;
    congruence.
Qed.

(** The trace of an upload job: a part without microphone messages, then
    nothing more, or the first [disconnect()] of the job. *)
Lemma job_output_shape file s0 :
  exists quiet rest,
    output (sendAudioFile file) s0 = quiet ++ rest /\
    Forall not_from_mic quiet /\
    (rest = [] \/ exists rest', rest = Enter CDisconnect :: rest').
Proof.
  destruct (prepare_upload_mutes file s0) as [Hp Hm].
  unfold output, result, run in *. unfold sendAudioFile, bind.
  destruct (prepare_upload file s0) as [[[data|e] s] o0]; simpl in *.
  2: { exists o0, []. rewrite List.app_nil_r.
       split; [reflexivity|]. split; [now apply uploads_not_from_mic | now left]. }
  specialize (Hm data eq_refl).
  destruct (streamAudioData_keeps muted uploads uploads_nil uploads_app
              muted_ambient fire_uploads uploads_upload data s muted_alloc Hm)
    as (r1 & s1 & o1 & Hs & Ho1 & _).
  assert (Forall not_from_mic (o0 ++ Enter (CStream data) :: o1)) as Hq.
  { apply Forall_app. split; [now apply uploads_not_from_mic|].
    constructor; [reflexivity | now apply uploads_not_from_mic]. }
  assert (forall r, (r = Normal tt \/ exists e, r = Throw e /\
                       isTransient (message e) = false) ->
                    streamAudioData data s = (r, s1, Enter (CStream data) :: o1) ->
                    snd (let '(r, s2, o2) :=
                           stream_with_retry (reconnect file) data s in
                         (r, s2, o0 ++ o2)) =
                    (o0 ++ Enter (CStream data) :: o1) ++ []) as Hplain.
  { intros r Hr Hs'. unfold stream_with_retry, try_finally, try_catch.
    rewrite Hs'. destruct Hr as [->|(e & -> & ->)]; simpl;
      now rewrite !List.app_nil_r. }
  destruct r1 as [[]|e].
  - exists (o0 ++ Enter (CStream data) :: o1), [].
    split; [apply (Hplain _ (or_introl eq_refl) Hs)|]. split; [exact Hq | now left].
  - destruct (isTransient (message e)) eqn:Ht.
    + destruct (stream_with_retry_transient (reconnect file) data s e s1 _ Hs Ht)
        as (s2 & Hd & [(s3 & o3 & r & s4 & o4 & _ & _ & Hrun & _)
                      |(e' & s3 & o3 & _ & Hrun & _)]);
        rewrite Hrun; simpl; eexists (o0 ++ Enter (CStream data) :: o1), _;
        (split; [|split; [exact Hq | right; eexists; reflexivity]]);
        now rewrite <- List.app_assoc.
    + exists (o0 ++ Enter (CStream data) :: o1), [].
      split; [|split; [exact Hq | now left]].
      apply (Hplain _ (or_intror (ex_intro _ e (conj eq_refl Ht))) Hs).
Qed.

Lemma prefix_before_marker (x : event) (quiet rest pre post : list event) :
  pre ++ post = quiet ++ rest ->
  (rest = [] \/ exists rest', rest = x :: rest') ->
  ~ In x pre ->
  exists k, quiet = pre ++ k.
Proof.
  intros H Hr Hx. apply app_eq_app in H.
  destruct H as [l [[H1 H2]|[H1 H2]]].
  - destruct l as [|y l].
    + exists []. rewrite List.app_nil_r in *. now subst.
    + exfalso. destruct Hr as [->|[rest' ->]]; [discriminate|].
      inversion H2; subst. apply Hx. apply in_or_app. right. now left.
  - now exists l.
Qed.

Lemma stream_with_retry_unmutes env data s :
  isProcessingFile (this (run (stream_with_retry env data) s)) = false.
Proof.
  unfold run, stream_with_retry, try_finally.
  match goal with
  | |- context [match ?b s with _ => _ end] => destruct (b s) as [[r s1] o1]
  end.
  reflexivity.
Qed.

(** What does hold of the flag.  In the trace of an upload job no
    microphone frame is forwarded before the first disconnect() of the job
    (in the whole job, when there is no retry): sendAudioFile sets the
    mic-mute flag at its start, and the flag is cleared at the end of the
    streaming statement.  Every disconnect() clears the flag too. *)
Theorem mic_muted_until_disconnect
  (file : Upload) (s0 : Machine) (pre post : list event)
  (env : ConnectEnv) (data : samples) (s : Machine) :
  output (sendAudioFile file) s0 = pre ++ post ->
  ~ In (Enter CDisconnect) pre ->
  Forall (fun e => is_mic_send e = false) pre /\
  (forall d, result (prepare_upload file) s0 = Normal d ->
             isProcessingFile (this (run (prepare_upload file) s0)) = true) /\
  isProcessingFile (this (run (stream_with_retry env data) s)) = false /\
  isProcessingFile (this (run disconnect s)) = false.
Proof.
  intros Ho Hpre. split; [|split; [|split]].
  - destruct (job_output_shape file s0) as (quiet & rest & Hq & Hquiet & Hrest).
    rewrite Hq in Ho. symmetry in Ho.
    destruct (prefix_before_marker _ _ _ _ _ Ho Hrest Hpre) as [k ->].
    apply Forall_app in Hquiet. apply Hquiet.
  - apply prepare_upload_mutes.
  - apply stream_with_retry_unmutes.
  - unfold run. destruct (disconnect_spec s) as [hp ->]. reflexivity.
Qed.

Lemma mic_muted_until_disconnect_witness :
  let file := clip_with fine in
  let s0 := set_ticks
              (repeat {| lag := 1; frames := [(5%nat, [1#3]%Q)] |} 10) connected in
  let pre := output (sendAudioFile file) s0 in
  output (sendAudioFile file) s0 = pre ++ [] /\
  ~ In (Enter CDisconnect) pre /\
  Forall (fun e => is_mic_send e = false) pre /\
  (forall d, result (prepare_upload file) s0 = Normal d ->
             isProcessingFile (this (run (prepare_upload file) s0)) = true) /\
  isProcessingFile (this (run (stream_with_retry fine a_clip) s0)) = false /\
  isProcessingFile (this (run disconnect s0)) = false.
Proof.
  intros file s0 pre.
  assert (output (sendAudioFile file) s0 = pre ++ []) as H1
    by (symmetry; apply List.app_nil_r).
  assert (~ In (Enter CDisconnect) pre) as H2
    by (vm_compute; intuition discriminate).
  split; [exact H1|]. split; [exact H2|].
  exact (mic_muted_until_disconnect file s0 pre [] fine a_clip s0 H1 H2).
Defined.

(** C7.  The code does not keep the microphone muted for the whole job.
    On the retry path the flag is true when the first attempt has failed
    and false after the disconnect() of the retry, in the middle of the
    job; a frame that the new script processor delivers while the second
    attempt is pacing its chunks is then forwarded on the new channel,
    between the chunk and the prompt. *)
Lemma mic_forwarded_in_retry_window :
  let file := clip_with fine in
  let failed := run (streamAudioData (normalize a_clip))
                    (run (prepare_upload file) retry_with_live_mic) in
  isProcessingFile (this failed) = true /\
  isProcessingFile (this (run disconnect failed)) = false /\
  result (sendAudioFile file) retry_with_live_mic = Normal tt /\
  filter is_mic_send (output (sendAudioFile file) retry_with_live_mic) =
    [Sent 52 14%nat (MicBlob [2#3]%Q 48000)] /\
  filter is_upload_send (output (sendAudioFile file) retry_with_live_mic) =
    [Sent 0 14%nat (FileBlob (normalize a_clip));
     Sent 52 14%nat (Prompt completion_prompt)].
Proof. vm_compute. repeat split. Qed.

(** ** C4: who tears a session down *)

Lemma stays_open_ambient h s s' : ambient s s' -> stays_open h s -> stays_open h s'.
Proof.
  intros (_ & Hf & Hh) [Hlt (c & Hc & Hs)]. split; [now rewrite Hf|].
  exists c. split; [|exact Hs]. now apply Hh.
Qed.

Lemma stays_open_alloc h o s : stays_open h s -> stays_open h (run (alloc o) s).
Proof.
  intros [Hlt (c & Hc & Hs)]. unfold stays_open, run, alloc; simpl.
  split; [lia|].
  exists c. split; [|exact Hs]. rewrite lookup_insert_ne by lia. exact Hc.
Qed.

Lemma stays_open_assign h m s : stays_open h s -> stays_open h (set_this m s).
Proof. trivial. Qed.

Lemma stays_open_resume h k c s :
  stays_open h s ->
  stays_open h (run (store k (NContext (set_state running c))) s).
Proof.
  intros [Hlt (c0 & Hc & Hs)]. unfold stays_open, run, store, modify; simpl.
  split; [exact Hlt|]. destruct (decide (k = h)) as [->|Hne].
  - exists (set_state running c). rewrite lookup_insert_eq.
    split; [reflexivity | discriminate].
  - exists c0. rewrite lookup_insert_ne by exact Hne. now split.
Qed.

Lemma stays_open_fire h f : keeps (stays_open h) whatever (fire f).
Proof.
  apply keeps_fire_any; try exact Logic.I; try (intros; exact Logic.I).
  apply stays_open_ambient.
Qed.

(** connect() that returns normally has closed nothing. *)
Lemma connect_closes_nothing env s h :
  stays_open h s ->
  result (connect env) s = Normal tt ->
  stays_open h (run (connect env) s).
Proof.
  intros Hs Hr. unfold result, run in *.
  destruct (connect_keeps (stays_open h) whatever Logic.I (fun _ _ _ _ => Logic.I)
              (stays_open_ambient h) (stays_open_fire h)
              (stays_open_alloc h) (stays_open_assign h) (stays_open_resume h)
              env s Hs)
    as [(s' & o & H & _ & Hi) | (e & s1 & hp & o & H & _)];
    rewrite H in *; simpl in *; [exact Hi | discriminate].
Qed.

Lemma teardown_twice o : teardown (teardown o) = teardown o.
Proof. destruct o; reflexivity. Qed.

Lemma wound_refl hp : wound hp hp.
Proof. intros h. now left. Qed.

Lemma wound_trans hp1 hp2 hp3 : wound hp1 hp2 -> wound hp2 hp3 -> wound hp1 hp3.
Proof.
  intros H12 H23 h. destruct (H12 h) as [E|E], (H23 h) as [F|F];
    rewrite F, E; auto.
  right. destruct (hp1 !! h); simpl; [|reflexivity]. now rewrite teardown_twice.
Qed.

Lemma wound_store hp p o :
  hp !! p = Some o -> wound hp (<[p := teardown o]> hp).
Proof.
  intros Hp h. destruct (decide (p = h)) as [->|Hne].
  - right. now rewrite lookup_insert_eq, Hp.
  - left. now rewrite lookup_insert_ne.
Qed.

Lemma closed_already c : state c = closed -> set_state closed c = c.
Proof. destruct c; simpl. now intros ->. Qed.

Lemma winds_down_nothing (tears : nat -> native -> Prop) :
  (forall h o, ~ tears h o) -> winds_down (ret tt) tears.
Proof.
  intros Hn s. exists (heap s). rewrite set_heap_same.
  split; [reflexivity|]. split; [apply wound_refl|].
  intros h o Ht. now destruct (Hn h o).
Qed.

Lemma close_context_winds_down ctx :
  winds_down (close_context ctx)
    (fun h o => ctx = Some h /\ exists c, o = NContext c).
Proof.
  destruct ctx as [p|]; [|apply winds_down_nothing; now intros h o [? _]].
  intros s. unfold close_context.
  rewrite (bind_silent _ _ s (heap s !! p) s) by reflexivity.
  destruct (heap s !! p) as [o|] eqn:Hp.
  2: { exists (heap s). rewrite set_heap_same. split; [reflexivity|].
       split; [apply wound_refl|]. intros h o [E _] Ho. congruence. }
  assert (forall o', o' = o \/ o' = teardown o ->
            exists hp, (Normal tt, set_heap (<[p := o']> (heap s)) s, [])
                       = (Normal tt, set_heap hp s, @nil event) /\
                       wound (heap s) hp /\
                       (forall h x, Some p = Some h /\ (exists c, x = NContext c) ->
                          heap s !! h = Some x -> o' = teardown o ->
                          hp !! h = Some (teardown x))) as Hst.
  { intros o' Ho'. exists (<[p := o']> (heap s)). split; [reflexivity|]. split.
    - destruct Ho' as [->| ->]; [rewrite insert_id by exact Hp; apply wound_refl|].
      now apply wound_store.
    - intros h x [E _] Hx ->. inversion E; subst.
      rewrite lookup_insert_eq. congruence. }
  destruct o as [c| | | | | ];
    try (exists (heap s); rewrite set_heap_same; split; [reflexivity|];
         split; [apply wound_refl|]; intros h o [E [c' ->]] Ho;
         inversion E; subst; congruence).
  destruct (state c) eqn:Hs.
  - destruct (Hst (teardown (NContext c)) (or_intror eq_refl)) as (hp & E & Hw & Ht).
    exists hp. split; [exact E|]. split; [exact Hw|].
    intros h x Hx Hh. now apply Ht.
  - destruct (Hst (teardown (NContext c)) (or_intror eq_refl)) as (hp & E & Hw & Ht).
    exists hp. split; [exact E|]. split; [exact Hw|].
    intros h x Hx Hh. now apply Ht.
  - exists (heap s). rewrite set_heap_same. split; [reflexivity|].
    split; [apply wound_refl|].
    intros h x [E [c' ->]] Hx. inversion E; subst. rewrite Hx.
    rewrite Hp in Hx. inversion Hx; subst. simpl.
    now rewrite closed_already.
Qed.

Lemma winds_down_cell (p : handle) (m : M unit) (hit : native -> bool)
  (tears : nat -> native -> Prop) :
  (forall s,
      m s = match heap s !! p with
            | Some o =>
                if hit o
                then (Normal tt, set_heap (<[p := teardown o]> (heap s)) s, [])
                else (Normal tt, s, [])
            | None => (Normal tt, s, [])
            end) ->
  (forall h o, tears h o -> h = p /\ (hit o = true \/ teardown o = o)) ->
  winds_down m tears.
Proof.
  intros Hm Ht s. rewrite Hm.
  destruct (heap s !! p) as [o|] eqn:Hp; [destruct (hit o) eqn:Hhit|].
  - exists (<[p := teardown o]> (heap s)). split; [reflexivity|].
    split; [now apply wound_store|].
    intros h x Hx Hh. destruct (Ht h x Hx) as [-> _].
    rewrite lookup_insert_eq. congruence.
  - exists (heap s). rewrite set_heap_same. split; [reflexivity|].
    split; [apply wound_refl|].
    intros h x Hx Hh. destruct (Ht h x Hx) as [-> [E|E]]; congruence.
  - exists (heap s). rewrite set_heap_same. split; [reflexivity|].
    split; [apply wound_refl|].
    intros h x Hx Hh. destruct (Ht h x Hx) as [-> _]. congruence.
Qed.

Lemma disconnect_processor_winds_down sp :
  winds_down (disconnect_processor sp)
    (fun h o => sp = Some h /\ exists ctx a b, o = NProcessor ctx a b).
Proof.
  destruct sp as [p|]; [|apply winds_down_nothing; now intros h o [? _]].
  apply (winds_down_cell p _
           (fun o => match o with NProcessor _ _ _ => true | _ => false end)).
  - intros s. unfold disconnect_processor.
    rewrite (bind_silent _ _ s (heap s !! p) s) by reflexivity.
    destruct (heap s !! p) as [[ | | |ctx a b| | ]|]; reflexivity.
  - intros h o [E (ctx & a & b & ->)]. inversion E. auto.
Qed.

Lemma disconnect_source_winds_down src :
  winds_down (disconnect_source src)
    (fun h o => src = Some h /\ exists ctx a, o = NSource ctx a).
Proof.
  destruct src as [p|]; [|apply winds_down_nothing; now intros h o [? _]].
  apply (winds_down_cell p _
           (fun o => match o with NSource _ _ => true | _ => false end)).
  - intros s. unfold disconnect_source.
    rewrite (bind_silent _ _ s (heap s !! p) s) by reflexivity.
    destruct (heap s !! p) as [[ | |ctx a| | | ]|]; reflexivity.
  - intros h o [E (ctx & a & ->)]. inversion E. auto.
Qed.

Lemma close_session_winds_down promise :
  winds_down (close_session promise)
    (fun h o => promise = Some h /\
                exists c, o = NSession c /\ handshake c = None).
Proof.
  destruct promise as [p|]; [|apply winds_down_nothing; now intros h o [? _]].
  apply (winds_down_cell p _
           (fun o => match o with
                     | NSession c =>
                         match handshake c with None => true | Some _ => false end
                     | _ => false
                     end)).
  - intros s. unfold close_session, then_.
    rewrite (bind_silent _ _ s (heap s !! p) s) by reflexivity.
    destruct (heap s !! p) as [[ | | | | |c]|] eqn:Hp; try reflexivity.
    destruct (handshake c); [reflexivity|].
    rewrite (bind_silent _ _ s (heap s !! p) s) by reflexivity.
    now rewrite Hp.
  - intros h o [E (c & -> & Hc)]. inversion E. simpl. rewrite Hc. auto.
Qed.

Lemma wound_lookup hp hp' h o :
  wound hp hp' -> hp !! h = Some o ->
  hp' !! h = Some o \/ hp' !! h = Some (teardown o).
Proof. intros W Ho. destruct (W h) as [E|E]; rewrite E, Ho; auto. Qed.

Lemma torn_in_the_middle hpa hpb hpc hpd h o :
  wound hpa hpb ->
  (forall x, x = o \/ x = teardown o -> hpb !! h = Some x ->
             hpc !! h = Some (teardown x)) ->
  wound hpc hpd ->
  hpa !! h = Some o ->
  hpd !! h = Some (teardown o).
Proof.
  intros Wab T Wcd Ho.
  assert (hpc !! h = Some (teardown o)) as Hc.
  { destruct (wound_lookup _ _ _ _ Wab Ho) as [E|E].
    - now apply (T o); [left|].
    - rewrite (T (teardown o)); [now rewrite teardown_twice | now right | exact E]. }
  destruct (wound_lookup _ _ _ _ Wcd Hc) as [E|E]; rewrite E;
    [reflexivity | now rewrite teardown_twice].
Qed.

(** disconnect() closes what the manager holds. *)
Lemma disconnect_tears_down s h o :
  heap s !! h = Some o ->
  (((inputContext (this s) = Some h \/ outputContext (this s) = Some h) /\
    exists c, o = NContext c) \/
   (scriptProcessor (this s) = Some h /\ exists ctx a b, o = NProcessor ctx a b) \/
   (inputSource (this s) = Some h /\ exists ctx a, o = NSource ctx a)) ->
  heap (run disconnect s) !! h = Some (teardown o).
Proof.
  intros Ho Hheld.
  unfold run, disconnect.
  unfold bind at 1. unfold emit at 1.
  unfold bind at 1. unfold assign at 1, modify at 1.
  unfold bind at 1. unfold assign at 1, modify at 1.
  unfold bind at 1. unfold gets at 1.
  set (s1 := set_this _ (set_this _ s)).
  change (sessionPromise (this s1)) with (sessionPromise (this s)).
  change (scriptProcessor (this s1)) with (scriptProcessor (this s)).
  change (inputSource (this s1)) with (inputSource (this s)).
  change (inputContext (this s1)) with (inputContext (this s)).
  change (outputContext (this s1)) with (outputContext (this s)).
  destruct (close_session_winds_down (sessionPromise (this s)) s1)
    as (h1 & E1 & W1 & _).
  unfold bind at 1. rewrite E1.
  destruct (disconnect_processor_winds_down (scriptProcessor (this s))
              (set_heap h1 s1)) as (h2 & E2 & W2 & T2).
  unfold bind at 1. rewrite E2.
  destruct (disconnect_source_winds_down (inputSource (this s))
              (set_heap h2 (set_heap h1 s1))) as (h3 & E3 & W3 & T3).
  unfold bind at 1. rewrite E3.
  destruct (close_context_winds_down (inputContext (this s))
              (set_heap h3 (set_heap h2 (set_heap h1 s1)))) as (h4 & E4 & W4 & T4).
  unfold bind at 1. rewrite E4.
  destruct (close_context_winds_down (outputContext (this s))
              (set_heap h4 (set_heap h3 (set_heap h2 (set_heap h1 s1)))))
    as (h5 & E5 & W5 & T5).
  unfold bind at 1. rewrite E5.
  simpl in W1, W2, W3, W4, W5, T2, T3, T4, T5.
  change (h5 !! h = Some (teardown o)).
  destruct Hheld as [[[Hi|Hout] (c & ->)] | [[Hsp (ctx & a & b & ->)] | [Hsrc (ctx & a & ->)]]].
  - apply (torn_in_the_middle (heap s) h3 h4 h5); auto.
    + apply wound_trans with h1; [exact W1|].
      apply wound_trans with h2; [exact W2 | exact W3].
    + intros x Hx Hl. apply T4; [|exact Hl]. split; [exact Hi|].
      destruct Hx as [->| ->]; simpl; eauto.
  - apply (torn_in_the_middle (heap s) h4 h5 h5); auto.
    + apply wound_trans with h1; [exact W1|].
      apply wound_trans with h2; [exact W2|].
      apply wound_trans with h3; [exact W3 | exact W4].
    + intros x Hx Hl. apply T5; [|exact Hl]. split; [exact Hout|].
      destruct Hx as [->| ->]; simpl; eauto.
    + apply wound_refl.
  - apply (torn_in_the_middle (heap s) h1 h2 h5); auto.
    + intros x Hx Hl. apply T2; [|exact Hl]. split; [exact Hsp|].
      destruct Hx as [->| ->]; simpl; eauto.
    + apply wound_trans with h3; [exact W3|].
      apply wound_trans with h4; [exact W4 | exact W5].
  - apply (torn_in_the_middle (heap s) h2 h3 h5); auto.
    + apply wound_trans with h1; [exact W1 | exact W2].
    + intros x Hx Hl. apply T3; [|exact Hl]. split; [exact Hsrc|].
      destruct Hx as [->| ->]; simpl; eauto.
    + apply wound_trans with h4; [exact W4 | exact W5].
Qed.

(** C4, as amended.  connect() does not tear a prior session down: when it
    returns normally it has not called disconnect(), and an audio context
    that the manager held and that was open before the call is still open
    after it.  The teardown is disconnect()'s: it closes each audio context
    the manager holds, disconnects the script processor and removes its
    callback, and disconnects the input source. *)
Theorem teardown_is_left_to_disconnect
  (env : ConnectEnv) (s : Machine) (h : handle) (c : AudioContext) :
  (h < fresh s)%nat ->
  inputContext (this s) = Some h \/ outputContext (this s) = Some h ->
  heap s !! h = Some (NContext c) ->
  state c <> closed ->
  result (connect env) s = Normal tt ->
  (exists c', heap (run (connect env) s) !! h = Some (NContext c') /\
              state c' <> closed) /\
  calls (output (connect env) s) = [CConnect] /\
  heap (run disconnect s) !! h = Some (NContext (set_state closed c)) /\
  (forall p ctx a b,
      scriptProcessor (this s) = Some p ->
      heap s !! p = Some (NProcessor ctx a b) ->
      heap (run disconnect s) !! p = Some (NProcessor ctx false false)) /\
  (forall p ctx a,
      inputSource (this s) = Some p ->
      heap s !! p = Some (NSource ctx a) ->
      heap (run disconnect s) !! p = Some (NSource ctx false)).
Proof.
  intros Hlt Hheld Hc Hopen Hr. split; [|split; [|split; [|split]]].
  - assert (stays_open h s) as Hs by (split; [exact Hlt | now exists c]).
    apply (connect_closes_nothing env s h Hs Hr).
  - unfold result, output in *.
    destruct (connect_spec env s)
      as [(s' & o & H & Ho) | (e & s1 & hp & o & H & Ho)];
      rewrite H in *; simpl in *; [|discriminate].
    now rewrite (calls_sends _ Ho).
  - apply (disconnect_tears_down s h (NContext c) Hc). left. eauto.
  - intros p ctx a b Hp Hcell.
    apply (disconnect_tears_down s p (NProcessor ctx a b) Hcell).
    right. left. eauto.
  - intros p ctx a Hp Hcell.
    apply (disconnect_tears_down s p (NSource ctx a) Hcell).
    right. right. eauto.
Qed.

Lemma teardown_is_left_to_disconnect_witness :
  (0 < fresh connected)%nat /\
  (inputContext (this connected) = Some 0%nat \/
   outputContext (this connected) = Some 0%nat) /\
  heap connected !! 0%nat = Some (NContext a_context) /\
  state a_context <> closed /\
  result (connect fine) connected = Normal tt /\
  (exists c', heap (run (connect fine) connected) !! 0%nat = Some (NContext c') /\
              state c' <> closed) /\
  calls (output (connect fine) connected) = [CConnect] /\
  heap (run disconnect connected) !! 0%nat
    = Some (NContext (set_state closed a_context)) /\
  (forall p ctx a b,
      scriptProcessor (this connected) = Some p ->
      heap connected !! p = Some (NProcessor ctx a b) ->
      heap (run disconnect connected) !! p = Some (NProcessor ctx false false)) /\
  (forall p ctx a,
      inputSource (this connected) = Some p ->
      heap connected !! p = Some (NSource ctx a) ->
      heap (run disconnect connected) !! p = Some (NSource ctx false)).
Proof.
  assert ((0 < fresh connected)%nat) as H1 by (vm_compute; lia).
  assert (inputContext (this connected) = Some 0%nat \/
          outputContext (this connected) = Some 0%nat) as H2
    by (left; reflexivity).
  assert (heap connected !! 0%nat = Some (NContext a_context)) as H3
    by (vm_compute; reflexivity).
  assert (state a_context <> closed) as H4 by discriminate.
  assert (result (connect fine) connected = Normal tt) as H5
    by (vm_compute; reflexivity).
  split; [exact H1|]. split; [exact H2|]. split; [exact H3|].
  split; [exact H4|]. split; [exact H5|].
  exact (teardown_is_left_to_disconnect fine connected 0%nat a_context
           H1 H2 H3 H4 H5).
Defined.

(** The claim as first stated fails on a second connect(): the first
    session's input context is still running and no longer held by the
    manager, its script processor still has its callback, close() was not
    called on its session, and disconnect() was never entered. *)
Lemma second_connect_leaks_the_first_session :
  let again := run (connect fine) connected in
  inputContext (this connected) = Some 0%nat /\
  sessionPromise (this connected) = Some 6%nat /\
  result (connect fine) connected = Normal tt /\
  calls (output (connect fine) connected) = [CConnect] /\
  heap again !! 0%nat = Some (NContext a_context) /\
  state a_context = running /\
  heap again !! 5%nat = Some (NProcessor 0%nat true true) /\
  heap again !! 6%nat = Some (NSession a_channel) /\
  close_called a_channel = false /\
  inputContext (this again) = Some 7%nat /\
  sessionPromise (this again) = Some 13%nat.
Proof. vm_compute. repeat split. Qed.

(** * More of the code *)

(** ** What the event loop may change *)

Lemma spent_refl b : spent b b.
Proof. destruct b; simpl; auto. Qed.

Lemma spent_trans b1 b2 b3 : spent b1 b2 -> spent b2 b3 -> spent b1 b3.
Proof. destruct b1, b2, b3; simpl; try tauto. lia. Qed.

Lemma same_session_refl c : same_session c c.
Proof. repeat split. apply spent_refl. Qed.

Lemma same_session_trans c1 c2 c3 :
  same_session c1 c2 -> same_session c2 c3 -> same_session c1 c3.
Proof.
  intros (A & B & C & S1) (D & E & F & S2).
  split; [congruence|]. split; [congruence|]. split; [congruence|].
  now apply spent_trans with (budget c2).
Qed.

Lemma cell_drift_refl o : cell_drift o o.
Proof. now left. Qed.

Lemma cell_drift_trans o1 o2 o3 :
  cell_drift o1 o2 -> cell_drift o2 o3 -> cell_drift o1 o3.
Proof.
  intros [->|(c & c' & -> & -> & H)] [->|(d & d' & E & -> & H')].
  - now left.
  - right. exists d, d'. split; [exact E|]. split; [reflexivity | exact H'].
  - right. exists c, c'. split; [reflexivity|]. split; [reflexivity | exact H].
  - inversion E; subst. right. exists c, d'.
    split; [reflexivity|]. split; [reflexivity|].
    now apply same_session_trans with d.
Qed.

Lemma cell_drift_plain o o' :
  cell_drift (Some o) o' -> is_session o = false -> o' = Some o.
Proof. intros [->|(c & c' & E & _)] Hs; [reflexivity|]. inversion E; subst. discriminate. Qed.

Lemma cell_drift_back o o' :
  cell_drift o (Some o') -> is_session o' = false -> o = Some o'.
Proof. intros [->|(c & c' & _ & E & _)] Hs; [reflexivity|]. inversion E; subst. discriminate. Qed.

Lemma cell_drift_session c o' :
  cell_drift (Some (NSession c)) o' ->
  exists c', o' = Some (NSession c') /\ same_session c c'.
Proof.
  intros [->|(d & d' & E & -> & H)].
  - exists c. split; [reflexivity | apply same_session_refl].
  - inversion E; subst. eauto.
Qed.

Lemma drift_refl s : drift s s.
Proof.
  split; [reflexivity|]. split; [reflexivity|]. split; [lia|].
  intros h. apply cell_drift_refl.
Qed.

Lemma drift_trans s1 s2 s3 : drift s1 s2 -> drift s2 s3 -> drift s1 s3.
Proof.
  intros (T1 & F1 & N1 & H1) (T2 & F2 & N2 & H2).
  split; [congruence|]. split; [congruence|]. split; [lia|].
  intros h. apply cell_drift_trans with (heap s2 !! h); auto.
Qed.

Lemma drift_ambient s s' : drift s s' -> ambient s s'.
Proof.
  intros (T & F & _ & H). split; [exact T|]. split; [exact F|].
  intros h o Ho Hs. specialize (H h). rewrite Ho in H.
  now apply cell_drift_plain.
Qed.

Lemma drift_clock s n t : (now s <= n)%N -> drift s (set_now n (set_ticks t s)).
Proof.
  intros Hn. split; [reflexivity|]. split; [reflexivity|]. split; [exact Hn|].
  intros h. apply cell_drift_refl.
Qed.

Lemma drift_cell s s' h o :
  drift s s' -> heap s !! h = Some o -> is_session o = false -> heap s' !! h = Some o.
Proof. intros (_ & _ & _ & H) Ho Hs. specialize (H h). rewrite Ho in H. now apply cell_drift_plain. Qed.

Lemma drift_budget s h c k :
  heap s !! h = Some (NSession c) ->
  budget c = Some (S k) ->
  drift s (set_heap (<[h := NSession (set_budget (Some k) c)]> (heap s)) s).
Proof.
  intros Hc Hb. split; [reflexivity|]. split; [reflexivity|]. split; [simpl; lia|].
  intros h'. simpl. destruct (decide (h = h')) as [->|Hne].
  - rewrite lookup_insert_eq, Hc. right. exists c, (set_budget (Some k) c).
    split; [reflexivity|]. split; [reflexivity|]. repeat split.
    rewrite Hb. simpl. lia.
  - rewrite lookup_insert_ne by exact Hne. apply cell_drift_refl.
Qed.

Lemma sendRealtimeInput_cases session p s :
  (exists s', sendRealtimeInput session p s = (Normal tt, s', [Sent (now s) session p]) /\
              drift s s' /\ now s' = now s /\ ticks s' = ticks s) \/
  (exists e, sendRealtimeInput session p s = (Throw e, s, [])).
Proof.
  unfold sendRealtimeInput.
  destruct (heap s !! session) as [[ | | | | |c]|] eqn:Hc;
    try (right; eexists; reflexivity).
  destruct (budget c) as [[|k]|] eqn:Hb.
  - right. eexists; reflexivity.
  - left. eexists. split; [reflexivity|]. split; [now apply drift_budget|]. now split.
  - left. exists s. split; [reflexivity|]. split; [apply drift_refl|]. now split.
Qed.

Lemma then_cases promise cb s :
  then_ promise cb s = cb promise s \/ then_ promise cb s = (Normal tt, s, []).
Proof.
  unfold then_. rewrite (bind_silent _ _ s (heap s !! promise) s) by reflexivity.
  destruct (heap s !! promise) as [[ | | | | |c]|]; try (now right).
  destruct (handshake c); [now right | now left].
Qed.

Lemma onaudioprocess_cases d s :
  exists s' o,
    onaudioprocess d s = (Normal tt, s', o) /\
    drift s s' /\ now s' = now s /\ ticks s' = ticks s /\
    (o = [] \/ exists h rate, o = [Sent (now s) h (MicBlob d rate)]).
Proof.
  assert (exists s' o, (Normal tt, s, @nil event) = (Normal tt, s', o) /\
            drift s s' /\ now s' = now s /\ ticks s' = ticks s /\
            (o = [] \/ exists h rate, o = [Sent (now s) h (MicBlob d rate)])) as Hnothing.
  { exists s, []. split; [reflexivity|]. split; [apply drift_refl|]. auto. }
  unfold onaudioprocess.
  rewrite (bind_silent _ _ s (this s) s) by reflexivity.
  destruct (sessionPromise (this s)) as [p|]; [|exact Hnothing].
  destruct (inputContext (this s)) as [ic|]; [|exact Hnothing].
  destruct (isProcessingFile (this s)); [exact Hnothing|].
  destruct (sampleRate_of_silent ic s) as [rate Hr].
  rewrite (bind_silent _ _ s rate s Hr).
  destruct (then_cases p (fun session =>
              try_catch (sendRealtimeInput session (MicBlob d rate))
                        (fun err => ret tt)) s) as [-> | ->]; [|exact Hnothing].
  unfold try_catch.
  destruct (sendRealtimeInput_cases p (MicBlob d rate) s)
    as [(s' & -> & Ha & Hn & Ht) | (e & ->)].
  - exists s', [Sent (now s) p (MicBlob d rate)]. split; [reflexivity|].
    split; [exact Ha|]. split; [exact Hn|]. split; [exact Ht|]. right. eauto.
  - exact Hnothing.
Qed.

Lemma fire_cases f s :
  exists s' o,
    fire f s = (Normal tt, s', o) /\
    drift s s' /\ now s' = now s /\ ticks s' = ticks s /\
    (o = [] \/ exists h rate, o = [Sent (now s) h (MicBlob (snd f) rate)]).
Proof.
  unfold fire. rewrite (bind_silent _ _ s (heap s !! f.1) s) by reflexivity.
  destruct (heap s !! f.1) as [[ | | |ctx cn [|]| | ]|];
    try (exists s, []; split; [reflexivity|]; split; [apply drift_refl|]; auto).
  apply onaudioprocess_cases.
Qed.

Lemma mic_only_app a b : mic_only a -> mic_only b -> mic_only (a ++ b).
Proof. intros Ha Hb. apply Forall_app; now split. Qed.

Lemma mic_only_nil : mic_only [].
Proof. constructor. Qed.

Lemma frames_cases fs : forall s,
  exists s' o,
    forM_ fire fs s = (Normal tt, s', o) /\
    drift s s' /\ now s' = now s /\ ticks s' = ticks s /\ mic_only o.
Proof.
  induction fs as [|f fs IH]; intros s; simpl.
  - exists s, []. split; [reflexivity|]. split; [apply drift_refl|].
    repeat split. constructor.
  - destruct (fire_cases f s) as (s1 & o1 & H1 & A1 & N1 & T1 & O1).
    destruct (IH s1) as (s2 & o2 & H2 & A2 & N2 & T2 & O2).
    exists s2, (o1 ++ o2). unfold bind. rewrite H1, H2.
    split; [reflexivity|]. split; [now apply drift_trans with s1|].
    split; [congruence|]. split; [congruence|].
    apply mic_only_app; [|exact O2].
    destruct O1 as [->|(h & rate & ->)]; repeat constructor.
Qed.

Lemma await_cases s :
  exists s' o, await_ s = (Normal tt, s', o) /\ drift s s' /\ mic_only o.
Proof.
  unfold await_. destruct (ticks s) as [|t rest].
  - exists s, []. split; [reflexivity|]. split; [apply drift_refl | constructor].
  - destruct (frames_cases (frames t) (set_now (now s + lag t)%N (set_ticks rest s)))
      as (s' & o & -> & A & N & _ & O).
    exists s', o. split; [reflexivity|]. split; [|exact O].
    apply drift_trans with (set_now (now s + lag t)%N (set_ticks rest s));
      [apply drift_clock; lia | exact A].
Qed.

Lemma setTimeout_cases ms s :
  exists s' o, setTimeout ms s = (Normal tt, s', o) /\ drift s s' /\ mic_only o.
Proof.
  unfold setTimeout, bind, modify.
  destruct (await_cases (set_now (now s + ms)%N s)) as (s' & o & -> & D & O).
  exists s', o. split; [reflexivity|]. split; [|exact O].
  apply drift_trans with (set_now (now s + ms)%N s); [|exact D].
  change (set_now (now s + ms)%N s) with (set_now (now s + ms)%N (set_ticks (ticks s) s)).
  apply drift_clock. lia.
Qed.

Lemma bind_step {A B} (m : M A) (k : A -> M B) s a s1 o1 :
  m s = (Normal a, s1, o1) ->
  bind m k s = (let '(r, s2, o2) := k a s1 in (r, s2, o1 ++ o2)).
Proof. intros H. unfold bind. now rewrite H. Qed.

Lemma bind_throw {A B} (m : M A) (k : A -> M B) s e s1 o1 :
  m s = (Throw e, s1, o1) -> bind m k s = (Throw e, s1, o1).
Proof. intros H. unfold bind. now rewrite H. Qed.

Lemma resume_if_suspended_held h c s :
  heap s !! h = Some (NContext c) ->
  exists s1 o, drift s s1 /\ mic_only o /\
    match state c, resume_rejects c with
    | suspended, Some e => resume_if_suspended (Some h) s = (Throw e, s1, o)
    | suspended, None =>
        resume_if_suspended (Some h) s =
        (Normal tt, set_heap (<[h := NContext (set_state running c)]> (heap s1)) s1, o)
    | _, _ => resume_if_suspended (Some h) s = (Normal tt, s, []) /\ s1 = s /\ o = []
    end.
Proof.
  intros Hc.
  assert (state_of h s = (Normal (Some (state c)), s, [])) as Hst.
  { unfold state_of. rewrite (bind_silent _ _ s (heap s !! h) s) by reflexivity.
    now rewrite Hc. }
  unfold resume_if_suspended. rewrite (bind_silent _ _ _ _ _ Hst).
  destruct (state c) eqn:Es.
  - destruct (await_cases s) as (s1 & o & Ha & Hl & Ho).
    exists s1, o. split; [exact Hl|]. split; [exact Ho|].
    unfold resume. rewrite (bind_step _ _ _ _ _ _ Ha).
    rewrite (bind_silent _ _ s1 (heap s1 !! h) s1) by reflexivity.
    rewrite (drift_cell s s1 h _ Hl Hc eq_refl).
    destruct (resume_rejects c) as [e|]; unfold throw, store, modify;
      now rewrite List.app_nil_r.
  - exists s, []. split; [apply drift_refl|]. split; [constructor|].
    destruct (resume_rejects c); auto.
  - exists s, []. split; [apply drift_refl|]. split; [constructor|].
    destruct (resume_rejects c); auto.
Qed.

(** ** connect() and disconnect(), step by step *)

Ltac step_in E :=
  erewrite bind_step in E by reflexivity; cbv beta in E;
  cbn [fresh this heap now ticks set_this set_heap set_fresh set_now set_ticks fst snd] in E.

Lemma microphone_block mic ic s :
  exists sd o r,
    try_catch
       (getUserMedia mic ;;
        src <- alloc (NSource ic true) ;;
        assign set_inputSource (Some src) ;;
        sp <- alloc (NProcessor ic true true) ;;
        assign set_scriptProcessor (Some sp) ;;
        assign set_hasActiveMic true)
       (fun micErr => assign set_hasActiveMic false) s = (Normal tt, r, o) /\
    drift s sd /\ mic_only o /\
    r = match mic with
        | None =>
            {| this := set_hasActiveMic true
                         (set_scriptProcessor (Some (S (fresh s)))
                            (set_inputSource (Some (fresh s)) (this s)));
               heap := <[S (fresh s) := NProcessor ic true true]>
                         (<[fresh s := NSource ic true]> (heap sd));
               fresh := S (S (fresh s)); now := now sd; ticks := ticks sd |}
        | Some _ => set_this (set_hasActiveMic false (this s)) sd
        end.
Proof.
  destruct (await_cases s) as (sd & o & Ha & Hd & Ho).
  exists sd, o.
  destruct Hd as (T & F & N & H).
  unfold try_catch.
  destruct mic as [e|].
  - assert (getUserMedia (Some e) s = (Throw e, sd, o)) as Hg.
    { unfold getUserMedia. rewrite (bind_step _ _ _ _ _ _ Ha).
      unfold throw. now rewrite List.app_nil_r. }
    rewrite (bind_throw _ _ _ _ _ _ Hg).
    eexists. split; [|split; [|split]]; [| |exact Ho|].
    + unfold assign, modify. now rewrite !List.app_nil_r.
    + repeat split; auto.
    + now rewrite T.
  - assert (getUserMedia None s = (Normal tt, sd, o)) as Hg.
    { unfold getUserMedia. rewrite (bind_step _ _ _ _ _ _ Ha).
      unfold ret. now rewrite List.app_nil_r. }
    rewrite (bind_step _ _ _ _ _ _ Hg).
    eexists. split; [|split; [|split]]; [| |exact Ho|].
    + cbn. rewrite !List.app_nil_r. reflexivity.
    + repeat split; auto.
    + rewrite T, F. reflexivity.
Qed.


Ltac look := repeat (rewrite lookup_insert_ne by lia); try rewrite lookup_insert_eq.
Ltac norm :=
  cbn [fresh this heap now ticks set_this set_heap set_fresh set_now set_ticks].

Lemma connect_succeeds env s ic oc :
  inputDevice env = inr ic -> outputDevice env = inr oc ->
  (state oc = suspended -> resume_rejects oc = None) ->
  exists s' o,
    connect env s = (Normal tt, s', Enter CConnect :: Status CONNECTING :: o) /\
    mic_only o /\ (now s <= now s')%N /\
    this s' = wired (microphone env) (fresh s) (this s) /\
    fresh s' = (match microphone env with None => 7 | Some _ => 5 end + fresh s)%nat /\
    heap s' !! fresh s = Some (NContext ic) /\
    heap s' !! S (fresh s) = Some (NContext (woken oc)) /\
    heap s' !! (2 + fresh s)%nat = Some (NAnalyser (fresh s)) /\
    heap s' !! (3 + fresh s)%nat = Some (NAnalyser (S (fresh s))) /\
    match microphone env with
    | None =>
        heap s' !! (4 + fresh s)%nat = Some (NSource (fresh s) true) /\
        heap s' !! (5 + fresh s)%nat = Some (NProcessor (fresh s) true true) /\
        heap s' !! (6 + fresh s)%nat = Some (NSession (channel env))
    | Some _ => heap s' !! (4 + fresh s)%nat = Some (NSession (channel env))
    end /\
    forall h, (h < fresh s \/ fresh s' <= h)%nat ->
              cell_drift (heap s !! h) (heap s' !! h).
Proof.
  intros Hi Ho Hres.
  destruct (connect env s) as [[r s'] o] eqn:E.
  unfold connect in E. rewrite Hi, Ho in E. unfold new_AudioContext in E.
  step_in E.
  unfold try_catch at 1 in E.
  match type of E with
  | context [match ?b s with _ => _ end] => destruct (b s) as [[rb sb] ob] eqn:B
  end.
  do 5 step_in B.
  match type of B with
  | context [bind (resume_if_suspended _) _ ?st] => set (sa := st) in *
  end.
  assert (heap sa !! S (fresh s) = Some (NContext oc)) as Hoc.
  { unfold sa. cbn [heap]. apply lookup_insert_eq. }
  destruct (resume_if_suspended_held _ _ _ Hoc) as (s1 & o1 & D1 & O1 & R1).
  assert (exists sb', resume_if_suspended (Some (S (fresh s))) sa = (Normal tt, sb', o1) /\
            this sb' = this sa /\ fresh sb' = fresh sa /\ (now sa <= now sb')%N /\
            heap sb' !! S (fresh s) = Some (NContext (woken oc)) /\
            forall h, h <> S (fresh s) -> cell_drift (heap sa !! h) (heap sb' !! h))
    as (sb' & R & Tb & Fb & Nb & Hb & Db).
  { unfold woken. destruct D1 as (T1 & F1 & N1 & H1).
    destruct (state oc) eqn:Es.
    - rewrite (Hres eq_refl) in R1. eexists. split; [exact R1|].
      cbn [this fresh now heap set_heap]. repeat split; auto.
      + apply lookup_insert_eq.
      + intros h Hh. rewrite lookup_insert_ne by congruence. apply H1.
    - assert (resume_if_suspended (Some (S (fresh s))) sa = (Normal tt, sa, []) /\
              s1 = sa /\ o1 = []) as (R & -> & ->)
        by (destruct (resume_rejects oc); exact R1).
      exists sa. split; [exact R|]. repeat split; auto; try lia;
        try (intros h _; apply cell_drift_refl).
    - assert (resume_if_suspended (Some (S (fresh s))) sa = (Normal tt, sa, []) /\
              s1 = sa /\ o1 = []) as (R & -> & ->)
        by (destruct (resume_rejects oc); exact R1).
      exists sa. split; [exact R|]. repeat split; auto; try lia;
        try (intros h _; apply cell_drift_refl). }
  rewrite (bind_step _ _ _ _ _ _ R) in B.
  do 4 step_in B.
  match type of B with
  | context [bind (try_catch _ _) _ ?st] => set (sc := st) in *
  end.
  destruct (microphone_block (microphone env) (fresh s) sc)
    as (sd & o2 & rd & Hm & D2 & O2 & Er).
  rewrite (bind_step _ _ _ _ _ _ Hm) in B.
  step_in B. unfold assign, modify in B.
  assert (fresh sa = (2 + fresh s)%nat) as Fa by reflexivity.
  assert (fresh sc = (4 + fresh s)%nat) as Fc by (unfold sc; norm; rewrite ?Fb, ?Fa; reflexivity).
  assert (this sc = set_outputAnalyser (Some (3 + fresh s)%nat)
                      (set_inputAnalyser (Some (2 + fresh s)%nat)
                         (set_outputContext (Some (S (fresh s)))
                            (set_inputContext (Some (fresh s)) (this s))))) as Tc.
  { unfold sc. norm. rewrite ?Tb, ?Fb, ?Fa. reflexivity. }
  assert (forall h, (h < fresh s \/ 4 + fresh s <= h)%nat ->
                    cell_drift (heap s !! h) (heap sd !! h)) as Hold.
  { intros h Hh. destruct D2 as (_ & _ & _ & H2).
    apply cell_drift_trans with (heap sc !! h); [|apply H2].
    unfold sc. norm. rewrite ?Fb, ?Fa. look.
    apply cell_drift_trans with (heap sa !! h); [|apply Db; lia].
    unfold sa. norm. look. apply cell_drift_refl. }
  assert (heap sd !! fresh s = Some (NContext ic) /\
          heap sd !! S (fresh s) = Some (NContext (woken oc)) /\
          heap sd !! (2 + fresh s)%nat = Some (NAnalyser (fresh s)) /\
          heap sd !! (3 + fresh s)%nat = Some (NAnalyser (S (fresh s)))) as (C0 & C1 & C2 & C3).
  { repeat split; apply (drift_cell sc sd _ _ D2); try reflexivity;
      unfold sc; norm; rewrite ?Fb, ?Fa; look; try reflexivity.
    - assert (heap sa !! fresh s = Some (NContext ic)) as Ha
        by (unfold sa; norm; now look).
      assert (fresh s <> S (fresh s)) as Hne by lia.
      specialize (Db (fresh s) Hne). rewrite Ha in Db.
      now apply cell_drift_plain in Db.
    - exact Hb. }
  destruct D2 as (T2 & F2 & N2 & _).
  assert ((now s <= now sd)%N) as Hnow.
  { assert (now sa = now s) as <- by reflexivity.
    assert (now sc = now sb') as Hn by reflexivity. lia. }
  assert (ob = [Status CONNECTING] ++ o1 ++ o2 /\ rb = Normal tt /\
          sb = set_this (set_sessionPromise (Some (fresh rd)) (this rd))
                 (set_fresh (S (fresh rd))
                    (set_heap (<[fresh rd := NSession (channel env)]> (heap rd)) rd)))
    as (-> & -> & Esb).
  { cbn in B. rewrite !List.app_nil_r in B. inversion B. auto. }
  cbn in E. inversion E; subst r s' o. clear E B.
  exists sb, (o1 ++ o2). split; [reflexivity|].
  split; [now apply mic_only_app|].
  rewrite Esb. cbn [this heap fresh now set_this set_fresh set_heap].
  unfold wired.
  destruct (microphone env) as [e|]; rewrite Er;
    cbn [this heap fresh now set_this set_fresh set_heap].
  - rewrite F2, Fc. split; [exact Hnow|]. split; [rewrite Tc; reflexivity|].
    split; [reflexivity|]. look. repeat split; auto.
    intros h Hh. look. apply Hold. lia.
  - rewrite Fc. split; [exact Hnow|]. split; [rewrite Tc; reflexivity|].
    split; [reflexivity|]. look. repeat split; auto.
    + now look.
    + now look.
    + intros h Hh. look. apply Hold. lia.
Qed.

Lemma spares_nothing : spares_sessions (ret tt).
Proof. intros s. exists (heap s). rewrite set_heap_same. now split. Qed.

Lemma spares_store_other p o :
  is_session o = false ->
  forall s, (exists o', heap s !! p = Some o' /\ is_session o' = false) ->
  exists hp, store p o s = (Normal tt, set_heap hp s, []) /\
    forall h c, heap s !! h = Some (NSession c) -> hp !! h = Some (NSession c).
Proof.
  intros Ho s (o' & Hp & Hs). exists (<[p := o]> (heap s)). split; [reflexivity|].
  intros h c Hc. destruct (decide (p = h)) as [->|Hne].
  - rewrite Hp in Hc. inversion Hc; subst. discriminate.
  - now rewrite lookup_insert_ne.
Qed.

Lemma disconnect_processor_spares sp : spares_sessions (disconnect_processor sp).
Proof.
  destruct sp as [p|]; [|apply spares_nothing].
  intros s. unfold disconnect_processor.
  rewrite (bind_silent _ _ s (heap s !! p) s) by reflexivity.
  destruct (heap s !! p) as [[ | | |ctx a b| | ]|] eqn:Hp; try apply spares_nothing.
  apply spares_store_other; [reflexivity|]. eexists. split; [exact Hp | reflexivity].
Qed.

Lemma disconnect_source_spares src : spares_sessions (disconnect_source src).
Proof.
  destruct src as [p|]; [|apply spares_nothing].
  intros s. unfold disconnect_source.
  rewrite (bind_silent _ _ s (heap s !! p) s) by reflexivity.
  destruct (heap s !! p) as [[ | |ctx a| | | ]|] eqn:Hp; try apply spares_nothing.
  apply spares_store_other; [reflexivity|]. eexists. split; [exact Hp | reflexivity].
Qed.

Lemma close_context_spares ctx : spares_sessions (close_context ctx).
Proof.
  destruct ctx as [p|]; [|apply spares_nothing].
  intros s. unfold close_context.
  rewrite (bind_silent _ _ s (heap s !! p) s) by reflexivity.
  destruct (heap s !! p) as [[c| | | | | ]|] eqn:Hp; try apply spares_nothing.
  destruct (state c); try apply spares_nothing;
    (apply spares_store_other; [reflexivity|]; eexists; split; [exact Hp | reflexivity]).
Qed.

Lemma close_session_closes promise s :
  exists hp,
    close_session promise s = (Normal tt, set_heap hp s, []) /\
    forall h c, heap s !! h = Some (NSession c) ->
      hp !! h = Some (NSession (if decide (promise = Some h) then closing c else c)).
Proof.
  destruct promise as [p|].
  - unfold close_session, then_.
    rewrite (bind_silent _ _ s (heap s !! p) s) by reflexivity.
    assert ((forall c, heap s !! p = Some (NSession c) -> closing c = c) ->
              exists hp, (Normal tt, s, @nil event) = (Normal tt, set_heap hp s, []) /\
              forall h c, heap s !! h = Some (NSession c) ->
                hp !! h = Some (NSession (if decide (Some p = Some h) then closing c else c)))
      as Hsame.
    { intros Hcl. exists (heap s). rewrite set_heap_same. split; [reflexivity|].
      intros h c Hc. destruct (decide (Some p = Some h)) as [E|_]; [|exact Hc].
      inversion E; subst. now rewrite (Hcl c Hc). }
    destruct (heap s !! p) as [[ | | | | |c]|] eqn:Hp;
      try (apply Hsame; intros c' Hc'; discriminate Hc').
    destruct (handshake c) as [e|] eqn:Hk.
    + apply Hsame. intros c' Hc'. inversion Hc'; subst. unfold closing. now rewrite Hk.
    + rewrite (bind_silent _ _ s (heap s !! p) s) by reflexivity. rewrite Hp.
      exists (<[p := NSession (set_close_called true c)]> (heap s)).
      split; [reflexivity|].
      intros h c' Hc'. destruct (decide (Some p = Some h)) as [E|Hne].
      * inversion E; subst. rewrite Hp in Hc'. inversion Hc'; subst.
        rewrite lookup_insert_eq. unfold closing. now rewrite Hk.
      * rewrite lookup_insert_ne by congruence. exact Hc'.
  - exists (heap s). rewrite set_heap_same. split; [reflexivity|].
    intros h c Hc. destruct (decide (None = Some h)); [discriminate | exact Hc].
Qed.

(** What disconnect() does to the heap. *)
Lemma disconnect_heap s :
  exists hp,
    disconnect s =
      (Normal tt, set_this (torn_down (this s)) (set_heap hp s),
       [Enter CDisconnect; Status DISCONNECTED]) /\
    wound (heap s) hp /\
    forall h c, heap s !! h = Some (NSession c) ->
      hp !! h =
      Some (NSession (if decide (sessionPromise (this s) = Some h) then closing c else c)).
Proof.
  unfold disconnect.
  unfold bind at 1. unfold emit at 1.
  unfold bind at 1. unfold assign at 1, modify at 1.
  unfold bind at 1. unfold assign at 1, modify at 1.
  unfold bind at 1. unfold gets at 1.
  set (s1 := set_this _ (set_this _ s)).
  change (sessionPromise (this s1)) with (sessionPromise (this s)).
  change (scriptProcessor (this s1)) with (scriptProcessor (this s)).
  change (inputSource (this s1)) with (inputSource (this s)).
  change (inputContext (this s1)) with (inputContext (this s)).
  change (outputContext (this s1)) with (outputContext (this s)).
  destruct (close_session_winds_down (sessionPromise (this s)) s1)
    as (h1 & E1 & W1 & _).
  destruct (close_session_closes (sessionPromise (this s)) s1) as (h1' & E1' & K1).
  rewrite E1 in E1'. inversion E1' as [Eh]. 
  subst h1'. clear E1'.
  unfold bind at 1. rewrite E1.
  destruct (disconnect_processor_winds_down (scriptProcessor (this s))
              (set_heap h1 s1)) as (h2 & E2 & W2 & _).
  destruct (disconnect_processor_spares (scriptProcessor (this s)) (set_heap h1 s1))
    as (h2' & E2' & K2).
  rewrite E2 in E2'. inversion E2' as [Eh].
  subst h2'. clear E2'.
  unfold bind at 1. rewrite E2.
  destruct (disconnect_source_winds_down (inputSource (this s))
              (set_heap h2 (set_heap h1 s1))) as (h3 & E3 & W3 & _).
  destruct (disconnect_source_spares (inputSource (this s)) (set_heap h2 (set_heap h1 s1)))
    as (h3' & E3' & K3).
  rewrite E3 in E3'. inversion E3' as [Eh].
  subst h3'. clear E3'.
  unfold bind at 1. rewrite E3.
  destruct (close_context_winds_down (inputContext (this s))
              (set_heap h3 (set_heap h2 (set_heap h1 s1)))) as (h4 & E4 & W4 & _).
  destruct (close_context_spares (inputContext (this s))
              (set_heap h3 (set_heap h2 (set_heap h1 s1)))) as (h4' & E4' & K4).
  rewrite E4 in E4'. inversion E4' as [Eh].
  subst h4'. clear E4'.
  unfold bind at 1. rewrite E4.
  destruct (close_context_winds_down (outputContext (this s))
              (set_heap h4 (set_heap h3 (set_heap h2 (set_heap h1 s1)))))
    as (h5 & E5 & W5 & _).
  destruct (close_context_spares (outputContext (this s))
              (set_heap h4 (set_heap h3 (set_heap h2 (set_heap h1 s1)))))
    as (h5' & E5' & K5).
  rewrite E5 in E5'. inversion E5' as [Eh].
  subst h5'. clear E5'.
  unfold bind at 1. rewrite E5.
  simpl in W1, W2, W3, W4, W5, K1, K2, K3, K4, K5.
  exists h5. split; [reflexivity|].
  split.
  - apply wound_trans with h1; [exact W1|].
    apply wound_trans with h2; [exact W2|].
    apply wound_trans with h3; [exact W3|].
    apply wound_trans with h4; [exact W4 | exact W5].
  - intros h c Hc. apply K5, K4, K3, K2, K1, Hc.
Qed.

Lemma connect_refused env s e :
  refusal env = Some e ->
  exists s1 o,
    connect env s =
      (Throw e, run disconnect s1,
       Enter CConnect :: Status CONNECTING ::
         o ++ [Enter CDisconnect; Status DISCONNECTED;
               ErrorEv (message e); Status ERROR]) /\
    mic_only o /\
    inputAnalyser (this s1) = inputAnalyser (this s) /\
    outputAnalyser (this s1) = outputAnalyser (this s) /\
    (forall h, (h < fresh s \/ fresh s1 <= h)%nat ->
               cell_drift (heap s !! h) (heap s1 !! h)) /\
    (forall h, (fresh s <= h < fresh s1)%nat ->
               exists c, heap s1 !! h = Some (NContext c) /\
                 (inputContext (this s1) = Some h \/ outputContext (this s1) = Some h)).
Proof.
  intros Hr.
  assert (forall s1 o,
            (onStatusChange CONNECTING ;;
             ic <- new_AudioContext (inputDevice env) ;;
             assign set_inputContext (Some ic) ;;
             oc <- new_AudioContext (outputDevice env) ;;
             assign set_outputContext (Some oc) ;;
             resume_if_suspended (Some oc) ;;
             ia <- alloc (NAnalyser ic) ;;
             assign set_inputAnalyser (Some ia) ;;
             oa <- alloc (NAnalyser oc) ;;
             assign set_outputAnalyser (Some oa) ;;
             try_catch
               (getUserMedia (microphone env) ;;
                src <- alloc (NSource ic true) ;;
                assign set_inputSource (Some src) ;;
                sp <- alloc (NProcessor ic true true) ;;
                assign set_scriptProcessor (Some sp) ;;
                assign set_hasActiveMic true)
               (fun micErr => assign set_hasActiveMic false) ;;
             session <- alloc (NSession (channel env)) ;;
             assign set_sessionPromise (Some session)) s
            = (Throw e, s1, Status CONNECTING :: o) ->
            connect env s =
              (Throw e, run disconnect s1,
               Enter CConnect :: Status CONNECTING ::
                 o ++ [Enter CDisconnect; Status DISCONNECTED;
                       ErrorEv (message e); Status ERROR])) as Hwrap.
  { intros s1 o Hb. unfold connect.
    rewrite (bind_step _ _ s tt s [Enter CConnect]) by reflexivity.
    cbv beta. unfold try_catch at 1. rewrite Hb.
    destruct (disconnect_spec s1) as [hp Hd].
    rewrite (bind_step _ _ _ _ _ _ Hd). unfold run. rewrite Hd.
    cbn. reflexivity. }
  unfold refusal in Hr.
  destruct (inputDevice env) as [e0|ic] eqn:Hi.
  { inversion Hr; subst e0. exists s, []. split; [|split; [constructor|]].
    - apply Hwrap. rewrite ?Hi. reflexivity.
    - repeat split; auto.
      + intros h _. apply cell_drift_refl.
      + intros h Hh. lia. }
  destruct (outputDevice env) as [e0|oc] eqn:Ho.
  { inversion Hr; subst e0. eexists _, []. split; [|split; [constructor|]].
    - apply Hwrap. rewrite ?Hi, ?Ho. reflexivity.
    - norm. repeat split; auto.
      + intros h Hh. look. apply cell_drift_refl.
      + intros h Hh. assert (h = fresh s) as -> by lia. look. eauto. }
  destruct (state oc) eqn:Es; try discriminate Hr.
  set (sa := set_this
    (set_outputContext (Some (S (fresh s)))
       (set_inputContext (Some (fresh s)) (this s)))
    (set_fresh (S (S (fresh s)))
       (set_heap
          (<[S (fresh s):=NContext oc]> (<[fresh s:=NContext ic]> (heap s)))
          s))).
  assert (heap sa !! S (fresh s) = Some (NContext oc)) as Hoc
    by (unfold sa; norm; now look).
  destruct (resume_if_suspended_held _ _ _ Hoc) as (s1 & o1 & D1 & O1 & R1).
  rewrite Es, Hr in R1.
  exists s1, o1. split; [|split; [exact O1|]].
  - apply Hwrap. rewrite ?Hi, ?Ho. unfold new_AudioContext.
    do 5 (erewrite bind_step by reflexivity; cbv beta; norm).
    fold sa. rewrite (bind_throw _ _ _ _ _ _ R1). reflexivity.
  - destruct D1 as (T1 & F1 & N1 & H1). rewrite T1, F1. unfold sa at 1 2 3 4 5. norm.
    repeat split; auto.
    + intros h Hh. apply cell_drift_trans with (heap sa !! h); [|apply H1].
      unfold sa. norm. look. apply cell_drift_refl.
    + intros h Hh.
      assert (heap sa !! h = Some (NContext (if decide (h = fresh s) then ic else oc)) /\
              (Some (fresh s) = Some h \/ Some (S (fresh s)) = Some h)) as [Hc Hf].
      { unfold sa. norm. destruct (decide (h = fresh s)) as [->|Hne].
        - look. auto.
        - assert (h = S (fresh s)) as -> by lia. look. auto. }
      exists (if decide (h = fresh s) then ic else oc). split; [|exact Hf].
      specialize (H1 h). rewrite Hc in H1.
      apply cell_drift_plain in H1; [exact H1 | reflexivity].
Qed.

Lemma refusal_none env :
  refusal env = None ->
  exists ic oc, inputDevice env = inr ic /\ outputDevice env = inr oc /\
                (state oc = suspended -> resume_rejects oc = None).
Proof.
  unfold refusal. destruct (inputDevice env) as [e|ic]; [discriminate|].
  destruct (outputDevice env) as [e|oc]; [discriminate|].
  intros H. exists ic, oc. split; [reflexivity|]. split; [reflexivity|].
  intros Hs. now rewrite Hs in H.
Qed.

Lemma connect_outcome env s :
  result (connect env) s =
  match refusal env with None => Normal tt | Some e => Throw e end.
Proof.
  unfold result. destruct (refusal env) as [e|] eqn:Hr.
  - destruct (connect_refused env s e Hr) as (s1 & o & -> & _). reflexivity.
  - destruct (refusal_none env Hr) as (ic & oc & Hi & Ho & Hres).
    destruct (connect_succeeds env s ic oc Hi Ho Hres) as (s' & o & -> & _).
    reflexivity.
Qed.

Lemma statuses_mic_only o : mic_only o -> statuses o = [].
Proof.
  induction 1 as [|e o He _ IH]; [reflexivity|].
  destruct e; try discriminate. exact IH.
Qed.

Lemma closed_woken oc : set_state closed (woken oc) = set_state closed oc.
Proof. unfold woken. destruct oc as [st r rr]. destruct st; reflexivity. Qed.

(** X1.  When the browser hands out both audio contexts and the output
    context, if suspended, accepts resume(), connect() returns normally
    whether or not getUserMedia succeeds.  isMicEnabled() then tells
    whether it did, the only status notified is CONNECTING, onError is not
    called, and the session promise holds the session of the handshake. *)
Theorem microphone_is_optional (env : ConnectEnv) (s : Machine) :
  refusal env = None ->
  result (connect env) s = Normal tt /\
  result isMicEnabled (run (connect env) s)
    = Normal (match microphone env with None => true | Some _ => false end) /\
  statuses (output (connect env) s) = [CONNECTING] /\
  Forall (fun e => match e with ErrorEv _ => False | _ => True end)
         (output (connect env) s) /\
  exists p, sessionPromise (this (run (connect env) s)) = Some p /\
            heap (run (connect env) s) !! p = Some (NSession (channel env)).
Proof.
  intros Hr. destruct (refusal_none env Hr) as (ic & oc & Hi & Ho & Hres).
  destruct (connect_succeeds env s ic oc Hi Ho Hres)
    as (s' & o & E & Hmic & _ & Ht & _ & _ & _ & _ & _ & Hcells & _).
  unfold result, run, output, isMicEnabled, gets. rewrite E. cbn [fst snd].
  split; [reflexivity|]. rewrite Ht. unfold wired.
  split; [now destruct (microphone env)|].
  split; [simpl; now rewrite (statuses_mic_only _ Hmic)|].
  split.
  { constructor; [exact Logic.I|]. constructor; [exact Logic.I|].
    revert Hmic. apply Forall_impl. intros [ | | | | | | ]; simpl; auto; discriminate. }
  destruct (microphone env) as [e|]; simpl.
  - eexists. split; [reflexivity | exact Hcells].
  - eexists. split; [reflexivity | apply Hcells].
Qed.

Lemma microphone_is_optional_witness :
  refusal mic_denied = None /\
  result (connect mic_denied) (boot []) = Normal tt /\
  result isMicEnabled (run (connect mic_denied) (boot []))
    = Normal (match microphone mic_denied with None => true | Some _ => false end) /\
  statuses (output (connect mic_denied) (boot [])) = [CONNECTING] /\
  Forall (fun e => match e with ErrorEv _ => False | _ => True end)
         (output (connect mic_denied) (boot [])) /\
  exists p, sessionPromise (this (run (connect mic_denied) (boot []))) = Some p /\
            heap (run (connect mic_denied) (boot [])) !! p
              = Some (NSession (channel mic_denied)).
Proof.
  split; [reflexivity|].
  apply (microphone_is_optional mic_denied (boot [])). reflexivity.
Defined.

(** X2.  When connect() throws, the error is the browser's refusal of
    an audio context or the rejection of the output context's resume().
    The fields are then those of a torn-down manager, the statuses
    notified are CONNECTING, DISCONNECTED, ERROR in this order, onError got
    the message of the error, and every audio context the call created is
    closed. *)
Theorem failed_connect_releases_what_it_took
  (env : ConnectEnv) (s : Machine) (e : Error) :
  result (connect env) s = Throw e ->
  refusal env = Some e /\
  this (run (connect env) s) = torn_down (this s) /\
  statuses (output (connect env) s) = [CONNECTING; DISCONNECTED; ERROR] /\
  In (ErrorEv (message e)) (output (connect env) s) /\
  forall h c, heap s !! h = None ->
              heap (run (connect env) s) !! h = Some (NContext c) ->
              state c = closed.
Proof.
  intros Hres. rewrite connect_outcome in Hres.
  destruct (refusal env) as [e'|] eqn:Hr; [|discriminate].
  inversion Hres; subst e'. split; [reflexivity|].
  destruct (connect_refused env s e Hr)
    as (s1 & o & E & Hmic & Hia & Hoa & Hold & Hnew).
  unfold run at 1 2, output. rewrite E. cbn [fst snd].
  destruct (disconnect_heap s1) as (hp & Ed & W & _).
  split; [|split; [|split]].
  - unfold run. rewrite Ed. cbn [fst snd this set_this]. unfold torn_down.
    now rewrite Hia, Hoa.
  - simpl. rewrite statuses_app, (statuses_mic_only _ Hmic). reflexivity.
  - right. right. apply in_or_app. right. simpl. auto.
  - intros h c Hnone Hc.
    destruct (le_lt_dec (fresh s) h) as [Hge|Hlt];
      [destruct (le_lt_dec (fresh s1) h) as [Hge1|Hlt1]|].
    + specialize (Hold h (or_intror Hge1)). rewrite Hnone in Hold.
      destruct Hold as [H|(c0 & c1 & H & _)]; [|discriminate].
      destruct (W h) as [F|F]; unfold run in Hc; rewrite Ed in Hc;
        cbn [fst snd heap set_this set_heap] in Hc; rewrite F, H in Hc; discriminate.
    + destruct (Hnew h (conj Hge Hlt1)) as (c0 & Hc0 & Hheld).
      rewrite (disconnect_tears_down s1 h (NContext c0) Hc0) in Hc.
      * inversion Hc. reflexivity.
      * left. split; [exact Hheld | eauto].
    + specialize (Hold h (or_introl Hlt)). rewrite Hnone in Hold.
      destruct Hold as [H|(c0 & c1 & H & _)]; [|discriminate].
      destruct (W h) as [F|F]; unfold run in Hc; rewrite Ed in Hc;
        cbn [fst snd heap set_this set_heap] in Hc; rewrite F, H in Hc; discriminate.
Qed.

Lemma failed_connect_releases_what_it_took_witness :
  let e := new_Error "The number of hardware contexts has been reached" in
  result (connect half_audio) (boot []) = Throw e /\
  refusal half_audio = Some e /\
  this (run (connect half_audio) (boot [])) = torn_down (this (boot [])) /\
  statuses (output (connect half_audio) (boot [])) = [CONNECTING; DISCONNECTED; ERROR] /\
  In (ErrorEv (message e)) (output (connect half_audio) (boot [])) /\
  forall h c, heap (boot []) !! h = None ->
              heap (run (connect half_audio) (boot [])) !! h = Some (NContext c) ->
              state c = closed.
Proof.
  intros e.
  assert (result (connect half_audio) (boot []) = Throw e) as H by reflexivity.
  split; [exact H|].
  exact (failed_connect_releases_what_it_took half_audio (boot []) e H).
Defined.

(** X3.  After a connect() that returned normally and a disconnect(),
    the two audio contexts that connect() created are closed and, when the
    microphone was granted, the source node and the script processor it
    created are disconnected, the processor without its callback; close()
    was called on the session connect() opened, if its handshake resolved.
    (The MediaStream of getUserMedia is not an object of the model:
    nothing is said of its tracks, which disconnect() does not stop.) *)
Theorem connect_then_disconnect_releases_contexts_and_nodes
  (env : ConnectEnv) (s : Machine) :
  result (connect env) s = Normal tt ->
  exists ic oc p,
    inputDevice env = inr ic /\ outputDevice env = inr oc /\
    heap (run disconnect (run (connect env) s)) !! fresh s
      = Some (NContext (set_state closed ic)) /\
    heap (run disconnect (run (connect env) s)) !! S (fresh s)
      = Some (NContext (set_state closed oc)) /\
    (microphone env = None ->
     heap (run disconnect (run (connect env) s)) !! (4 + fresh s)%nat
       = Some (NSource (fresh s) false) /\
     heap (run disconnect (run (connect env) s)) !! (5 + fresh s)%nat
       = Some (NProcessor (fresh s) false false)) /\
    sessionPromise (this (run (connect env) s)) = Some p /\
    heap (run disconnect (run (connect env) s)) !! p
      = Some (NSession (closing (channel env))).
Proof.
  intros Hres. rewrite connect_outcome in Hres.
  destruct (refusal env) as [e'|] eqn:Hr; [discriminate|].
  destruct (refusal_none env Hr) as (ic & oc & Hi & Ho & Hok).
  destruct (connect_succeeds env s ic oc Hi Ho Hok)
    as (s' & o & E & Hmic & _ & Ht & Hf & C0 & C1 & C2 & C3 & Cm & Hold).
  assert (run (connect env) s = s') as -> by (unfold run; now rewrite E).
  destruct (disconnect_heap s') as (hp & Ed & W & Ks).
  assert (inputContext (this s') = Some (fresh s)) as I0
    by (rewrite Ht; unfold wired; now destruct (microphone env)).
  assert (outputContext (this s') = Some (S (fresh s))) as I1
    by (rewrite Ht; unfold wired; now destruct (microphone env)).
  pose proof (disconnect_tears_down s' (fresh s) (NContext ic) C0
                (or_introl (conj (or_introl I0) (ex_intro _ ic eq_refl)))) as K0.
  pose proof (disconnect_tears_down s' (S (fresh s)) (NContext (woken oc)) C1
                (or_introl (conj (or_intror I1) (ex_intro _ (woken oc) eq_refl)))) as K1.
  cbn [teardown] in K0, K1. rewrite closed_woken in K1.
  exists ic, oc, (match microphone env with None => 6 | Some _ => 4 end + fresh s)%nat.
  split; [exact Hi|]. split; [exact Ho|]. split; [exact K0|]. split; [exact K1|].
  split; [|split].
  - intros Hm. rewrite Hm in Cm, Ht. destruct Cm as (C4 & C5 & _).
    unfold wired in Ht.
    assert (inputSource (this s') = Some (4 + fresh s)%nat) as I4 by (now rewrite Ht).
    assert (scriptProcessor (this s') = Some (5 + fresh s)%nat) as I5 by (now rewrite Ht).
    split.
    + apply (disconnect_tears_down s' _ _ C4). right. right.
      split; [exact I4|]. eauto.
    + apply (disconnect_tears_down s' _ _ C5). right. left.
      split; [exact I5|]. eauto.
  - rewrite Ht. unfold wired. now destruct (microphone env).
  - unfold run. rewrite Ed. cbn [fst snd heap set_this set_heap].
    destruct (microphone env) as [em|].
    + rewrite (Ks _ _ Cm). rewrite Ht. unfold wired. simpl. now rewrite decide_True.
    + destruct Cm as (_ & _ & C6).
      rewrite (Ks _ _ C6). rewrite Ht. unfold wired. simpl. now rewrite decide_True.
Qed.

Lemma connect_then_disconnect_releases_contexts_and_nodes_witness :
  result (connect fine) connected = Normal tt /\
  exists ic oc p,
    inputDevice fine = inr ic /\ outputDevice fine = inr oc /\
    heap (run disconnect (run (connect fine) connected)) !! fresh connected
      = Some (NContext (set_state closed ic)) /\
    heap (run disconnect (run (connect fine) connected)) !! S (fresh connected)
      = Some (NContext (set_state closed oc)) /\
    (microphone fine = None ->
     heap (run disconnect (run (connect fine) connected)) !! (4 + fresh connected)%nat
       = Some (NSource (fresh connected) false) /\
     heap (run disconnect (run (connect fine) connected)) !! (5 + fresh connected)%nat
       = Some (NProcessor (fresh connected) false false)) /\
    sessionPromise (this (run (connect fine) connected)) = Some p /\
    heap (run disconnect (run (connect fine) connected)) !! p
      = Some (NSession (closing (channel fine))).
Proof.
  assert (result (connect fine) connected = Normal tt) as H
    by (vm_compute; reflexivity).
  split; [exact H|].
  exact (connect_then_disconnect_releases_contexts_and_nodes fine connected H).
Defined.

(** X4.  The capture callback never throws and never changes a field
    of the manager; it writes nothing, or exactly one microphone blob with
    the frame it was given. *)
Theorem capture_callback_never_throws (inputData : samples) (s : Machine) :
  result (onaudioprocess inputData) s = Normal tt /\
  this (run (onaudioprocess inputData) s) = this s /\
  (output (onaudioprocess inputData) s = [] \/
   exists h rate,
     output (onaudioprocess inputData) s = [Sent (now s) h (MicBlob inputData rate)]).
Proof.
  destruct (onaudioprocess_cases inputData s) as (s' & o & E & (T & _) & _ & _ & Ho).
  unfold result, run, output. rewrite E. cbn [fst snd]. auto.
Qed.

(** X5.  On a session whose handshake resolved and that accepts sends,
    with an input context and no upload in progress, the capture callback
    forwards the frame: one microphone message with the frame, at the
    sample rate of the input context, and the machine is as before. *)
Theorem mic_frame_forwarded_when_idle
  (inputData : samples) (s : Machine) (h ic : handle) (c : AudioContext) :
  healthy h s ->
  inputContext (this s) = Some ic ->
  heap s !! ic = Some (NContext c) ->
  isProcessingFile (this s) = false ->
  onaudioprocess inputData s =
    (Normal tt, s, [Sent (now s) h (MicBlob inputData (sampleRate c))]).
Proof.
  intros Hh Hic Hc Hf. unfold onaudioprocess.
  rewrite (bind_silent _ _ s (this s) s) by reflexivity.
  destruct Hh as [Hp Hs]. rewrite Hp, Hic, Hf.
  assert (sampleRate_of ic s = (Normal (sampleRate c), s, [])) as Hr.
  { unfold sampleRate_of. rewrite (bind_silent _ _ s (heap s !! ic) s) by reflexivity.
    now rewrite Hc. }
  rewrite (bind_silent _ _ _ _ _ Hr).
  rewrite (then_healthy h) by (split; assumption).
  unfold try_catch. now rewrite (send_healthy h) by (split; assumption).
Qed.

Lemma mic_frame_forwarded_when_idle_witness :
  healthy 6 connected /\
  inputContext (this connected) = Some 0%nat /\
  heap connected !! 0%nat = Some (NContext a_context) /\
  isProcessingFile (this connected) = false /\
  onaudioprocess a_clip connected =
    (Normal tt, connected,
     [Sent (now connected) 6%nat (MicBlob a_clip (sampleRate a_context))]).
Proof.
  assert (heap connected !! 0%nat = Some (NContext a_context)) as H
    by (vm_compute; reflexivity).
  split; [exact healthy_connected|]. split; [reflexivity|]. split; [exact H|].
  split; [reflexivity|].
  exact (mic_frame_forwarded_when_idle a_clip connected 6%nat 0%nat a_context
           healthy_connected eq_refl H eq_refl).
Defined.

Lemma disconnected_this s : this (run disconnect s) = torn_down (this s).
Proof. unfold run. destruct (disconnect_spec s) as [hp ->]. reflexivity. Qed.

(** X6.  After disconnect() a microphone frame is dropped, a message
    of the server is ignored (no text, no playback), sendAudioFile throws
    "Session not active" having sent nothing, and isMicEnabled() is
    false; none of the three changes the machine. *)
Theorem nothing_happens_after_disconnect
  (s : Machine) (f : handle * samples) (msg : LiveServerMessage) (file : Upload) :
  fire f (run disconnect s) = (Normal tt, run disconnect s, []) /\
  handleMessage msg (run disconnect s) = (Normal tt, run disconnect s, []) /\
  sendAudioFile file (run disconnect s) =
    (Throw (new_Error "Session not active"), run disconnect s, []) /\
  result isMicEnabled (run disconnect s) = Normal false.
Proof.
  pose proof (disconnected_this s) as Ht.
  split; [|split; [|split]].
  - unfold fire. rewrite (bind_silent _ _ _ (heap (run disconnect s) !! f.1) _)
      by reflexivity.
    destruct (heap (run disconnect s) !! f.1) as [[ | | |ctx cn [|]| | ]|];
      try reflexivity.
    unfold onaudioprocess. rewrite (bind_silent _ _ _ (this (run disconnect s)) _)
      by reflexivity.
    now rewrite Ht.
  - apply handleMessage_no_context. now rewrite Ht.
  - unfold sendAudioFile, prepare_upload.
    rewrite (bind_throw _ _ _ (new_Error "Session not active") (run disconnect s) []);
      [reflexivity|].
    rewrite (bind_silent _ _ _ (this (run disconnect s)) _) by reflexivity.
    now rewrite Ht.
  - unfold result, isMicEnabled, gets. simpl. now rewrite Ht.
Qed.

(** X7.  A second disconnect() changes nothing: it notifies
    DISCONNECTED again and leaves the machine as the first one left it. *)
Theorem disconnect_is_idempotent (s : Machine) :
  disconnect (run disconnect s) =
    (Normal tt, run disconnect s, [Enter CDisconnect; Status DISCONNECTED]).
Proof.
  unfold run at 1 2. destruct (disconnect_spec s) as [hp ->]. cbn [fst snd].
  destruct s as [m hp0 f n ts]. reflexivity.
Qed.

(** X8.  disconnect() calls close() on the session the manager holds
    when its handshake resolved, leaves a session whose handshake rejected
    as it is, and touches no other session. *)
Theorem disconnect_closes_the_session (s : Machine) (p : handle) (c : Session) :
  sessionPromise (this s) = Some p ->
  heap s !! p = Some (NSession c) ->
  heap (run disconnect s) !! p =
    Some (NSession (match handshake c with
                    | None => set_close_called true c
                    | Some _ => c
                    end)) /\
  forall h c', h <> p -> heap s !! h = Some (NSession c') ->
               heap (run disconnect s) !! h = Some (NSession c').
Proof.
  intros Hp Hc. destruct (disconnect_heap s) as (hp & Ed & _ & K).
  unfold run. rewrite Ed. cbn [fst snd heap set_this set_heap]. split.
  - rewrite (K p c Hc), Hp. now rewrite decide_True.
  - intros h c' Hne Hc'. rewrite (K h c' Hc'), Hp.
    rewrite decide_False; [reflexivity | congruence].
Qed.

Lemma disconnect_closes_the_session_witness :
  sessionPromise (this connected) = Some 6%nat /\
  heap connected !! 6%nat = Some (NSession a_channel) /\
  heap (run disconnect connected) !! 6%nat =
    Some (NSession (match handshake a_channel with
                    | None => set_close_called true a_channel
                    | Some _ => a_channel
                    end)) /\
  forall h c', h <> 6%nat -> heap connected !! h = Some (NSession c') ->
               heap (run disconnect connected) !! h = Some (NSession c').
Proof.
  assert (heap connected !! 6%nat = Some (NSession a_channel)) as H
    by (vm_compute; reflexivity).
  split; [reflexivity|]. split; [exact H|].
  exact (disconnect_closes_the_session connected 6%nat a_channel eq_refl H).
Defined.

(** ** The scheduler *)

Lemma texts_app a b : texts (a ++ b) = texts a ++ texts b.
Proof. apply flat_map_app. Qed.

Lemma part_texts oc c p :
  texts (snd (part_events oc c p)) =
  match text p with
  | Some t => if String.eqb t "" then [] else [t]
  | None => []
  end.
Proof.
  unfold part_events, audio_events, text_events.
  destruct (inlineData p) as [a|]; [destruct (decoded a)|];
    destruct (text p) as [t|]; try destruct (String.eqb t ""); reflexivity.
Qed.

Lemma parts_texts oc ps : forall c,
  texts (snd (parts_events oc c ps)) =
  flat_map (fun p => match text p with
                     | Some t => if String.eqb t "" then [] else [t]
                     | None => []
                     end) ps.
Proof.
  induction ps as [|p ps IH]; intros c; simpl; [reflexivity|].
  pose proof (part_texts oc c p) as Hp.
  destruct (part_events oc c p) as [c1 o1]. simpl in Hp.
  specialize (IH c1). destruct (parts_events oc c1 ps) as [c2 o2]. simpl in *.
  now rewrite texts_app, Hp, IH.
Qed.

(** X9.  With an output context, handleMessage hands to
    onTextReceived the non-empty texts of the parts of the message, each
    once and in the order of the parts, whether or not the audio of a part
    decodes and whether or not the message is an interruption. *)
Theorem texts_are_delivered_in_order
  (msg : LiveServerMessage) (s : Machine) (oc : handle) :
  outputContext (this s) = Some oc ->
  texts (output (handleMessage msg) s) = spoken msg.
Proof.
  intros Hoc. unfold output. rewrite (handleMessage_events oc) by exact Hoc.
  cbn [snd]. unfold message_events, spoken.
  pose proof (parts_texts oc (parts msg) (nextStartTime (this s))) as H.
  destruct (parts_events oc (nextStartTime (this s)) (parts msg)) as [c o].
  simpl in H. destruct (interrupted msg); simpl.
  - rewrite texts_app, H. simpl. apply List.app_nil_r.
  - exact H.
Qed.


Lemma texts_are_delivered_in_order_witness :
  outputContext (this connected) = Some 1%nat /\
  texts (output (handleMessage duet) connected) = spoken duet.
Proof.
  split; [reflexivity|].
  exact (texts_are_delivered_in_order duet connected 1%nat eq_refl).
Defined.

Open Scope Q_scope.

Lemma part_not_in_the_past oc c p :
  Forall not_in_the_past (snd (part_events oc c p)).
Proof.
  unfold part_events, audio_events, text_events.
  destruct (inlineData p) as [a|]; [destruct (decoded a)|];
    destruct (text p) as [t|]; try destruct (String.eqb t ""); simpl;
    repeat constructor; simpl; try apply Q.le_max_r.
Qed.

Lemma parts_not_in_the_past oc ps : forall c,
  Forall not_in_the_past (snd (parts_events oc c ps)).
Proof.
  induction ps as [|p ps IH]; intros c; simpl; [constructor|].
  pose proof (part_not_in_the_past oc c p) as Hp.
  destruct (part_events oc c p) as [c1 o1]. simpl in Hp.
  specialize (IH c1). destruct (parts_events oc c1 ps) as [c2 o2]. simpl in *.
  apply Forall_app. now split.
Qed.

Lemma message_not_in_the_past oc msg c :
  Forall not_in_the_past (snd (message_events oc c msg)).
Proof.
  unfold message_events.
  pose proof (parts_not_in_the_past oc (parts msg) c) as H.
  destruct (parts_events oc c (parts msg)) as [c1 o1]. simpl in H.
  destruct (interrupted msg); simpl; [|exact H].
  apply Forall_app. split; [exact H | repeat constructor].
Qed.

Lemma messages_not_in_the_past oc msgs : forall c,
  Forall not_in_the_past (snd (messages_events oc c msgs)).
Proof.
  induction msgs as [|msg msgs IH]; intros c; simpl; [constructor|].
  pose proof (message_not_in_the_past oc msg c) as Hp.
  destruct (message_events oc c msg) as [c1 o1]. simpl in Hp.
  specialize (IH c1). destruct (messages_events oc c1 msgs) as [c2 o2]. simpl in *.
  apply Forall_app. now split.
Qed.

(** X10.  Over any sequence of messages, from any state, every
    playback is started at or after the reading of the audio clock taken
    for it. *)
Theorem playback_never_starts_in_the_past
  (msgs : list LiveServerMessage) (s : Machine) :
  Forall not_in_the_past (output (forM_ handleMessage msgs) s).
Proof.
  unfold output. destruct (outputContext (this s)) as [oc|] eqn:Hoc.
  - rewrite (handleMessages_events oc) by exact Hoc. apply messages_not_in_the_past.
  - rewrite messages_without_context by exact Hoc. constructor.
Qed.

Close Scope Q_scope.

Lemma part_from_scheduler oc c p :
  Forall from_scheduler (snd (part_events oc c p)).
Proof.
  unfold part_events, audio_events, text_events.
  destruct (inlineData p) as [a|]; [destruct (decoded a)|];
    destruct (text p) as [t|]; try destruct (String.eqb t ""); simpl;
    repeat constructor.
Qed.

Lemma parts_from_scheduler oc ps : forall c,
  Forall from_scheduler (snd (parts_events oc c ps)).
Proof.
  induction ps as [|p ps IH]; intros c; simpl; [constructor|].
  pose proof (part_from_scheduler oc c p) as Hp.
  destruct (part_events oc c p) as [c1 o1]. simpl in Hp.
  specialize (IH c1). destruct (parts_events oc c1 ps) as [c2 o2]. simpl in *.
  apply Forall_app. now split.
Qed.

(** X11.  handleMessage never throws; of the machine it changes only
    the playback cursor; it writes only texts, playback starts and the
    interruption marker: no status, no error, nothing on the channel. *)
Theorem handleMessage_moves_only_the_cursor (msg : LiveServerMessage) (s : Machine) :
  result (handleMessage msg) s = Normal tt /\
  (exists cursor, run (handleMessage msg) s = with_cursor cursor s) /\
  Forall from_scheduler (output (handleMessage msg) s).
Proof.
  unfold result, run, output. destruct (outputContext (this s)) as [oc|] eqn:Hoc.
  - rewrite (handleMessage_events oc) by exact Hoc. cbn [fst snd].
    split; [reflexivity|]. split; [eexists; reflexivity|].
    unfold message_events.
    pose proof (parts_from_scheduler oc (parts msg) (nextStartTime (this s))) as H.
    destruct (parts_events oc (nextStartTime (this s)) (parts msg)) as [c1 o1].
    simpl in H. destruct (interrupted msg); simpl; [|exact H].
    apply Forall_app. split; [exact H | repeat constructor].
  - rewrite handleMessage_no_context by exact Hoc. cbn [fst snd].
    split; [reflexivity|]. split; [|constructor].
    exists (nextStartTime (this s)). now rewrite with_cursor_same.
Qed.

(** X12.  In a message that has parts and the interruption flag, the
    parts are handled first, exactly as without the flag, and the
    interruption after them: audio of the message itself is still started,
    and the cursor ends at 0. *)
Theorem interruption_comes_after_the_parts
  (msg : LiveServerMessage) (s : Machine) (oc : handle) :
  outputContext (this s) = Some oc ->
  interrupted msg = true ->
  output (handleMessage msg) s =
    output (handleMessage (without_interruption msg)) s ++ [Interrupted] /\
  nextStartTime (this (run (handleMessage msg) s)) = 0%Q.
Proof.
  intros Hoc Hi. unfold output, run.
  rewrite !(handleMessage_events oc) by exact Hoc. cbn [fst snd].
  unfold message_events, without_interruption. cbn [parts interrupted].
  rewrite Hi.
  destruct (parts_events oc (nextStartTime (this s)) (parts msg)) as [c o].
  split; reflexivity.
Qed.

Lemma interruption_comes_after_the_parts_witness :
  outputContext (this connected) = Some 1%nat /\
  interrupted duet = true /\
  output (handleMessage duet) connected =
    output (handleMessage (without_interruption duet)) connected ++ [Interrupted] /\
  nextStartTime (this (run (handleMessage duet) connected)) = 0%Q.
Proof.
  split; [reflexivity|]. split; [reflexivity|].
  exact (interruption_comes_after_the_parts duet connected 1%nat eq_refl eq_refl).
Defined.

(** ** The upload job *)

Lemma frames_muted fs s : muted s -> forM_ fire fs s = (Normal tt, s, []).
Proof.
  intros Hm. induction fs as [|f fs IH]; simpl; [reflexivity|].
  unfold bind. now rewrite (fire_muted f s Hm), IH.
Qed.

Lemma await_muted s :
  muted s ->
  exists s', await_ s = (Normal tt, s', []) /\
             this s' = this s /\ heap s' = heap s /\ fresh s' = fresh s.
Proof.
  intros Hm. unfold await_. destruct (ticks s) as [|t rest].
  - exists s. auto.
  - rewrite frames_muted by exact Hm. eexists. split; [reflexivity|]. auto.
Qed.

Lemma woke_refl s : woke s s.
Proof. intros h. now left. Qed.

Lemma woke_heap s s' : heap s' = heap s -> woke s s'.
Proof. intros E h. left. now rewrite E. Qed.

Lemma woke_session s s' h c :
  woke s s' -> heap s !! h = Some (NSession c) -> heap s' !! h = Some (NSession c).
Proof.
  intros W Hc. destruct (W h) as [E|(c0 & E0 & _)]; [now rewrite E | congruence].
Qed.

Lemma woke_wakes ctx s s' : woke s s' -> wakes ctx s -> wakes ctx s'.
Proof.
  intros H Hw h c Hctx Hc Hs. destruct (H h) as [E|(c0 & E0 & E1)].
  - rewrite E in Hc. eauto.
  - rewrite E1 in Hc. inversion Hc; subst c. discriminate.
Qed.

Lemma resume_if_suspended_muted ctx s :
  muted s ->
  (wakes ctx s ->
   exists s', resume_if_suspended ctx s = (Normal tt, s', []) /\
              this s' = this s /\ fresh s' = fresh s /\ woke s s' /\
              forall h, ctx <> Some h -> heap s' !! h = heap s !! h) /\
  (forall e, stuck ctx s e ->
   exists s', resume_if_suspended ctx s = (Throw e, s', []) /\
              this s' = this s).
Proof.
  intros Hm.
  destruct ctx as [p|].
  2: { split.
       - intros _. exists s. split; [reflexivity|]. split; [reflexivity|].
         split; [reflexivity|]. split; [apply woke_refl | auto].
       - intros e (h & c & E & _). discriminate. }
  unfold resume_if_suspended.
  assert (state_of p s =
          (Normal (match heap s !! p with
                   | Some (NContext c) => Some (state c)
                   | _ => None
                   end), s, [])) as Hst.
  { unfold state_of. rewrite (bind_silent _ _ s (heap s !! p) s) by reflexivity.
    now destruct (heap s !! p) as [[ | | | | | ]|]. }
  rewrite (bind_silent _ _ _ _ _ Hst).
  destruct (heap s !! p) as [[c| | | | | ]|] eqn:Hp;
    try (split; [intros _; exists s; split; [reflexivity|]; split; [reflexivity|];
                 split; [reflexivity|]; split; [apply woke_refl | auto]
                |intros e (h & c' & E & Hc & _); inversion E; subst h; congruence]).
  destruct (state c) eqn:Es;
    try (split; [intros _; exists s; split; [reflexivity|]; split; [reflexivity|];
                 split; [reflexivity|]; split; [apply woke_refl | auto]
                |intros e (h & c' & E & Hc & Hs & _); inversion E; subst h;
                 rewrite Hp in Hc; inversion Hc; subst c'; congruence]).
  destruct (await_muted s Hm) as (s1 & Ha & T1 & H1 & F1).
  unfold resume. rewrite (bind_step _ _ _ _ _ _ Ha).
  rewrite (bind_silent _ _ s1 (heap s1 !! p) s1) by reflexivity.
  rewrite H1, Hp. split.
  - intros Hw. rewrite (Hw p c eq_refl Hp Es). eexists. split; [reflexivity|].
    split; [exact T1|]. split; [exact F1|]. split.
    + intros h. simpl. rewrite H1.
      destruct (decide (p = h)) as [->|Hne].
      * right. exists c. now rewrite lookup_insert_eq.
      * left. now rewrite lookup_insert_ne.
    + intros h Hne. simpl. rewrite H1. rewrite lookup_insert_ne; [reflexivity | congruence].
  - intros e (h & c' & E & Hc & Hs & Hr). inversion E; subst h.
    rewrite Hp in Hc. inversion Hc; subst c'. rewrite Hr.
    eexists. split; [reflexivity | exact T1].
Qed.

Lemma muted_this s s' : this s' = this s -> muted s -> muted s'.
Proof. unfold muted. now intros ->. Qed.

Lemma decode_and_resample_muted r s :
  muted s ->
  exists s', this s' = this s /\ heap s' = heap s /\ fresh s' = fresh s /\
    decode_and_resample r s =
    match r with
    | inl e => (Throw e, s', [])
    | inr d => (Normal d, s', [])
    end.
Proof.
  intros Hm. unfold decode_and_resample.
  destruct (await_muted s Hm) as (s1 & A1 & T1 & H1 & F1).
  assert (muted s1) as Hm1 by (now apply (muted_this s)).
  destruct (await_muted s1 Hm1) as (s2 & A2 & T2 & H2 & F2).
  assert (muted s2) as Hm2 by (now apply (muted_this s1)).
  rewrite (bind_step _ _ _ _ _ _ A1), (bind_step _ _ _ _ _ _ A2).
  destruct r as [e|d].
  - exists s2. repeat split; congruence.
  - destruct (await_muted s2 Hm2) as (s3 & A3 & T3 & H3 & F3).
    rewrite (bind_step _ _ _ _ _ _ A3). exists s3. repeat split; congruence.
Qed.

(** The preamble of sendAudioFile when nothing rejects: it gets to the
    decoding, writes nothing, and ends with the buffer or with the error
    of the decoding [catch]. *)
Lemma prepare_upload_decodes file s p :
  sessionPromise (this s) = Some p ->
  wakes (outputContext (this s)) s ->
  wakes (inputContext (this s)) s ->
  (inputContext (this s) = None -> exists c, fallbackContext file = inr c) ->
  exists s',
    prepare_upload file s =
    match decoding file with
    | inl e =>
        (Throw (new_Error (String.append "Failed to decode audio file: " (message e))),
         set_this (set_isProcessingFile false (this s)) s', [])
    | inr d => (Normal (normalize d), s', [])
    end /\
    this s' = set_isProcessingFile true (this s) /\
    (fresh s <= fresh s')%nat /\
    forall h c, (h < fresh s)%nat -> heap s !! h = Some (NSession c) ->
                heap s' !! h = Some (NSession c).
Proof.
  intros Hp Hwo Hwi Hfb.
  destruct (prepare_upload file s) as [[r s'] o] eqn:E.
  unfold prepare_upload in E.
  rewrite (bind_silent _ _ s (this s) s) in E by reflexivity. rewrite Hp in E.
  step_in E.
  set (s1 := set_this (set_isProcessingFile true (this s)) s) in *.
  assert (muted s1) as Hm1 by reflexivity.
  assert (woke s s1) as W1 by (now apply woke_heap).
  destruct (resume_if_suspended_muted (outputContext (this s)) s1 Hm1) as [Hok _].
  destruct (Hok (woke_wakes _ _ _ W1 Hwo)) as (s2 & R2 & T2 & F2 & W2 & _).
  rewrite (bind_step _ _ _ _ _ _ R2) in E.
  rewrite (bind_silent _ _ s2 (this s2) s2) in E by reflexivity.
  assert (muted s2) as Hm2 by (now apply (muted_this s1)).
  assert (inputContext (this s2) = inputContext (this s)) as Hi2 by (now rewrite T2).
  rewrite Hi2 in E.
  destruct (resume_if_suspended_muted (inputContext (this s)) s2 Hm2) as [Hok2 _].
  destruct (Hok2 (woke_wakes _ _ _ W2 (woke_wakes _ _ _ W1 Hwi)))
    as (s3 & R3 & T3 & F3 & W3 & _).
  rewrite (bind_step _ _ _ _ _ _ R3) in E.
  rewrite (bind_silent _ _ s3 (this s3) s3) in E by reflexivity.
  assert (inputContext (this s3) = inputContext (this s)) as Hi3 by (now rewrite T3, T2).
  rewrite Hi3 in E.
  assert (exists (decodeCtx : handle) s4,
            match inputContext (this s) with
            | Some c => ret c
            | None => new_AudioContext (fallbackContext file)
            end s3 = (Normal decodeCtx, s4, []) /\ this s4 = this s3 /\
            (fresh s3 <= fresh s4)%nat /\
            forall h, (h < fresh s3)%nat -> heap s4 !! h = heap s3 !! h)
    as (decodeCtx & s4 & R4 & T4 & F4 & H4).
  { destruct (inputContext (this s)) as [c|].
    - exists c, s3. repeat split; auto.
    - destruct (Hfb eq_refl) as [c ->]. eexists _, _. split; [reflexivity|].
      split; [reflexivity|]. split; [simpl; lia|].
      intros h Hh. simpl. now rewrite lookup_insert_ne by lia. }
  rewrite (bind_step _ _ _ _ _ _ R4) in E.
  assert (muted s4) as Hm4 by (apply (muted_this s3); [exact T4 | now apply (muted_this s2)]).
  destruct (decode_and_resample_muted (decoding file) s4 Hm4)
    as (s5 & T5 & H5 & F5 & R5).
  assert (this s5 = set_isProcessingFile true (this s)) as Ht5
    by (rewrite T5, T4, T3, T2; reflexivity).
  assert ((fresh s <= fresh s5)%nat) as Hf5.
  { rewrite F5. assert (fresh s3 = fresh s) as <- by (rewrite F3, F2; reflexivity).
    exact F4. }
  assert (forall h c, (h < fresh s)%nat -> heap s !! h = Some (NSession c) ->
                      heap s5 !! h = Some (NSession c)) as Hs5.
  { intros h c Hh Hc. rewrite H5, H4 by (rewrite F3, F2; exact Hh).
    apply (woke_session s2 s3 h c W3), (woke_session s1 s2 h c W2),
      (woke_session s s1 h c W1), Hc. }
  unfold try_catch in E.
  destruct (decoding file) as [e|d].
  - rewrite (bind_throw _ _ _ _ _ _ R5) in E. cbn in E.
    exists s5. split; [|auto]. rewrite Ht5 in E. cbn in E.
    inversion E. reflexivity.
  - rewrite (bind_step _ _ _ _ _ _ R5) in E. cbn in E.
    exists s5. split; [|auto]. inversion E. reflexivity.
Qed.

(** X13.  On a manager that holds a session, when the contexts can be
    resumed, there is a context to decode with, and the file cannot be
    decoded, sendAudioFile throws "Failed to decode audio file: " followed
    by the decoder's message, writes nothing, and ends with isProcessingFile
    false and every other field as before. *)
Theorem decode_failure_ends_the_job
  (file : Upload) (s : Machine) (p : handle) (e : Error) :
  sessionPromise (this s) = Some p ->
  wakes (outputContext (this s)) s ->
  wakes (inputContext (this s)) s ->
  (inputContext (this s) = None -> exists c, fallbackContext file = inr c) ->
  decoding file = inl e ->
  result (sendAudioFile file) s =
    Throw (new_Error (String.append "Failed to decode audio file: " (message e))) /\
  output (sendAudioFile file) s = [] /\
  this (run (sendAudioFile file) s) = set_isProcessingFile false (this s).
Proof.
  intros Hp Hwo Hwi Hfb Hd.
  destruct (prepare_upload_decodes file s p Hp Hwo Hwi Hfb) as (s' & E & _).
  rewrite Hd in E.
  unfold result, output, run, sendAudioFile.
  rewrite (bind_throw _ _ _ _ _ _ E). repeat split.
Qed.

Lemma wakes_running ctx s :
  (forall h c, ctx = Some h -> heap s !! h = Some (NContext c) -> state c = running) ->
  wakes ctx s.
Proof. intros H h c Hctx Hc Hs. rewrite (H h c Hctx Hc) in Hs. discriminate. Qed.

Lemma connected_wakes_output : wakes (outputContext (this connected)) connected.
Proof.
  apply wakes_running. intros h c E.
  assert (h = 1%nat) as -> by (vm_compute in E; congruence).
  assert (heap connected !! 1%nat = Some (NContext a_context)) as ->
    by (vm_compute; reflexivity).
  intros H. now inversion H.
Qed.

Lemma connected_wakes_input : wakes (inputContext (this connected)) connected.
Proof.
  apply wakes_running. intros h c E.
  assert (h = 0%nat) as -> by (vm_compute in E; congruence).
  assert (heap connected !! 0%nat = Some (NContext a_context)) as ->
    by (vm_compute; reflexivity).
  intros H. now inversion H.
Qed.

Lemma decode_failure_ends_the_job_witness :
  let e := {| name := "EncodingError"; message := "Unable to decode audio data" |} in
  sessionPromise (this connected) = Some 6%nat /\
  wakes (outputContext (this connected)) connected /\
  wakes (inputContext (this connected)) connected /\
  (inputContext (this connected) = None -> exists c, fallbackContext noise = inr c) /\
  decoding noise = inl e /\
  result (sendAudioFile noise) connected =
    Throw (new_Error (String.append "Failed to decode audio file: " (message e))) /\
  output (sendAudioFile noise) connected = [] /\
  this (run (sendAudioFile noise) connected) = set_isProcessingFile false (this connected).
Proof.
  intros e.
  assert (inputContext (this connected) = None ->
          exists c, fallbackContext noise = inr c) as Hfb
    by (intros _; exists a_context; reflexivity).
  split; [reflexivity|]. split; [exact connected_wakes_output|].
  split; [exact connected_wakes_input|]. split; [exact Hfb|]. split; [reflexivity|].
  exact (decode_failure_ends_the_job noise connected 6%nat e eq_refl
           connected_wakes_output connected_wakes_input Hfb eq_refl).
Defined.

(** X14.  When resume() of the output context, or of the input
    context, rejects at the start of sendAudioFile, the job throws that
    error and writes nothing, and isProcessingFile stays true: the flag is
    set before the resume, and the rejection is outside the try blocks that
    clear it. *)
Theorem rejected_resume_leaves_the_mic_muted
  (file : Upload) (s : Machine) (p : handle) (e : Error) :
  sessionPromise (this s) = Some p ->
  stuck (outputContext (this s)) s e \/
  (wakes (outputContext (this s)) s /\ stuck (inputContext (this s)) s e) ->
  result (sendAudioFile file) s = Throw e /\
  output (sendAudioFile file) s = [] /\
  this (run (sendAudioFile file) s) = set_isProcessingFile true (this s).
Proof.
  intros Hp Hcase.
  assert (exists s', prepare_upload file s = (Throw e, s', []) /\
                     this s' = set_isProcessingFile true (this s)) as (s' & E & T).
  { unfold prepare_upload.
    rewrite (bind_silent _ _ s (this s) s) by reflexivity. rewrite Hp.
    erewrite bind_step by reflexivity. cbv beta.
    set (s1 := set_this (set_isProcessingFile true (this s)) s).
    assert (muted s1) as Hm1 by reflexivity.
    destruct (resume_if_suspended_muted (outputContext (this s)) s1 Hm1) as [Hok Hko].
    destruct Hcase as [Hs|[Hw Hs]].
    - destruct (Hko e Hs) as (s2 & R2 & T2).
      rewrite (bind_throw _ _ _ _ _ _ R2). exists s2. split; [reflexivity | exact T2].
    - destruct (Hok Hw) as (s2 & R2 & T2 & _ & W2 & Hother).
      rewrite (bind_step _ _ _ _ _ _ R2).
      rewrite (bind_silent _ _ s2 (this s2) s2) by reflexivity.
      assert (muted s2) as Hm2 by (now apply (muted_this s1)).
      assert (inputContext (this s2) = inputContext (this s)) as -> by (now rewrite T2).
      destruct (resume_if_suspended_muted (inputContext (this s)) s2 Hm2) as [_ Hko2].
      assert (stuck (inputContext (this s)) s2 e) as Hs2.
      { destruct Hs as (h & c & Hctx & Hc & Hst & Hr). exists h, c.
        split; [exact Hctx|]. split; [|now split].
        rewrite Hother; [exact Hc|].
        intros Eo. specialize (Hw h c Eo Hc Hst). congruence. }
      destruct (Hko2 e Hs2) as (s3 & R3 & T3).
      rewrite (bind_throw _ _ _ _ _ _ R3). exists s3.
      split; [reflexivity|]. now rewrite T3, T2. }
  unfold result, output, run, sendAudioFile.
  rewrite (bind_throw _ _ _ _ _ _ E). cbn [fst snd]. auto.
Qed.

Lemma rejected_resume_leaves_the_mic_muted_witness :
  let e := {| name := "InvalidStateError"; message := "cannot resume" |} in
  sessionPromise (this dozing) = Some 6%nat /\
  (stuck (outputContext (this dozing)) dozing e \/
   (wakes (outputContext (this dozing)) dozing /\
    stuck (inputContext (this dozing)) dozing e)) /\
  result (sendAudioFile (clip_with fine)) dozing = Throw e /\
  output (sendAudioFile (clip_with fine)) dozing = [] /\
  this (run (sendAudioFile (clip_with fine)) dozing) =
    set_isProcessingFile true (this dozing).
Proof.
  intros e.
  assert (stuck (outputContext (this dozing)) dozing e \/
          (wakes (outputContext (this dozing)) dozing /\
           stuck (inputContext (this dozing)) dozing e)) as H.
  { right. split.
    - apply wakes_running. intros h c E.
      assert (h = 1%nat) as -> by (vm_compute in E; congruence).
      assert (heap dozing !! 1%nat = Some (NContext a_context)) as ->
        by (vm_compute; reflexivity).
      intros H. now inversion H.
    - exists 0%nat, asleep. split; [reflexivity|].
      split; [vm_compute; reflexivity|]. split; reflexivity. }
  split; [reflexivity|]. split; [exact H|].
  exact (rejected_resume_leaves_the_mic_muted (clip_with fine) dozing 6%nat e eq_refl H).
Defined.


(** X15.  When the streaming pass of a decoded file fails with an
    error whose message is not classified as transient, sendAudioFile
    rethrows that error: streamAudioData ran once, neither disconnect() nor
    connect() was called, no status was notified, and isProcessingFile is
    false at the end. *)
Theorem hard_failure_is_not_retried
  (file : Upload) (s0 s s1 : Machine) (data : samples) (e : Error)
  (o0 o1 : list event) :
  prepare_upload file s0 = (Normal data, s, o0) ->
  streamAudioData data s = (Throw e, s1, o1) ->
  isTransient (message e) = false ->
  sendAudioFile file s0 =
    (Throw e, set_this (set_isProcessingFile false (this s1)) s1, o0 ++ o1) /\
  calls (o0 ++ o1) = [CStream data] /\
  statuses (o0 ++ o1) = [].
Proof.
  intros Hp Hs Ht. split.
  - unfold sendAudioFile. rewrite (bind_step _ _ _ _ _ _ Hp).
    unfold stream_with_retry, try_finally, try_catch. rewrite Hs, Ht.
    unfold throw, assign, modify. now rewrite !List.app_nil_r.
  - destruct (prepare_upload_sends file s0 Logic.I) as [_ Ho0].
    unfold output in Ho0. rewrite Hp in Ho0. cbn [snd] in Ho0.
    destruct (streamAudioData_sends data s) as (r & s' & o & Hs' & Ho).
    rewrite Hs in Hs'. inversion Hs'; subst.
    rewrite calls_app, statuses_app, (calls_sends _ Ho0), (statuses_sends _ Ho0).
    simpl. now rewrite (calls_sends _ Ho), (statuses_sends _ Ho).
Qed.

Lemma hard_failure_is_not_retried_witness :
  let file := clip_with fine in
  let s0 := on_throttled_channel in
  let data := normalize a_clip in
  let s := run (prepare_upload file) s0 in
  let o0 := output (prepare_upload file) s0 in
  let e := new_Error "Failed to send chunk: Error: quota exceeded" in
  let s1 := run (streamAudioData data) s in
  let o1 := output (streamAudioData data) s in
  prepare_upload file s0 = (Normal data, s, o0) /\
  streamAudioData data s = (Throw e, s1, o1) /\
  isTransient (message e) = false /\
  sendAudioFile file s0 =
    (Throw e, set_this (set_isProcessingFile false (this s1)) s1, o0 ++ o1) /\
  calls (o0 ++ o1) = [CStream data] /\
  statuses (o0 ++ o1) = [].
Proof.
  intros file s0 data s o0 e s1 o1.
  assert (prepare_upload file s0 = (Normal data, s, o0)) as Hp
    by (vm_compute; reflexivity).
  assert (streamAudioData data s = (Throw e, s1, o1)) as Hs
    by (vm_compute; reflexivity).
  assert (isTransient (message e) = false) as Ht by reflexivity.
  split; [exact Hp|]. split; [exact Hs|]. split; [exact Ht|].
  exact (hard_failure_is_not_retried file s0 s s1 data e o0 o1 Hp Hs Ht).
Defined.

Lemma file_samples_app a b : file_samples (a ++ b) = file_samples a ++ file_samples b.
Proof. apply flat_map_app. Qed.

Lemma file_samples_mic o : mic_only o -> file_samples o = [].
Proof.
  induction 1 as [|e o He _ IH]; [reflexivity|].
  destruct e as [ | | |t h [ | | ]| | | ]; try discriminate. exact IH.
Qed.

Lemma no_prompt_mic o : mic_only o -> Forall (fun e => is_prompt e = false) o.
Proof.
  apply Forall_impl. intros [ | | |t h [ | | ]| | | ]; simpl; congruence.
Qed.

Lemma firstn_more {A} (l : list A) a b :
  firstn a l ++ firstn b (skipn a l) = firstn (a + b) l.
Proof.
  revert l. induction a as [|a IH]; intros l; simpl; [reflexivity|].
  destruct l as [|x l]; simpl.
  - now rewrite firstn_nil.
  - now rewrite IH.
Qed.

Lemma slice_chunk data i :
  slice data i (i + CHUNK_SIZE) = firstn CHUNK_SIZE (skipn i data).
Proof. unfold slice. f_equal. lia. Qed.

Lemma send_chunks_prefix session data : forall fuel i s,
  exists r s' o n,
    send_chunks fuel session data i s = (r, s', o) /\
    file_samples o = firstn n (skipn i data) /\
    (r = Normal tt -> (length data - i <= fuel)%nat -> file_samples o = skipn i data) /\
    Forall (fun e => is_prompt e = false) o.
Proof.
  pose proof CHUNK_SIZE_pos as Hpos.
  induction fuel as [|fuel IH]; intros i s.
  - exists (Normal tt), s, [], 0%nat. split; [reflexivity|]. split; [reflexivity|].
    split; [|constructor]. intros _ Hl. simpl. symmetry. apply skipn_all2. lia.
  - cbn [send_chunks]. destruct (Nat.ltb_spec i (length data)) as [Hlt|Hge].
    + unfold try_catch.
      destruct (sendRealtimeInput_cases session
                  (FileBlob (slice data i (i + CHUNK_SIZE))) s)
        as [(s1 & E1 & _) | (e & E1)].
      * destruct (setTimeout_cases 50 s1) as (s2 & o2 & E2 & _ & O2).
        destruct (IH (i + CHUNK_SIZE)%nat s2) as (r & s' & o3 & n & E3 & P3 & F3 & N3).
        exists r, s', ([Sent (now s) session (FileBlob (slice data i (i + CHUNK_SIZE)))]
                        ++ o2 ++ o3), (CHUNK_SIZE + n)%nat.
        split; [|split; [|split]].
        -- unfold bind. rewrite E1, E2, E3. reflexivity.
        -- rewrite !file_samples_app, (file_samples_mic _ O2), P3.
           change (file_samples [Sent (now s) session (FileBlob (slice data i (i + CHUNK_SIZE)))])
             with (slice data i (i + CHUNK_SIZE) ++ []).
           rewrite List.app_nil_r, slice_chunk. cbn [app].
           rewrite <- firstn_more.
           now rewrite skipn_skipn, (Nat.add_comm CHUNK_SIZE i).
        -- intros Hr Hl. rewrite !file_samples_app, (file_samples_mic _ O2).
           rewrite (F3 Hr) by lia.
           change (file_samples [Sent (now s) session (FileBlob (slice data i (i + CHUNK_SIZE)))])
             with (slice data i (i + CHUNK_SIZE) ++ []).
           rewrite List.app_nil_r, slice_chunk. cbn [app].
           rewrite <- (firstn_skipn CHUNK_SIZE (skipn i data)) at 2.
           now rewrite skipn_skipn, (Nat.add_comm CHUNK_SIZE i).
        -- apply Forall_app. split; [repeat constructor|].
           apply Forall_app. split; [now apply no_prompt_mic | exact N3].
      * exists (Throw (new_Error (String.append "Failed to send chunk: " (toString e)))),
          s, [], 0%nat.
        split; [|split; [reflexivity|split; [discriminate | constructor]]].
        unfold bind. rewrite E1. reflexivity.
    + exists (Normal tt), s, [], 0%nat. split; [reflexivity|]. split; [reflexivity|].
      split; [|constructor]. intros _ Hl. simpl. symmetry. apply skipn_all2. lia.
Qed.

Lemma await_promise_cases p s :
  exists r s' o,
    await_promise p s = (r, s', o) /\ mic_only o /\
    (r = Normal p \/ exists e, r = Throw e).
Proof.
  unfold await_promise.
  destruct (await_cases s) as (s1 & o & Ha & _ & Ho).
  rewrite (bind_step _ _ _ _ _ _ Ha).
  rewrite (bind_silent _ _ s1 (heap s1 !! p) s1) by reflexivity.
  destruct (heap s1 !! p) as [[ | | | | |c]|];
    try (exists (Normal p), s1, o; unfold ret; rewrite List.app_nil_r;
         split; [reflexivity|]; split; [exact Ho | now left]).
  destruct (handshake c) as [e|].
  - exists (Throw e), s1, o. unfold throw. rewrite List.app_nil_r.
    split; [reflexivity|]. split; [exact Ho | right; eauto].
  - exists (Normal p), s1, o. unfold ret. rewrite List.app_nil_r.
    split; [reflexivity|]. split; [exact Ho | now left].
Qed.

Lemma visualise_silent data s : exists s', visualise data s = (Normal tt, s', []).
Proof.
  unfold visualise. rewrite (bind_silent _ _ s (this s) s) by reflexivity.
  destruct (inputContext (this s)) as [ic|]; [|eexists; reflexivity].
  destruct (inputAnalyser (this s)) as [ia|]; [|eexists; reflexivity].
  destruct data; eexists; reflexivity.
Qed.

(** What one streaming pass sends of the file. *)
Lemma streamAudioData_samples data s r s' o :
  streamAudioData data s = (r, s', o) ->
  (exists n, file_samples o = firstn n data) /\
  (r = Normal tt -> file_samples o = data) /\
  (forall e, In e o -> is_prompt e = true ->
             file_samples o = data /\ exists pre, o = pre ++ [e]).
Proof.
  intros E.
  unfold streamAudioData in E.
  rewrite (bind_step _ _ s tt s [Enter (CStream data)]) in E by reflexivity.
  cbv beta in E.
  rewrite (bind_silent _ _ s (this s) s) in E by reflexivity.
  destruct (sessionPromise (this s)) as [p|].
  2: { cbn in E. inversion E; subst. split; [exists 0%nat; reflexivity|].
       split; [discriminate|]. intros e [<-|[]]. discriminate. }
  destruct (await_promise_cases p s) as (r1 & s1 & o1 & E1 & O1 & [->|[e1 ->]]).
  2: { rewrite (bind_throw _ _ _ _ _ _ E1) in E. inversion E; subst.
       assert (file_samples ([Enter (CStream data)] ++ o1) = []) as Hf
         by (rewrite file_samples_app, (file_samples_mic _ O1); reflexivity).
       split; [exists 0%nat; exact Hf|]. split; [discriminate|].
       intros e [<-|He]; [discriminate|]. intros Hp. exfalso.
       apply no_prompt_mic in O1. rewrite Forall_forall in O1.
       rewrite (O1 e He) in Hp. discriminate. }
  rewrite (bind_step _ _ _ _ _ _ E1) in E.
  destruct (visualise_silent data s1) as (sv & Ev).
  rewrite (bind_step _ _ _ _ _ _ Ev) in E.
  destruct (send_chunks_prefix p data (length data) 0 sv)
    as (r2 & s2 & o2 & n & E2 & P2 & F2 & N2).
  simpl skipn in P2, F2.
  assert (forall e, In e ([Enter (CStream data)] ++ o1 ++ [] ++ o2) ->
                    is_prompt e = false) as Hnp.
  { apply Forall_forall. apply Forall_app. split; [repeat constructor|].
    apply Forall_app. split; [now apply no_prompt_mic | exact N2]. }
  assert (file_samples ([Enter (CStream data)] ++ o1 ++ [] ++ o2) = firstn n data) as Hfs.
  { rewrite !file_samples_app, (file_samples_mic _ O1). exact P2. }
  destruct r2 as [[]|e2].
  2: { rewrite (bind_throw _ _ _ _ _ _ E2) in E. inversion E; subst.
       split; [exists n; exact Hfs|]. split; [discriminate|].
       intros e He Hp. rewrite (Hnp e He) in Hp. discriminate. }
  rewrite (bind_step _ _ _ _ _ _ E2) in E.
  assert (file_samples ([Enter (CStream data)] ++ o1 ++ [] ++ o2) = data) as Hall.
  { rewrite !file_samples_app, (file_samples_mic _ O1). apply F2; [reflexivity | lia]. }
  assert (exists r3 s3 o3,
            sendRealtimeInput p (Prompt completion_prompt) s2 = (r3, s3, o3) /\
            (o3 = [] /\ r3 <> Normal tt \/
             o3 = [Sent (now s2) p (Prompt completion_prompt)])) as (r3 & s3 & o3 & E3 & Ho3).
  { destruct (sendRealtimeInput_cases p (Prompt completion_prompt) s2)
      as [(s3 & E3 & _) | (e3 & E3)]; rewrite E3; do 3 eexists;
      (split; [reflexivity|]); [now right | left; split; [reflexivity | discriminate]]. }
  rewrite E3 in E.
  assert (r = r3 /\ o = ([Enter (CStream data)] ++ o1 ++ [] ++ o2) ++ o3) as [-> ->].
  { inversion E. split; [reflexivity|]. now rewrite <- !List.app_assoc. }
  set (pre := [Enter (CStream data)] ++ o1 ++ [] ++ o2) in *.
  destruct Ho3 as [[-> Hr3] | ->].
  - rewrite List.app_nil_r.
    split; [exists n; exact Hfs|]. split; [intros Hr; now destruct (Hr3 Hr)|].
    intros e He Hp. rewrite (Hnp e He) in Hp. discriminate.
  - assert (file_samples (pre ++ [Sent (now s2) p (Prompt completion_prompt)]) = data)
      as Hd by (rewrite file_samples_app, Hall; apply List.app_nil_r).
    split; [exists (length data); rewrite Hd; symmetry; apply firstn_all|].
    split; [intros _; exact Hd|].
    intros e He Hp. split; [exact Hd|].
    apply in_app_or in He. destruct He as [He|[<-|[]]].
    + rewrite (Hnp e He) in Hp. discriminate.
    + eexists. reflexivity.
Qed.

(** X16.  Whatever happens during a streaming pass, the samples of
    the file chunks put on the channel, in the order sent, are a prefix of
    the buffer; when the pass returns normally they are the whole buffer;
    and a prompt, when one is sent, is the last thing written and comes
    after the whole buffer. *)
Theorem uploaded_samples_are_a_prefix (data : samples) (s : Machine) :
  (exists n, file_samples (output (streamAudioData data) s) = firstn n data) /\
  (result (streamAudioData data) s = Normal tt ->
   file_samples (output (streamAudioData data) s) = data) /\
  (forall e, In e (output (streamAudioData data) s) -> is_prompt e = true ->
             file_samples (output (streamAudioData data) s) = data /\
             exists pre, output (streamAudioData data) s = pre ++ [e]).
Proof.
  unfold result, output.
  destruct (streamAudioData data s) as [[r s'] o] eqn:E. cbn [fst snd].
  exact (streamAudioData_samples data s r s' o E).
Qed.

Lemma includes_append haystack needle before :
  includes haystack needle = true ->
  includes (String.append before haystack) needle = true.
Proof.
  intros H. induction before as [|c before IH]; [exact H|].
  change (includes (String c (String.append before haystack)) needle = true).
  unfold includes; fold includes.
  destruct (String.prefix needle (String c (String.append before haystack)));
    [reflexivity | exact IH].
Qed.

Example toString_of_partial_errors :
  toString {| name := "Error"; message := "" |} = "Error"%string /\
  toString {| name := ""; message := "closed" |} = "closed"%string /\
  toString (new_Error "WebSocket is closed") = "Error: WebSocket is closed"%string.
Proof. repeat split. Qed.

Lemma isTransient_append msg before :
  isTransient msg = true -> isTransient (String.append before msg) = true.
Proof.
  unfold isTransient. rewrite !orb_true_iff.
  intros [[[H|H]|H]|H]; rewrite (includes_append _ _ before H); auto.
Qed.

(** A streaming pass on a channel that takes no more sends stops at the
    first chunk. *)
Lemma streamAudioData_refused data s p c :
  sessionPromise (this s) = Some p ->
  (p < fresh s)%nat ->
  heap s !! p = Some (NSession c) ->
  handshake c = None ->
  budget c = Some O ->
  data <> [] ->
  exists s' o,
    streamAudioData data s =
      (Throw (new_Error (String.append "Failed to send chunk: "
                           (toString (send_failure c)))),
       s', Enter (CStream data) :: o) /\
    mic_only o.
Proof.
  intros Hp Hlt Hc Hk Hb Hd.
  destruct (await_cases s) as (s1 & o1 & Ha & (T1 & F1 & _ & H1) & O1).
  specialize (H1 p). rewrite Hc in H1.
  destruct (cell_drift_session _ _ H1) as (c1 & Hc1 & (Hk1 & Hf1 & _ & Hb1)).
  rewrite Hb in Hb1.
  assert (budget c1 = Some O) as Hb1'
    by (destruct (budget c1) as [[|k]|]; simpl in Hb1; try reflexivity;
        try lia; contradiction).
  assert (await_promise p s = (Normal p, s1, o1)) as Hap.
  { unfold await_promise. rewrite (bind_step _ _ _ _ _ _ Ha).
    rewrite (bind_silent _ _ s1 (heap s1 !! p) s1) by reflexivity.
    rewrite Hc1, Hk1, Hk. unfold ret. now rewrite List.app_nil_r. }
  assert (exists sv, visualise data s1 = (Normal tt, sv, []) /\
                     heap sv !! p = Some (NSession c1)) as (sv & Ev & Hcv).
  { unfold visualise. rewrite (bind_silent _ _ s1 (this s1) s1) by reflexivity.
    destruct (inputContext (this s1)) as [ic|]; [|exists s1; now split].
    destruct (inputAnalyser (this s1)) as [ia|]; [|exists s1; now split].
    destruct data as [|x data]; [exists s1; now split|].
    eexists. split; [reflexivity|]. simpl.
    rewrite lookup_insert_ne by lia. exact Hc1. }
  assert (send_chunks (length data) p data 0 sv =
          (Throw (new_Error (String.append "Failed to send chunk: "
                               (toString (send_failure c)))), sv, [])) as Esc.
  { destruct data as [|x data]; [congruence|].
    cbn [length send_chunks].
    change (0 <? S (length data))%nat with true. cbv iota.
    apply bind_throw.
    unfold try_catch, sendRealtimeInput. rewrite Hcv, Hb1', Hf1.
    reflexivity. }
  exists sv, o1. split; [|exact O1].
  unfold streamAudioData.
  rewrite (bind_step _ _ s tt s [Enter (CStream data)]) by reflexivity.
  cbv beta.
  rewrite (bind_silent _ _ s (this s) s) by reflexivity.
  rewrite Hp.
  rewrite (bind_step _ _ _ _ _ _ Hap).
  rewrite (bind_step _ _ _ _ _ _ Ev).
  rewrite (bind_throw _ _ _ _ _ _ Esc).
  cbn [app]. now rewrite !List.app_nil_r.
Qed.

(** X17.  When the session the manager holds accepts no more sends and
    the buffer is not empty, streamAudioData throws "Failed to send
    chunk: " followed by the error as a string (its name and its message
    joined by a colon, or the one of the two that is not empty), and no
    chunk and no prompt went out.  When the message of the channel's
    error is classified as transient, so is the message of the wrapping
    error: the retry of sendAudioFile still sees it. *)
Theorem refused_chunk_keeps_its_classification
  (data : samples) (s : Machine) (p : handle) (c : Session) :
  sessionPromise (this s) = Some p ->
  (p < fresh s)%nat ->
  heap s !! p = Some (NSession c) ->
  handshake c = None ->
  budget c = Some O ->
  data <> [] ->
  result (streamAudioData data) s =
    Throw (new_Error (String.append "Failed to send chunk: " (toString (send_failure c)))) /\
  filter is_upload_send (output (streamAudioData data) s) = [] /\
  (isTransient (message (send_failure c)) = true ->
   isTransient (String.append "Failed to send chunk: " (toString (send_failure c))) = true).
Proof.
  intros Hp Hlt Hc Hk Hb Hd.
  destruct (streamAudioData_refused data s p c Hp Hlt Hc Hk Hb Hd) as (s' & o & E & Ho).
  unfold result, output. rewrite E. cbn [fst snd].
  split; [reflexivity|]. split.
  - cbn [filter is_upload_send].
    clear -Ho. induction Ho as [|e o He _ IH]; [reflexivity|].
    destruct e as [ | | |t h [ | | ]| | | ]; try discriminate. exact IH.
  - intros Ht. apply isTransient_append. unfold toString.
    destruct (String.eqb (name (send_failure c)) ""); [exact Ht|].
    destruct (String.eqb (message (send_failure c)) "") eqn:Em.
    + apply String.eqb_eq in Em. rewrite Em in Ht. discriminate Ht.
    + now do 2 apply isTransient_append.
Qed.

Lemma refused_chunk_keeps_its_classification_witness :
  sessionPromise (this on_dead_channel) = Some 6%nat /\
  (6 < fresh on_dead_channel)%nat /\
  heap on_dead_channel !! 6%nat = Some (NSession dead_channel) /\
  handshake dead_channel = None /\
  budget dead_channel = Some O /\
  a_clip <> [] /\
  result (streamAudioData a_clip) on_dead_channel =
    Throw (new_Error (String.append "Failed to send chunk: "
                        (toString (send_failure dead_channel)))) /\
  filter is_upload_send (output (streamAudioData a_clip) on_dead_channel) = [] /\
  (isTransient (message (send_failure dead_channel)) = true ->
   isTransient (String.append "Failed to send chunk: "
                  (toString (send_failure dead_channel))) = true).
Proof.
  assert ((6 < fresh on_dead_channel)%nat) as H1 by (vm_compute; lia).
  assert (heap on_dead_channel !! 6%nat = Some (NSession dead_channel)) as H2
    by (vm_compute; reflexivity).
  assert (a_clip <> []) as H3 by discriminate.
  split; [reflexivity|]. split; [exact H1|]. split; [exact H2|].
  split; [reflexivity|]. split; [reflexivity|]. split; [exact H3|].
  exact (refused_chunk_keeps_its_classification a_clip on_dead_channel 6%nat
           dead_channel eq_refl H1 H2 eq_refl eq_refl H3).
Defined.

(** ** Normalisation *)

Open Scope Q_scope.

Lemma max_abs_nonneg data : 0 <= max_abs data.
Proof. destruct (max_loop data 0) as (H & _). exact H. Qed.

Lemma peak_scaled data m k :
  0 <= k -> peak_of data m -> peak_of (map (fun x => x * k) data) (m * k).
Proof.
  intros Hk [Hu He]. split.
  - apply Forall_map. revert Hu. apply Forall_impl. intros x Hx.
    rewrite Qabs_Qmult, (Qabs_pos k) by exact Hk.
    now apply Qmult_le_compat_r.
  - destruct He as [He|[-> Hm]].
    + left. apply Exists_map. revert He. apply Exists_impl. intros x Hx.
      rewrite Qabs_Qmult, (Qabs_pos k) by exact Hk. now rewrite Hx.
    + right. split; [reflexivity|]. rewrite Hm. ring.
Qed.

Lemma max_abs_scaled data k :
  0 <= k -> max_abs (map (fun x => x * k) data) == max_abs data * k.
Proof.
  intros Hk. apply (peak_unique (map (fun x => x * k) data)).
  - apply max_abs_peak.
  - apply peak_scaled; [exact Hk | apply max_abs_peak].
Qed.

Lemma scale_nonneg m : 0 < m -> 0 <= headroom / m.
Proof.
  intros Hm. apply Qle_shift_div_l; [exact Hm|]. unfold headroom. lra.
Qed.

Lemma scale_to_headroom m : 0 < m -> m * (headroom / m) == headroom.
Proof. intros Hm. field. lra. Qed.

Lemma max_abs_normalize data :
  0 < max_abs data -> max_abs (normalize data) == headroom.
Proof.
  intros E. unfold normalize.
  assert (gt (max_abs data) 0 = true) as -> by now apply gt_spec.
  rewrite max_abs_scaled by (now apply scale_nonneg).
  now apply scale_to_headroom.
Qed.

(** X18.  Normalisation keeps the number of samples; after it every
    sample is at most 0.95 in absolute value; and when the buffer is not
    silent its peak is exactly 0.95. *)
Theorem normalize_stays_within_headroom (resampledData : samples) :
  length (normalize resampledData) = length resampledData /\
  Forall (fun y => Qabs y <= 95 # 100) (normalize resampledData) /\
  (0 < max_abs resampledData -> max_abs (normalize resampledData) == 95 # 100).
Proof.
  unfold normalize. destruct (gt (max_abs resampledData) 0) eqn:E.
  - apply gt_spec in E. split; [apply length_map|]. split.
    + apply Forall_map. destruct (max_abs_peak resampledData) as [Hu _].
      revert Hu. apply Forall_impl. intros x Hx.
      rewrite Qabs_Qmult, (Qabs_pos (headroom / max_abs resampledData))
        by (now apply scale_nonneg).
      change (95 # 100) with headroom.
      rewrite <- (scale_to_headroom (max_abs resampledData)) at 2 by exact E.
      apply Qmult_le_compat_r; [exact Hx | now apply scale_nonneg].
    + intros _. rewrite max_abs_scaled by (now apply scale_nonneg).
      now apply scale_to_headroom.
  - apply gt_false in E. split; [reflexivity|]. split; [|lra].
    destruct (max_abs_peak resampledData) as [Hu _].
    revert Hu. apply Forall_impl. intros x Hx. lra.
Qed.

Lemma Forall2_Qeq_refl (l : list Q) : Forall2 Qeq l l.
Proof. induction l; constructor; [reflexivity | assumption]. Qed.

(** X19.  Normalising a normalised buffer gives the same samples. *)
Theorem normalize_is_idempotent (resampledData : samples) :
  Forall2 Qeq (normalize (normalize resampledData)) (normalize resampledData).
Proof.
  destruct (gt (max_abs resampledData) 0) eqn:E.
  - pose proof E as E'. apply gt_spec in E'.
    pose proof (max_abs_normalize resampledData E') as Hm.
    set (nd := normalize resampledData) in *.
    unfold normalize at 1.
    assert (gt (max_abs nd) 0 = true) as -> by (apply gt_spec; rewrite Hm; reflexivity).
    assert (headroom / max_abs nd == 1) as Hs.
    { rewrite Hm. reflexivity. }
    assert (forall k l, k == 1 -> Forall2 Qeq (map (fun x => x * k) l) l) as Hone.
    { intros k l Hk. induction l as [|y l IH]; simpl; constructor; [|exact IH].
      rewrite Hk. ring. }
    apply Hone, Hs.
  - unfold normalize. rewrite E. rewrite E. apply Forall2_Qeq_refl.
Qed.

Close Scope Q_scope.

(** ** A whole upload *)

Lemma streamAudioData_healthy data h s :
  healthy h s ->
  exists s2 o,
    streamAudioData data s =
    (Normal tt, s2,
     Enter (CStream data) :: o ++ [Sent (now s2) h (Prompt completion_prompt)]).
Proof.
  intros Hh.
  destruct (await_healthy h s Hh) as (s1 & o1 & Ha & Hh1 & Hn1 & Ho1).
  assert (await_promise h s = (Normal h, s1, o1)) as Hap.
  { unfold await_promise. unfold bind at 1. rewrite Ha.
    destruct Hh1 as [_ (c & Hc1 & Hk & _)].
    rewrite (bind_silent _ _ s1 (Some (NSession c)) s1)
      by (unfold deref, gets; now rewrite Hc1).
    rewrite Hk. unfold ret. now rewrite List.app_nil_r. }
  destruct (visualise_healthy h data s1 Hh1) as (sv & Hv & Hhv & Hnv).
  destruct (send_chunks_healthy h data (length data) 0 sv Hhv)
    as (s2 & o2 & ts & Hsc & Hh2 & _).
  exists s2, (o1 ++ o2).
  unfold streamAudioData. unfold bind at 1. unfold emit at 1.
  rewrite (bind_silent _ _ s (this s) s) by reflexivity.
  destruct Hh as [-> _].
  unfold bind at 1. rewrite Hap.
  unfold bind at 1. rewrite Hv.
  unfold bind at 1. rewrite Hsc. rewrite (send_healthy h _ s2 Hh2).
  simpl. now rewrite <- List.app_assoc.
Qed.

Lemma no_mic_uploads o : uploads o -> filter is_mic_send o = [].
Proof.
  induction 1 as [|e o He _ IH]; [reflexivity|].
  destruct e as [ | | |t h [ | | ]| | | ]; try discriminate; exact IH.
Qed.

Lemma streamAudioData_prefix (data : samples) (s : Machine) :
  (exists n, file_samples (output (streamAudioData data) s) = firstn n data) /\
  (result (streamAudioData data) s = Normal tt ->
   file_samples (output (streamAudioData data) s) = data).
Proof.
  unfold result, output.
  destruct (streamAudioData data s) as [[r s'] o] eqn:E. cbn [fst snd].
  destruct (streamAudioData_samples data s r s' o E) as (A & B & _). now split.
Qed.

(** An upload job on a working session, for a file that decodes. *)
Lemma sendAudioFile_whole
  (file : Upload) (s : Machine) (h : handle) (d : samples) :
  healthy h s ->
  wakes (outputContext (this s)) s ->
  wakes (inputContext (this s)) s ->
  (inputContext (this s) = None -> exists c, fallbackContext file = inr c) ->
  decoding file = inr d ->
  exists s2 o,
    sendAudioFile file s =
      (Normal tt, set_this (set_isProcessingFile false (this s2)) s2,
       Enter (CStream (normalize d)) ::
         o ++ [Sent (now s2) h (Prompt completion_prompt)]) /\
    uploads (o ++ [Sent (now s2) h (Prompt completion_prompt)]) /\
    file_samples (Enter (CStream (normalize d)) ::
                    o ++ [Sent (now s2) h (Prompt completion_prompt)]) = normalize d.
Proof.
  intros Hh Hwo Hwi Hfb Hd.
  pose proof Hh as [Hp (c & Hc & Hk & Hb & Hlt)].
  destruct (prepare_upload_decodes file s h Hp Hwo Hwi Hfb)
    as (s' & E & Ht & Hf & Hs).
  rewrite Hd in E.
  assert (healthy h s') as Hh'.
  { split; [now rewrite Ht|]. exists c. split; [now apply Hs|].
    split; [exact Hk|]. split; [exact Hb | lia]. }
  assert (muted s') as Hm by (unfold muted; now rewrite Ht).
  destruct (streamAudioData_healthy (normalize d) h s' Hh') as (s2 & o & Es).
  destruct (streamAudioData_keeps muted uploads uploads_nil uploads_app
              muted_ambient fire_uploads uploads_upload (normalize d) s' muted_alloc Hm)
    as (r' & s2' & o' & Es' & Ho' & _).
  rewrite Es in Es'. inversion Es'; subst r' s2' o'. clear Es'.
  destruct (streamAudioData_prefix (normalize d) s') as [_ Hall].
  unfold result, output in Hall. rewrite Es in Hall. cbn [fst snd] in Hall.
  specialize (Hall eq_refl).
  exists s2, o. split; [|split; [exact Ho' | exact Hall]].
  unfold sendAudioFile. rewrite (bind_step _ _ _ _ _ _ E).
  unfold stream_with_retry, try_finally, try_catch. rewrite Es.
  unfold assign, modify. now rewrite List.app_nil_r.
Qed.

(** X20.  On a session whose handshake resolved and that accepts
    sends, when the contexts can be resumed, there is a context to decode
    with, and the file decodes, sendAudioFile returns normally: streamAudioData ran once with the
    normalised samples, no status was notified, no microphone frame went
    out, the file chunks carry exactly the normalised samples, the
    completion prompt is the last thing written, and isProcessingFile is
    false at the end. *)
Theorem a_decodable_file_goes_out_whole
  (file : Upload) (s : Machine) (h : handle) (d : samples) :
  healthy h s ->
  wakes (outputContext (this s)) s ->
  wakes (inputContext (this s)) s ->
  (inputContext (this s) = None -> exists c, fallbackContext file = inr c) ->
  decoding file = inr d ->
  result (sendAudioFile file) s = Normal tt /\
  calls (output (sendAudioFile file) s) = [CStream (normalize d)] /\
  statuses (output (sendAudioFile file) s) = [] /\
  filter is_mic_send (output (sendAudioFile file) s) = [] /\
  file_samples (output (sendAudioFile file) s) = normalize d /\
  (exists pre t,
     output (sendAudioFile file) s = pre ++ [Sent t h (Prompt completion_prompt)]) /\
  isProcessingFile (this (run (sendAudioFile file) s)) = false.
Proof.
  intros Hh Hwo Hwi Hfb Hd.
  destruct (sendAudioFile_whole file s h d Hh Hwo Hwi Hfb Hd)
    as (s2 & o & Erun & Hup & Hall).
  unfold result, output, run. rewrite Erun. cbn [fst snd].
  split; [reflexivity|].
  assert (sends (o ++ [Sent (now s2) h (Prompt completion_prompt)])) as Hsends
    by (now apply uploads_sends).
  split; [simpl; now rewrite (calls_sends _ Hsends)|].
  split; [simpl; now rewrite (statuses_sends _ Hsends)|].
  split; [simpl; now apply no_mic_uploads|].
  split; [exact Hall|]. split; [|reflexivity].
  exists (Enter (CStream (normalize d)) :: o), (now s2). reflexivity.
Qed.

Lemma a_decodable_file_goes_out_whole_witness :
  healthy 6 connected /\
  wakes (outputContext (this connected)) connected /\
  wakes (inputContext (this connected)) connected /\
  (inputContext (this connected) = None ->
   exists c, fallbackContext (clip_with fine) = inr c) /\
  decoding (clip_with fine) = inr a_clip /\
  result (sendAudioFile (clip_with fine)) connected = Normal tt /\
  calls (output (sendAudioFile (clip_with fine)) connected) = [CStream (normalize a_clip)] /\
  statuses (output (sendAudioFile (clip_with fine)) connected) = [] /\
  filter is_mic_send (output (sendAudioFile (clip_with fine)) connected) = [] /\
  file_samples (output (sendAudioFile (clip_with fine)) connected) = normalize a_clip /\
  (exists pre t,
     output (sendAudioFile (clip_with fine)) connected
       = pre ++ [Sent t 6%nat (Prompt completion_prompt)]) /\
  isProcessingFile (this (run (sendAudioFile (clip_with fine)) connected)) = false.
Proof.
  assert (inputContext (this connected) = None ->
          exists c, fallbackContext (clip_with fine) = inr c) as Hfb
    by (intros _; exists a_context; reflexivity).
  split; [exact healthy_connected|]. split; [exact connected_wakes_output|].
  split; [exact connected_wakes_input|]. split; [exact Hfb|]. split; [reflexivity|].
  exact (a_decodable_file_goes_out_whole (clip_with fine) connected 6%nat a_clip
           healthy_connected connected_wakes_output connected_wakes_input Hfb eq_refl).
Defined.

(** ** The visualizer *)

Section Canvas.
Import Visualizer.
Open Scope Q_scope.

Lemma level_range b : 0 <= level b /\ level b <= 255.
Proof.
  unfold level. pose proof (Byte.to_N_bounded b) as H.
  split.
  - change 0 with (inject_Z 0). rewrite <- Zle_Qle. lia.
  - change 255 with (inject_Z 255). rewrite <- Zle_Qle. lia.
Qed.

Lemma bar_height_range b height :
  0 <= height -> 0 <= (level b / 255) * height /\ (level b / 255) * height <= height.
Proof.
  intros Hh. destruct (level_range b) as [H0 H1].
  assert (0 <= level b / 255) as Ha by (apply Qle_shift_div_l; lra).
  assert (level b / 255 <= 1) as Hb by (apply Qle_shift_div_r; lra).
  split.
  - apply Qmult_le_0_compat; assumption.
  - rewrite <- (Qmult_1_l height) at 2. apply Qmult_le_compat_r; assumption.
Qed.

Lemma bars_on_canvas color width height barWidth dataArray : forall x,
  0 <= height -> 0 <= barWidth -> 0 <= x -> x <= width ->
  Forall (on_canvas width height) (bars color width height barWidth dataArray x).
Proof.
  induction dataArray as [|b rest IH]; intros x Hh Hw Hx0 Hx; simpl; [constructor|].
  destruct (bar_height_range b height Hh) as [H0 H1].
  constructor.
  - simpl. repeat split; try assumption; try lra; try ring.
  - destruct (gt (x + (barWidth + 1)) width) eqn:E; [constructor|].
    apply gt_false in E. apply IH; try assumption. lra.
Qed.

(** X21.  On a canvas of non-negative width and height everything
    [draw] paints is on it: each bar starts between the left and the right
    edge, stands on the bottom edge, and is no taller than the canvas. *)
Theorem bars_stay_on_the_canvas
  (isActive : bool) (color : string) (width height : Q) (dataArray : list Byte.byte) :
  0 <= width -> 0 <= height ->
  Forall (on_canvas width height) (draw isActive color width height dataArray).
Proof.
  intros Hw Hh. unfold draw. destruct isActive; simpl.
  - constructor; [exact Logic.I|]. constructor; [exact Logic.I|].
    apply bars_on_canvas; try assumption; try lra.
    destruct dataArray as [|b rest].
    + unfold Qdiv. simpl. rewrite Qmult_0_r. lra.
    + apply Qmult_le_0_compat; [|lra].
      apply Qle_shift_div_l; [|lra].
      change 0 with (inject_Z 0). rewrite <- Zlt_Qlt. simpl length. lia.
  - repeat constructor.
Qed.

Lemma bars_stay_on_the_canvas_witness :
  0 <= 600 /\ 0 <= 150 /\
  Forall (on_canvas 600 150)
         (draw true "#22d3ee" 600 150 (repeat Byte.x80 (Z.to_nat 128))).
Proof.
  assert (0 <= 600) as H1 by lra. assert (0 <= 150) as H2 by lra.
  split; [exact H1|]. split; [exact H2|].
  exact (bars_stay_on_the_canvas true "#22d3ee" 600 150 (repeat Byte.x80 (Z.to_nat 128)) H1 H2).
Defined.

Lemma bars_reach color width height barWidth dataArray : forall x,
  x <= width ->
  exists n,
    heights (bars color width height barWidth dataArray x) =
      map (fun b => (level b / 255) * height) (firstn n dataArray) /\
    (n <= length dataArray)%nat /\
    (dataArray <> [] -> (1 <= n)%nat) /\
    x + inject_Z (Z.of_nat (n - 1)) * (barWidth + 1) <= width.
Proof.
  induction dataArray as [|b rest IH]; intros x Hx.
  - exists 0%nat. split; [reflexivity|]. split; [simpl; lia|].
    split; [congruence|]. change (inject_Z (Z.of_nat (0 - 1))) with 0. lra.
  - cbn [bars]. destruct (gt (x + (barWidth + 1)) width) eqn:E.
    + exists 1%nat. split; [reflexivity|]. split; [simpl; lia|].
      split; [lia|]. change (inject_Z (Z.of_nat (1 - 1))) with 0. lra.
    + apply gt_false in E. destruct (IH _ E) as (n & Hh & Hn & H1 & Hr).
      destruct rest as [|b' rest'].
      * exists 1%nat. split; [reflexivity|]. split; [simpl; lia|].
        split; [lia|]. change (inject_Z (Z.of_nat (1 - 1))) with 0. lra.
      * exists (S n). split; [|split; [simpl in *; lia|split; [lia|]]].
        -- cbn [heights flat_map firstn map app]. f_equal. exact Hh.
        -- assert (1 <= n)%nat as Hn1 by (apply H1; discriminate).
           replace (S n - 1)%nat with (S (n - 1)) by lia.
           rewrite Nat2Z.inj_succ, <- Z.add_1_r, inject_Z_plus.
           change (inject_Z 1) with 1. lra.
Qed.

(** X22.  An active frame draws one bar for each of the first [n]
    bins, in order, the bar of a bin being its level over 255 of the
    height; with a bin at all there is at least one bar, and the bars
    are at most one more than four tenths of the bins: the loop stops at
    the right edge. *)
Theorem only_the_low_bins_are_drawn
  (color : string) (width height : Q) (dataArray : list Byte.byte) :
  0 <= width ->
  exists n,
    heights (draw true color width height dataArray) =
      map (fun b => (level b / 255) * height) (firstn n dataArray) /\
    (n <= length dataArray)%nat /\
    (dataArray <> [] -> (1 <= n)%nat) /\
    (25 * (n - 1) <= 10 * length dataArray)%nat.
Proof.
  intros Hw. unfold draw. cbn [negb].
  set (L := inject_Z (Z.of_nat (length dataArray))).
  set (bw := width / L * (25 # 10)).
  destruct (bars_reach color width height bw dataArray 0 Hw) as (n & Hh & Hn & H1 & Hr).
  exists n. split; [exact Hh|]. split; [exact Hn|]. split; [exact H1|].
  destruct (le_lt_dec n 1) as [Hle|Hgt]; [lia|].
  set (N := inject_Z (Z.of_nat (n - 1))) in *.
  assert (1 <= N) as HN.
  { unfold N. change 1 with (inject_Z 1). rewrite <- Zle_Qle. lia. }
  assert (0 < L) as HL.
  { unfold L. change 0 with (inject_Z 0). rewrite <- Zlt_Qlt. lia. }
  assert (0 < width) as Hpos.
  { destruct (Qlt_le_dec 0 width) as [H|H]; [exact H|].
    assert (width == 0) as Hz by lra.
    assert (bw == 0) as Hb by (unfold bw; rewrite Hz; field; lra).
    rewrite Hb in Hr. lra. }
  assert (N * (25 # 10) <= L) as Hfin.
  { assert (N * bw <= width) as H2 by (assert (0 <= N * 1) by lra; lra).
    unfold bw in H2.
    assert (N * (25 # 10) * (width / L) == N * (width / L * (25 # 10))) as E1 by ring.
    assert (L * (width / L) == width) as E2 by (field; lra).
    assert (0 < width / L) as Hq by (apply Qlt_shift_div_l; lra).
    apply Qmult_le_r with (z := width / L); [exact Hq|].
    rewrite E1, E2. exact H2. }
  unfold N, L in Hfin.
  assert ((25 * Z.of_nat (n - 1) <= 10 * Z.of_nat (length dataArray))%Z) as HZ.
  { rewrite Zle_Qle. rewrite !inject_Z_mult.
    change (inject_Z 25) with 25. change (inject_Z 10) with 10. lra. }
  lia.
Qed.

Lemma only_the_low_bins_are_drawn_witness :
  0 <= 600 /\
  exists n,
    heights (draw true "#a855f7" 600 150 (repeat Byte.xff (Z.to_nat 128))) =
      map (fun b => (level b / 255) * 150) (firstn n (repeat Byte.xff (Z.to_nat 128))) /\
    (n <= length (repeat Byte.xff (Z.to_nat 128)))%nat /\
    (repeat Byte.xff (Z.to_nat 128) <> [] -> (1 <= n)%nat) /\
    (25 * (n - 1) <= 10 * length (repeat Byte.xff (Z.to_nat 128)))%nat.
Proof.
  assert (0 <= 600) as H by lra. split; [exact H|].
  exact (only_the_low_bins_are_drawn "#a855f7" 600 150 (repeat Byte.xff (Z.to_nat 128)) H).
Defined.

(** The canvas of the application is 600 wide and each analyser has 128
    bins: 48 bars are drawn. *)
Example bars_of_the_application :
  length (heights (draw true "#22d3ee" 600 150 (repeat Byte.x00 (Z.to_nat 128)))) = 48%nat.
Proof. vm_compute. reflexivity. Qed.


End Canvas.

(** ** The page *)

Section Page.
Import App.

Lemma manager_events_app a b :
  manager_events (a ++ b) = manager_events a ++ manager_events b.
Proof. apply flat_map_app. Qed.

Lemma ui_events_app a b : ui_events (a ++ b) = ui_events a ++ ui_events b.
Proof. apply flat_map_app. Qed.

Lemma manager_events_map o : manager_events (map Manager o) = o.
Proof. induction o as [|e o IH]; simpl; [reflexivity | now rewrite IH]. Qed.

Lemma ui_events_map o : ui_events (map Manager o) = [].
Proof. induction o as [|e o IH]; simpl; [reflexivity | exact IH]. Qed.

Lemma setter_calls_app manager a b :
  setter_calls manager (a ++ b) = setter_calls manager a ++ setter_calls manager b.
Proof. apply flat_map_app. Qed.

Lemma setter_calls_mic manager o :
  mic_only o -> setter_calls manager (map Manager o) = [].
Proof.
  induction 1 as [|e o He _ IH]; [reflexivity|].
  destruct e; try discriminate. exact IH.
Qed.

Lemma map_Manager_app a b : map Manager (a ++ b) = map Manager a ++ map Manager b.
Proof. apply List.map_app. Qed.

Lemma settles_shown manager v before :
  State.isUploading
    (fold_left apply_setter
       (setter_calls manager (before ++ [Ui (setIsUploading false)])) v) = false.
Proof. rewrite setter_calls_app, fold_left_app. reflexivity. Qed.

Lemma app_bind_step {A B} (m : App A) (k : A -> App B) p a p1 o1 :
  m p = (Normal a, p1, o1) ->
  bind m k p = (let '(r, p2, o2) := k a p1 in (r, p2, o1 ++ o2)).
Proof. intros H. unfold bind. now rewrite H. Qed.

Lemma app_bind_throw {A B} (m : App A) (k : A -> App B) p e p1 o1 :
  m p = (Throw e, p1, o1) -> bind m k p = (Throw e, p1, o1).
Proof. intros H. unfold bind. now rewrite H. Qed.

(** What startSession does before it connects. *)
Lemma startSession_steps env p :
  let s0 := if liveManagerRef p then run disconnect (machine p) else machine p in
  let o0 := if liveManagerRef p then [Enter CDisconnect; Status DISCONNECTED] else [] in
  startSession env p =
  match sdk env with
  | Some e =>
      (Throw e, {| liveManagerRef := liveManagerRef p; machine := s0 |},
       [Ui (setError None); Ui (setAiText None)] ++ map Manager o0)
  | None =>
      let '(r, s, o) := connect (devices env) (set_this new_LiveManager s0) in
      (r, {| liveManagerRef := true; machine := s |},
       [Ui (setError None); Ui (setAiText None)] ++ map Manager o0 ++ map Manager o)
  end.
Proof.
  unfold startSession.
  rewrite (app_bind_step _ _ p tt p [Ui (setError None)]) by reflexivity.
  rewrite (app_bind_step _ _ p tt p [Ui (setAiText None)]) by reflexivity.
  rewrite (app_bind_step _ _ p (liveManagerRef p) p []) by reflexivity.
  destruct p as [[|] s]; cbn [liveManagerRef machine].
  - destruct (disconnect_spec s) as [hp Hd].
    assert (call disconnect {| liveManagerRef := true; machine := s |} =
            (Normal tt, {| liveManagerRef := true; machine := run disconnect s |},
             map Manager [Enter CDisconnect; Status DISCONNECTED])) as Hc.
    { unfold call, run. cbn [machine liveManagerRef]. now rewrite Hd. }
    rewrite (app_bind_step _ _ _ _ _ _ Hc).
    destruct (sdk env) as [e|].
    + reflexivity.
    + unfold bind, new_manager, set_current, try_catch, call, throw.
      cbn [machine liveManagerRef].
      destruct (connect (devices env) (set_this new_LiveManager (run disconnect s)))
        as [[[[]|e] s'] o]; cbn; now rewrite ?List.app_nil_r.
  - rewrite (app_bind_step _ _ _ tt {| liveManagerRef := false; machine := s |} [])
      by reflexivity.
    destruct (sdk env) as [e|].
    + reflexivity.
    + unfold bind, new_manager, set_current, try_catch, call, throw.
      cbn [machine liveManagerRef].
      destruct (connect (devices env) (set_this new_LiveManager s))
        as [[[[]|e] s'] o]; cbn; now rewrite ?List.app_nil_r.
Qed.

(** X23.  When the page holds a manager, startSession disconnects it
    before it builds the new one: an audio context, script processor or
    input source the old manager held is torn down when startSession ends,
    whether the new connect() succeeds or not, and of the calls on a
    manager the first is this disconnect(), the next one, if any, the
    connect(). *)
Theorem startSession_releases_the_previous_session
  (env : StartEnv) (p : Page) (h : handle) (o : native) :
  liveManagerRef p = true ->
  (h < fresh (machine p))%nat ->
  heap (machine p) !! h = Some o ->
  (((inputContext (this (machine p)) = Some h \/
     outputContext (this (machine p)) = Some h) /\ exists c, o = NContext c) \/
   (scriptProcessor (this (machine p)) = Some h /\
    exists ctx a b, o = NProcessor ctx a b) \/
   (inputSource (this (machine p)) = Some h /\ exists ctx a, o = NSource ctx a)) ->
  heap (machine (page_after (startSession env) p)) !! h = Some (teardown o) /\
  exists rest,
    calls (manager_events (trace (startSession env) p)) = CDisconnect :: rest /\
    (rest = [] \/ exists rest', rest = CConnect :: rest').
Proof.
  intros Href Hlt Ho Hheld.
  unfold page_after, trace. rewrite startSession_steps. rewrite Href.
  destruct p as [c s]. cbn [machine liveManagerRef] in *.
  pose proof (disconnect_tears_down s h o Ho Hheld) as Htorn.
  assert (is_session (teardown o) = false) as Hns.
  { destruct Hheld as [[_ (c0 & ->)] | [[_ (ctx & a & b & ->)] | [_ (ctx & a & ->)]]];
      reflexivity. }
  assert (fresh (run disconnect s) = fresh s) as Hf.
  { unfold run. destruct (disconnect_spec s) as [hp ->]. reflexivity. }
  destruct (sdk env) as [e|].
  - cbn [fst snd machine]. split; [exact Htorn|].
    exists []. split; [reflexivity | now left].
  - set (s0 := set_this new_LiveManager (run disconnect s)).
    assert (heap s0 !! h = Some (teardown o)) as H0 by exact Htorn.
    assert ((h < fresh s0)%nat) as Hlt0 by (unfold s0; cbn [fresh set_this]; lia).
    destruct (refusal (devices env)) as [e|] eqn:Hr.
    + destruct (connect_refused (devices env) s0 e Hr)
        as (s1 & o1 & E & Hmic & _ & _ & Hold & _).
      rewrite E. cbn [fst snd machine]. split.
      * specialize (Hold h (or_introl Hlt0)). rewrite H0 in Hold.
        apply cell_drift_plain in Hold; [|exact Hns].
        destruct (disconnect_heap s1) as (hp & Ed & W & _).
        unfold run. rewrite Ed. cbn [fst snd heap set_this set_heap].
        destruct (W h) as [F|F]; rewrite F, Hold; [reflexivity|].
        simpl. now rewrite teardown_twice.
      * eexists. split; [|right; eexists; reflexivity].
        rewrite !manager_events_app, !manager_events_map. reflexivity.
    + destruct (refusal_none _ Hr) as (ic & oc & Hi & Hoc & Hok).
      destruct (connect_succeeds (devices env) s0 ic oc Hi Hoc Hok)
        as (s' & o1 & E & Hmic & _ & _ & _ & _ & _ & _ & _ & _ & Hold).
      rewrite E. cbn [fst snd machine]. split.
      * specialize (Hold h (or_introl Hlt0)). rewrite H0 in Hold.
        now apply cell_drift_plain in Hold.
      * eexists. split; [|right; eexists; reflexivity].
        rewrite !manager_events_app, !manager_events_map. reflexivity.
Qed.

Lemma startSession_releases_the_previous_session_witness :
  liveManagerRef live_page = true /\
  (0 < fresh (machine live_page))%nat /\
  heap (machine live_page) !! 0%nat = Some (NContext a_context) /\
  (((inputContext (this (machine live_page)) = Some 0%nat \/
     outputContext (this (machine live_page)) = Some 0%nat) /\
    exists c, NContext a_context = NContext c) \/
   (scriptProcessor (this (machine live_page)) = Some 0%nat /\
    exists ctx a b, NContext a_context = NProcessor ctx a b) \/
   (inputSource (this (machine live_page)) = Some 0%nat /\
    exists ctx a, NContext a_context = NSource ctx a)) /\
  heap (machine (page_after (startSession good_start) live_page)) !! 0%nat
    = Some (teardown (NContext a_context)) /\
  exists rest,
    calls (manager_events (trace (startSession good_start) live_page))
      = CDisconnect :: rest /\
    (rest = [] \/ exists rest', rest = CConnect :: rest').
Proof.
  assert ((0 < fresh (machine live_page))%nat) as H1 by (vm_compute; lia).
  assert (heap (machine live_page) !! 0%nat = Some (NContext a_context)) as H2
    by (vm_compute; reflexivity).
  assert (((inputContext (this (machine live_page)) = Some 0%nat \/
            outputContext (this (machine live_page)) = Some 0%nat) /\
           exists c, NContext a_context = NContext c) \/
          (scriptProcessor (this (machine live_page)) = Some 0%nat /\
           exists ctx a b, NContext a_context = NProcessor ctx a b) \/
          (inputSource (this (machine live_page)) = Some 0%nat /\
           exists ctx a, NContext a_context = NSource ctx a)) as H3
    by (left; split; [left; reflexivity | eexists; reflexivity]).
  split; [reflexivity|]. split; [exact H1|]. split; [exact H2|]. split; [exact H3|].
  exact (startSession_releases_the_previous_session good_start live_page 0%nat
           (NContext a_context) eq_refl H1 H2 H3).
Defined.

Lemma uploading_flags_app a b :
  uploading_flags (a ++ b) = uploading_flags a ++ uploading_flags b.
Proof. apply flat_map_app. Qed.

Lemma uploading_flags_map o : uploading_flags (map Manager o) = [].
Proof. induction o as [|e o IH]; simpl; [reflexivity | exact IH]. Qed.

Lemma leaves_ret {A} (a : A) : leaves_flag (ret a).
Proof. intros p. reflexivity. Qed.

Lemma leaves_throw {A} (e : Error) : leaves_flag (@throw A e).
Proof. intros p. reflexivity. Qed.

Lemma leaves_current : leaves_flag current.
Proof. intros p. reflexivity. Qed.

Lemma leaves_call {A} (m : M A) : leaves_flag (call m).
Proof.
  intros p. unfold trace, call. destruct (m (machine p)) as [[r s] o]. simpl.
  apply uploading_flags_map.
Qed.

Lemma leaves_bind {A B} (m : App A) (k : A -> App B) :
  leaves_flag m -> (forall a, leaves_flag (k a)) -> leaves_flag (bind m k).
Proof.
  intros Hm Hk p. specialize (Hm p). unfold trace in *. unfold bind.
  destruct (m p) as [[[a|e] p1] o1]; simpl in *; [|exact Hm].
  specialize (Hk a p1). unfold trace in Hk.
  destruct (k a p1) as [[r p2] o2]; simpl in *.
  now rewrite uploading_flags_app, Hm, Hk.
Qed.

Lemma leaves_try_catch {A} (m : App A) (h : Error -> App A) :
  leaves_flag m -> (forall e, leaves_flag (h e)) -> leaves_flag (try_catch m h).
Proof.
  intros Hm Hh p. specialize (Hm p). unfold trace in *. unfold try_catch.
  destruct (m p) as [[[a|e] p1] o1]; simpl in *; [exact Hm|].
  specialize (Hh e p1). unfold trace in Hh.
  destruct (h e p1) as [[r p2] o2]; simpl in *.
  now rewrite uploading_flags_app, Hm, Hh.
Qed.

Lemma leaves_startSession env : leaves_flag (startSession env).
Proof.
  intros p. unfold trace. rewrite startSession_steps.
  destruct (sdk env) as [e|].
  - simpl. apply uploading_flags_map.
  - destruct (connect (devices env) _) as [[r s] o]. simpl.
    now rewrite uploading_flags_app, !uploading_flags_map.
Qed.

(** X24.  handleFileUpload never throws.  While an upload is in
    progress a second call does nothing at all.  Otherwise it sets
    isUploading to true once and to false once, in this order, the latter
    being the last thing it does, whatever fails in between, and no
    callback sets it: the component ends with isUploading false.  While a
    connection is in progress (with a manager) the manager is not called
    and the page is as before. *)
Theorem handleFileUpload_always_settles
  (isUploading : bool) (connectionState : ConnectionState)
  (file : Upload) (env : StartEnv) (p : Page) :
  outcome (handleFileUpload isUploading connectionState file env) p = Normal tt /\
  (isUploading = true ->
   handleFileUpload isUploading connectionState file env p = (Normal tt, p, [])) /\
  (isUploading = false ->
   uploading_flags (trace (handleFileUpload isUploading connectionState file env) p)
     = [true; false] /\
   (exists before,
      trace (handleFileUpload isUploading connectionState file env) p
        = before ++ [Ui (setIsUploading false)]) /\
   forall manager v,
     State.isUploading
       (shown_after manager v
          (handleFileUpload isUploading connectionState file env) p) = false) /\
  (isUploading = false -> connectionState = CONNECTING -> liveManagerRef p = true ->
   manager_events (trace (handleFileUpload isUploading connectionState file env) p) = [] /\
   page_after (handleFileUpload isUploading connectionState file env) p = p).
Proof.
  destruct isUploading.
  { split; [reflexivity|]. split; [reflexivity|]. split; discriminate. }
  unfold shown_after, outcome, trace, page_after, handleFileUpload.
  rewrite (app_bind_step _ _ p tt p [Ui (setIsUploading true)]) by reflexivity.
  rewrite (app_bind_step _ _ p tt p [Ui (setError None)]) by reflexivity.
  rewrite (app_bind_step _ _ p tt p [Ui (setAiText None)]) by reflexivity.
  unfold try_finally.
  match goal with
  | |- context [match ?b p with _ => _ end] =>
      assert (leaves_flag b) as Hquiet; [|
      assert (fst (fst (b p)) = Normal tt) as Hnormal; [|
      assert (connectionState = CONNECTING -> liveManagerRef p = true ->
              b p = (Normal tt, p,
                     [Ui (setError (Some "Connection in progress. Please wait a moment."%string))]))
        as Hbusy; [|
      specialize (Hquiet p); unfold trace in Hquiet;
      destruct (b p) as [[r p1] o1]]]]
  end.
  - apply leaves_try_catch; [|intros e q; reflexivity].
    apply leaves_bind; [apply leaves_current|]. intros c.
    apply leaves_bind.
    { destruct (negb c || _).
      - apply leaves_bind; [apply leaves_startSession | intros _; apply leaves_current].
      - destruct connectionState; try apply leaves_ret. apply leaves_throw. }
    intros c'. apply leaves_bind; [destruct c'; [apply leaves_ret | apply leaves_throw]|].
    intros _. apply leaves_call.
  - unfold try_catch.
    match goal with
    | |- context [match ?b p with _ => _ end] => destruct (b p) as [[[[]|e] q] oq]
    end; reflexivity.
  - intros -> Href. unfold try_catch.
    rewrite (app_bind_step _ _ p true p []) by (unfold current; now rewrite Href).
    reflexivity.
  - cbn [fst snd] in *. subst r. cbn [ui].
    split; [reflexivity|]. split; [discriminate|]. split.
    + intros _.
      assert ([Ui (setIsUploading true)] ++ [Ui (setError None)] ++
                [Ui (setAiText None)] ++ o1 ++ [Ui (setIsUploading false)]
              = ([Ui (setIsUploading true)] ++ [Ui (setError None)] ++
                   [Ui (setAiText None)] ++ o1) ++ [Ui (setIsUploading false)]) as Hlast
        by (now rewrite <- !List.app_assoc).
      split; [|split].
      * simpl. rewrite uploading_flags_app, Hquiet. reflexivity.
      * eexists. exact Hlast.
      * intros manager v. rewrite Hlast. apply settles_shown.
    + intros _ Hc Href. specialize (Hbusy Hc Href). inversion Hbusy; subst.
      split; reflexivity.
Qed.

(** A file upload that has to start the session, when connect() fails. *)
Lemma handleFileUpload_failed_start connectionState file env p e :
  liveManagerRef p = false \/ connectionState = DISCONNECTED \/ connectionState = ERROR ->
  sdk env = None ->
  refusal (devices env) = Some e ->
  exists p' o1,
    mic_only o1 /\
    handleFileUpload false connectionState file env p =
      (Normal tt, p',
       [Ui (setIsUploading true); Ui (setError None); Ui (setAiText None);
        Ui (setError None); Ui (setAiText None)] ++
       map Manager (if liveManagerRef p
                    then [Enter CDisconnect; Status DISCONNECTED] else []) ++
       map Manager ([Enter CConnect; Status CONNECTING] ++ o1 ++
                    [Enter CDisconnect; Status DISCONNECTED;
                     ErrorEv (message e); Status ERROR]) ++
       [Ui (setError (Some (shown e))); Ui (setIsUploading false)]).
Proof.
  intros Hcase Hsdk Hr.
  set (s0 := if liveManagerRef p then run disconnect (machine p) else machine p).
  set (o0 := if liveManagerRef p then [Enter CDisconnect; Status DISCONNECTED] else []).
  destruct (connect_refused (devices env) (set_this new_LiveManager s0) e Hr)
    as (s1 & o1 & E & Hmic & _).
  pose proof (startSession_steps env p) as Hs. cbv zeta in Hs.
  fold s0 o0 in Hs. rewrite Hsdk, E in Hs.
  assert (negb (liveManagerRef p) ||
          match connectionState with
          | DISCONNECTED | ERROR => true
          | _ => false
          end = true) as Hgo.
  { destruct Hcase as [->|[->| ->]]; [reflexivity | |]; apply orb_true_r. }
  eexists _, o1. split; [exact Hmic|].
  unfold handleFileUpload.
  rewrite (app_bind_step _ _ p tt p [Ui (setIsUploading true)]) by reflexivity.
  rewrite (app_bind_step _ _ p tt p [Ui (setError None)]) by reflexivity.
  rewrite (app_bind_step _ _ p tt p [Ui (setAiText None)]) by reflexivity.
  unfold try_finally, try_catch.
  rewrite (app_bind_step _ _ p (liveManagerRef p) p []) by reflexivity.
  rewrite Hgo.
  rewrite (app_bind_throw _ _ _ _ _ _ (app_bind_throw _ _ _ _ _ _ Hs)).
  cbn [fst snd ui]. f_equal.
  cbn [app]. rewrite <- !List.app_assoc. reflexivity.
Qed.

(** X25.  When the session has to be started and connect() fails,
    the file is not sent: the manager's calls are the disconnect() of the
    old manager, if there was one, connect() and the disconnect() of its
    cleanup; the handler shows the error (or "Upload failed" when its
    message is empty) and then sets isUploading to false.  With the
    callbacks counted in, the component ends in state ERROR, showing that
    error, with isUploading and isMicActive false and no text. *)
Theorem a_failed_start_cancels_the_upload
  (connectionState : ConnectionState) (file : Upload) (env : StartEnv) (p : Page)
  (e : Error) (manager : LiveManager) (v : State.t) :
  liveManagerRef p = false \/ connectionState = DISCONNECTED \/ connectionState = ERROR ->
  sdk env = None ->
  refusal (devices env) = Some e ->
  outcome (handleFileUpload false connectionState file env) p = Normal tt /\
  calls (manager_events (trace (handleFileUpload false connectionState file env) p))
    = (if liveManagerRef p then [CDisconnect] else []) ++ [CConnect; CDisconnect] /\
  ui_events (trace (handleFileUpload false connectionState file env) p)
    = [setIsUploading true; setError None; setAiText None;
       setError None; setAiText None;
       setError (Some (shown e)); setIsUploading false] /\
  shown_after manager v (handleFileUpload false connectionState file env) p =
    {| State.connectionState := ERROR; State.error := Some (shown e);
       State.isUploading := false; State.isMicActive := false;
       State.aiText := None; State.inputAnalyser := State.inputAnalyser v;
       State.outputAnalyser := State.outputAnalyser v |}.
Proof.
  intros Hcase Hsdk Hr.
  destruct (handleFileUpload_failed_start connectionState file env p e Hcase Hsdk Hr)
    as (p' & o1 & Hmic & E).
  unfold shown_after, outcome, trace. rewrite E. cbn [fst snd].
  split; [reflexivity|].
  assert (calls o1 = []) as Hc1.
  { clear -Hmic. induction Hmic as [|x o Hx _ IH]; [reflexivity|].
    destruct x; try discriminate. exact IH. }
  split; [|split].
  - rewrite !manager_events_app, !manager_events_map.
    rewrite !calls_app, Hc1.
    destruct (liveManagerRef p); reflexivity.
  - rewrite !ui_events_app, !ui_events_map. reflexivity.
  - rewrite !map_Manager_app, !setter_calls_app, (setter_calls_mic _ _ Hmic).
    rewrite !fold_left_app.
    destruct (liveManagerRef p); reflexivity.
Qed.

Lemma a_failed_start_cancels_the_upload_witness :
  (liveManagerRef blank_page = false \/ DISCONNECTED = DISCONNECTED \/
   DISCONNECTED = ERROR) /\
  sdk bad_start = None /\
  refusal (devices bad_start)
    = Some (new_Error "The number of hardware contexts has been reached") /\
  outcome (handleFileUpload false DISCONNECTED (clip_with fine) bad_start) blank_page
    = Normal tt /\
  calls (manager_events
           (trace (handleFileUpload false DISCONNECTED (clip_with fine) bad_start)
                  blank_page))
    = (if liveManagerRef blank_page then [CDisconnect] else []) ++ [CConnect; CDisconnect] /\
  ui_events (trace (handleFileUpload false DISCONNECTED (clip_with fine) bad_start)
                   blank_page)
    = [setIsUploading true; setError None; setAiText None;
       setError None; setAiText None;
       setError (Some (shown (new_Error
                                "The number of hardware contexts has been reached")));
       setIsUploading false] /\
  shown_after new_LiveManager State.initial
    (handleFileUpload false DISCONNECTED (clip_with fine) bad_start) blank_page =
    {| State.connectionState := ERROR;
       State.error := Some (shown (new_Error
                                     "The number of hardware contexts has been reached"));
       State.isUploading := false; State.isMicActive := false;
       State.aiText := None;
       State.inputAnalyser := State.inputAnalyser State.initial;
       State.outputAnalyser := State.outputAnalyser State.initial |}.
Proof.
  assert (liveManagerRef blank_page = false \/ DISCONNECTED = DISCONNECTED \/
          DISCONNECTED = ERROR) as H by (left; reflexivity).
  split; [exact H|]. split; [reflexivity|]. split; [reflexivity|].
  exact (a_failed_start_cancels_the_upload DISCONNECTED (clip_with fine) bad_start
           blank_page (new_Error "The number of hardware contexts has been reached")
           new_LiveManager State.initial H eq_refl eq_refl).
Defined.

(** X26.  With no manager yet, a browser and a backend that let a
    session start, and a file that decodes, handleFileUpload connects and
    then streams: the manager's calls are connect() and one streamAudioData
    with the normalised samples, the file chunks carry exactly these
    samples, the handler sets no error, and the page holds the manager
    afterwards. *)
Theorem an_upload_starts_the_session_it_needs
  (connectionState : ConnectionState) (file : Upload) (env : StartEnv) (p : Page)
  (d : samples) :
  liveManagerRef p = false ->
  welcoming env ->
  decoding file = inr d ->
  outcome (handleFileUpload false connectionState file env) p = Normal tt /\
  calls (manager_events (trace (handleFileUpload false connectionState file env) p))
    = [CConnect; CStream (normalize d)] /\
  file_samples (manager_events (trace (handleFileUpload false connectionState file env) p))
    = normalize d /\
  ui_events (trace (handleFileUpload false connectionState file env) p)
    = [setIsUploading true; setError None; setAiText None;
       setError None; setAiText None; setIsUploading false] /\
  liveManagerRef (page_after (handleFileUpload false connectionState file env) p) = true.
Proof.
  intros Href (Hsdk & Hr & Hk & Hb & Hin) Hd.
  destruct (refusal_none _ Hr) as (ic & oc & Hi & Ho & Hok).
  set (s0 := set_this new_LiveManager (machine p)).
  destruct (connect_succeeds (devices env) s0 ic oc Hi Ho Hok)
    as (s' & o1 & E & Hmic & _ & Ht & Hf & C0 & C1 & _ & _ & Cm & _).
  pose proof (startSession_steps env p) as Hs. cbv zeta in Hs.
  rewrite Href, Hsdk in Hs. fold s0 in Hs. rewrite E in Hs.
  set (h := (match microphone (devices env) with None => 6 | Some _ => 4 end
             + fresh s0)%nat).
  assert (healthy h s') as Hh.
  { unfold h. split.
    - rewrite Ht. unfold wired. now destruct (microphone (devices env)).
    - exists (channel (devices env)). rewrite Hf.
      destruct (microphone (devices env)); [|destruct Cm as (_ & _ & Cm)];
        (split; [exact Cm|]); repeat split; auto; lia. }
  assert (wakes (outputContext (this s')) s') as Hwo.
  { intros x c Ex Hc Hst. rewrite Ht in Ex. unfold wired in Ex.
    assert (x = S (fresh s0)) as -> by (destruct (microphone (devices env)); now inversion Ex).
    rewrite C1 in Hc. inversion Hc; subst c. unfold woken in Hst.
    destruct (state oc) eqn:Es; simpl in Hst; congruence. }
  assert (wakes (inputContext (this s')) s') as Hwi.
  { intros x c Ex Hc Hst. rewrite Ht in Ex. unfold wired in Ex.
    assert (x = fresh s0) as -> by (destruct (microphone (devices env)); now inversion Ex).
    rewrite C0 in Hc. inversion Hc; subst c. now apply Hin. }
  assert (inputContext (this s') = None -> exists c, fallbackContext file = inr c) as Hfb.
  { rewrite Ht. unfold wired. destruct (microphone (devices env)); discriminate. }
  destruct (sendAudioFile_whole file s' h d Hh Hwo Hwi Hfb Hd)
    as (s2 & o2' & Erun & Hup & Hfs).
  assert (calls (Enter (CStream (normalize d)) ::
                   o2' ++ [Sent (now s2) h (Prompt completion_prompt)])
          = [CStream (normalize d)]) as Hcalls
    by (simpl; now rewrite (calls_sends _ (uploads_sends _ Hup))).
  unfold outcome, trace, page_after, handleFileUpload.
  rewrite (app_bind_step _ _ p tt p [Ui (setIsUploading true)]) by reflexivity.
  rewrite (app_bind_step _ _ p tt p [Ui (setError None)]) by reflexivity.
  rewrite (app_bind_step _ _ p tt p [Ui (setAiText None)]) by reflexivity.
  unfold try_finally, try_catch.
  rewrite (app_bind_step _ _ p (liveManagerRef p) p []) by reflexivity.
  rewrite Href. cbn [negb orb].
  assert (App.bind (startSession env) (fun _ => current) p =
          (Normal true, {| liveManagerRef := true; machine := s' |},
           ([Ui (setError None); Ui (setAiText None)] ++
              map Manager [] ++
              map Manager (Enter CConnect :: Status CONNECTING :: o1)) ++ [])) as Hs'
    by (rewrite (app_bind_step _ _ _ _ _ _ Hs); reflexivity).
  rewrite (app_bind_step _ _ _ _ _ _ Hs').
  cbv beta iota.
  rewrite (app_bind_step _ _ _ tt {| liveManagerRef := true; machine := s' |} [])
    by reflexivity.
  unfold App.bind, App.ret, call. cbn [machine liveManagerRef].
  rewrite Erun.
  set (o2 := Enter (CStream (normalize d)) ::
               o2' ++ [Sent (now s2) h (Prompt completion_prompt)]) in *.
  cbn [fst snd ui liveManagerRef].
  assert (calls o1 = []) as Hc1.
  { clear -Hmic. induction Hmic as [|x o Hx _ IH]; [reflexivity|].
    destruct x; try discriminate. exact IH. }
  assert (forall u, manager_events [Ui u] = []) as Hu by reflexivity.
  assert (forall u, ui_events [Ui u] = [u]) as Hv by reflexivity.
  split; [reflexivity|]. split; [|split; [|split; [|reflexivity]]].
  - repeat first [rewrite manager_events_app | rewrite manager_events_map | rewrite Hu].
    cbn [manager_events flat_map app]. rewrite ?List.app_nil_r.
    change (calls (Enter CConnect :: Status CONNECTING :: o1 ++ o2))
      with (CConnect :: calls (o1 ++ o2)).
    rewrite calls_app, Hc1, Hcalls. reflexivity.
  - repeat first [rewrite manager_events_app | rewrite manager_events_map | rewrite Hu].
    cbn [manager_events flat_map app]. rewrite ?List.app_nil_r.
    change (file_samples (Enter CConnect :: Status CONNECTING :: o1 ++ o2))
      with (file_samples (o1 ++ o2)).
    rewrite file_samples_app, (file_samples_mic _ Hmic), Hfs. reflexivity.
  - repeat first [rewrite ui_events_app | rewrite ui_events_map | rewrite Hv].
    reflexivity.
Qed.

Lemma welcoming_good_start : welcoming good_start.
Proof.
  unfold welcoming. split; [reflexivity|]. split; [reflexivity|].
  split; [reflexivity|]. split; [reflexivity|].
  intros ic Hic _. inversion Hic. reflexivity.
Qed.

Lemma an_upload_starts_the_session_it_needs_witness :
  liveManagerRef blank_page = false /\
  welcoming good_start /\
  decoding (clip_with fine) = inr a_clip /\
  outcome (handleFileUpload false DISCONNECTED (clip_with fine) good_start) blank_page
    = Normal tt /\
  calls (manager_events
           (trace (handleFileUpload false DISCONNECTED (clip_with fine) good_start)
                  blank_page))
    = [CConnect; CStream (normalize a_clip)] /\
  file_samples (manager_events
                  (trace (handleFileUpload false DISCONNECTED (clip_with fine) good_start)
                         blank_page))
    = normalize a_clip /\
  ui_events (trace (handleFileUpload false DISCONNECTED (clip_with fine) good_start)
                   blank_page)
    = [setIsUploading true; setError None; setAiText None;
       setError None; setAiText None; setIsUploading false] /\
  liveManagerRef
    (page_after (handleFileUpload false DISCONNECTED (clip_with fine) good_start)
                blank_page) = true.
Proof.
  split; [reflexivity|]. split; [exact welcoming_good_start|]. split; [reflexivity|].
  exact (an_upload_starts_the_session_it_needs DISCONNECTED (clip_with fine) good_start
           blank_page a_clip eq_refl welcoming_good_start eq_refl).
Defined.

(** What toggleConnection does while a session is up or coming up. *)
Lemma toggleConnection_steps connectionState env p :
  connectionState = CONNECTED \/ connectionState = CONNECTING ->
  toggleConnection connectionState env p =
    (Normal tt,
     {| liveManagerRef := false;
        machine := if liveManagerRef p then run disconnect (machine p)
                   else machine p |},
     map Manager (if liveManagerRef p
                  then [Enter CDisconnect; Status DISCONNECTED] else []) ++
     [Ui (setConnectionState DISCONNECTED); Ui (setInputAnalyser None);
      Ui (setOutputAnalyser None); Ui (setIsMicActive false);
      Ui (setAiText None)]).
Proof.
  intros Hc.
  assert (toggleConnection connectionState env = toggleConnection CONNECTED env) as ->
    by (destruct Hc as [-> | ->]; reflexivity).
  unfold toggleConnection.
  rewrite (app_bind_step _ _ p (liveManagerRef p) p []) by reflexivity.
  destruct p as [[|] s]; cbn [liveManagerRef machine].
  - destruct (disconnect_spec s) as [hp Hd].
    assert (call disconnect {| liveManagerRef := true; machine := s |} =
            (Normal tt, {| liveManagerRef := true; machine := run disconnect s |},
             map Manager [Enter CDisconnect; Status DISCONNECTED])) as Hcall.
    { unfold call, run. cbn [machine liveManagerRef]. now rewrite Hd. }
    rewrite (app_bind_step _ _ _ _ _ _ Hcall). reflexivity.
  - reflexivity.
Qed.

(** X27.  While the state is CONNECTED or CONNECTING, toggleConnection
    never starts a session: it disconnects the manager if there is one,
    forgets it, and resets the state, the analysers, the microphone flag
    and the text, so that the component ends DISCONNECTED with no
    analysers, no microphone and no text, its error and isUploading as
    before.  What the manager held is torn down and its fields are those
    of a torn-down manager. *)
Theorem toggleConnection_hangs_up
  (connectionState : ConnectionState) (env : StartEnv) (p : Page)
  (manager : LiveManager) (v : State.t) :
  connectionState = CONNECTED \/ connectionState = CONNECTING ->
  outcome (toggleConnection connectionState env) p = Normal tt /\
  liveManagerRef (page_after (toggleConnection connectionState env) p) = false /\
  calls (manager_events (trace (toggleConnection connectionState env) p))
    = (if liveManagerRef p then [CDisconnect] else []) /\
  shown_after manager v (toggleConnection connectionState env) p =
    {| State.connectionState := DISCONNECTED; State.error := State.error v;
       State.isUploading := State.isUploading v; State.isMicActive := false;
       State.aiText := None; State.inputAnalyser := None;
       State.outputAnalyser := None |} /\
  (liveManagerRef p = true ->
   this (machine (page_after (toggleConnection connectionState env) p))
     = torn_down (this (machine p)) /\
   forall h o,
     heap (machine p) !! h = Some o ->
     (((inputContext (this (machine p)) = Some h \/
        outputContext (this (machine p)) = Some h) /\ exists c, o = NContext c) \/
      (scriptProcessor (this (machine p)) = Some h /\
       exists ctx a b, o = NProcessor ctx a b) \/
      (inputSource (this (machine p)) = Some h /\ exists ctx a, o = NSource ctx a)) ->
     heap (machine (page_after (toggleConnection connectionState env) p)) !! h
       = Some (teardown o)).
Proof.
  intros Hc.
  unfold shown_after, outcome, page_after, trace.
  rewrite (toggleConnection_steps connectionState env p Hc).
  cbn [fst snd liveManagerRef machine].
  split; [reflexivity|]. split; [reflexivity|].
  split; [|split].
  - rewrite manager_events_app, manager_events_map.
    destruct (liveManagerRef p); reflexivity.
  - rewrite setter_calls_app, fold_left_app.
    destruct (liveManagerRef p); reflexivity.
  - intros Href. rewrite Href. split.
    + apply disconnected_this.
    + intros h o Ho Hheld. now apply disconnect_tears_down.
Qed.

Lemma toggleConnection_hangs_up_witness :
  (CONNECTED = CONNECTED \/ CONNECTED = CONNECTING) /\
  outcome (toggleConnection CONNECTED good_start) live_page = Normal tt /\
  liveManagerRef (page_after (toggleConnection CONNECTED good_start) live_page) = false /\
  calls (manager_events (trace (toggleConnection CONNECTED good_start) live_page))
    = (if liveManagerRef live_page then [CDisconnect] else []) /\
  shown_after (this connected) State.initial
    (toggleConnection CONNECTED good_start) live_page =
    {| State.connectionState := DISCONNECTED;
       State.error := State.error State.initial;
       State.isUploading := State.isUploading State.initial;
       State.isMicActive := false;
       State.aiText := None; State.inputAnalyser := None;
       State.outputAnalyser := None |} /\
  (liveManagerRef live_page = true ->
   this (machine (page_after (toggleConnection CONNECTED good_start) live_page))
     = torn_down (this (machine live_page)) /\
   forall h o,
     heap (machine live_page) !! h = Some o ->
     (((inputContext (this (machine live_page)) = Some h \/
        outputContext (this (machine live_page)) = Some h) /\ exists c, o = NContext c) \/
      (scriptProcessor (this (machine live_page)) = Some h /\
       exists ctx a b, o = NProcessor ctx a b) \/
      (inputSource (this (machine live_page)) = Some h /\
       exists ctx a, o = NSource ctx a)) ->
     heap (machine (page_after (toggleConnection CONNECTED good_start) live_page)) !! h
       = Some (teardown o)).
Proof.
  split; [left; reflexivity|].
  exact (toggleConnection_hangs_up CONNECTED good_start live_page (this connected)
           State.initial (or_introl eq_refl)).
Defined.

End Page.

(** ** The earlier revision *)

Lemma legacy_disconnect_same s :
  hasActiveMic (this s) = false -> Legacy.disconnect s = disconnect s.
Proof.
  intros Hm.
  assert (set_this (set_hasActiveMic false (set_isProcessingFile false (this s))) s
          = set_this (set_isProcessingFile false (this s)) s) as Hs.
  { destruct s as [m hp f n t]. destruct m. simpl in *. now subst. }
  unfold Legacy.disconnect, disconnect.
  do 2 (rewrite (bind_step (emit (Enter CDisconnect)) _ s tt s [Enter CDisconnect])
          by reflexivity; cbv beta).
  do 2 (rewrite (bind_step (assign set_isProcessingFile false) _ s tt
                   (set_this (set_isProcessingFile false (this s)) s) [])
          by reflexivity; cbv beta).
  rewrite (bind_step (assign set_hasActiveMic false) _
             (set_this (set_isProcessingFile false (this s)) s) tt
             (set_this (set_hasActiveMic false (set_isProcessingFile false (this s))) s)
             []) by reflexivity.
  rewrite Hs.
  match goal with
  | |- context [bind (gets this) ?k ?st] => destruct (bind (gets this) k st) as [[r s'] o]
  end.
  reflexivity.
Qed.

Lemma slice_from data i k : slice data i (i + k) = firstn k (skipn i data).
Proof. unfold slice. f_equal. lia. Qed.

Lemma legacy_CHUNK_SIZE_pos : (0 < Legacy.CHUNK_SIZE)%nat.
Proof. unfold Legacy.CHUNK_SIZE. lia. Qed.

Lemma setTimeout_muted ms s :
  muted s ->
  exists s', setTimeout ms s = (Normal tt, s', []) /\
             this s' = this s /\ heap s' = heap s /\ fresh s' = fresh s.
Proof.
  intros Hm. unfold setTimeout, modify.
  set (s1 := set_now (now s + ms)%N s).
  assert (muted s1) as Hm1 by exact Hm.
  destruct (await_muted s1 Hm1) as (s2 & A & T & H & F).
  exists s2. split; [|auto].
  rewrite (bind_step _ _ s tt s1 []) by reflexivity. now rewrite A.
Qed.

(** The loop of the earlier sendAudioFile on a working session, the
    microphone being muted. *)
Lemma legacy_send_chunks_muted h data : forall fuel i s,
  healthy h s -> muted s ->
  exists s' o,
    Legacy.send_chunks fuel h data i s = (Normal tt, s', o) /\
    this s' = this s /\ heap s' = heap s /\ fresh s' = fresh s /\
    uploads o /\ Forall (fun e => is_prompt e = false) o /\
    ((length data - i <= fuel)%nat -> file_samples o = skipn i data).
Proof.
  pose proof legacy_CHUNK_SIZE_pos as Hpos.
  induction fuel as [|fuel IH]; intros i s Hh Hm.
  - exists s, []. split; [reflexivity|]. repeat split; try constructor.
    intros Hl. simpl. symmetry. apply skipn_all2. lia.
  - cbn [Legacy.send_chunks]. destruct (Nat.ltb_spec i (length data)) as [Hlt|Hge].
    + pose proof (send_healthy h (FileBlob (slice data i (i + Legacy.CHUNK_SIZE))) s Hh)
        as E1.
      destruct (setTimeout_muted 10 s Hm) as (s2 & E2 & T2 & H2 & F2).
      assert (healthy h s2) as Hh2 by (now apply (healthy_ambient h s)).
      assert (muted s2) as Hm2 by (now apply (muted_this s)).
      destruct (IH (i + Legacy.CHUNK_SIZE)%nat s2 Hh2 Hm2)
        as (s' & o3 & E3 & T3 & H3 & F3 & U3 & N3 & P3).
      exists s', ([Sent (now s) h (FileBlob (slice data i (i + Legacy.CHUNK_SIZE)))]
                    ++ [] ++ o3).
      split; [|split; [|split; [|split; [|split; [|split]]]]]; try congruence.
      * rewrite (bind_step _ _ _ _ _ _ E1), (bind_step _ _ _ _ _ _ E2), E3.
        reflexivity.
      * apply Forall_app. split; [repeat constructor | exact U3].
      * apply Forall_app. split; [repeat constructor | exact N3].
      * intros Hl. rewrite !file_samples_app, P3 by lia.
        change (file_samples [Sent (now s) h
                                (FileBlob (slice data i (i + Legacy.CHUNK_SIZE)))])
          with (slice data i (i + Legacy.CHUNK_SIZE) ++ []).
        rewrite List.app_nil_r, slice_from. cbn [app file_samples flat_map].
        rewrite <- (firstn_skipn Legacy.CHUNK_SIZE (skipn i data)) at 2.
        now rewrite skipn_skipn, (Nat.add_comm Legacy.CHUNK_SIZE i).
    + exists s, []. split; [reflexivity|]. repeat split; try constructor.
      intros Hl. simpl. symmetry. apply skipn_all2. lia.
Qed.

Lemma await_promise_muted p s :
  muted s ->
  exists s', this s' = this s /\ heap s' = heap s /\ fresh s' = fresh s /\
    await_promise p s =
    match heap s !! p with
    | Some (NSession c) =>
        match handshake c with
        | None => (Normal p, s', [])
        | Some e => (Throw e, s', [])
        end
    | _ => (Normal p, s', [])
    end.
Proof.
  intros Hm. destruct (await_muted s Hm) as (s1 & A & T & H & F).
  exists s1. split; [exact T|]. split; [exact H|]. split; [exact F|].
  unfold await_promise. rewrite (bind_step _ _ _ _ _ _ A).
  rewrite (bind_silent _ _ s1 (heap s1 !! p) s1) by reflexivity.
  rewrite H. destruct (heap s !! p) as [[ | | | | |c]|]; try reflexivity.
  destruct (handshake c); reflexivity.
Qed.

(** X28.  In the earlier revision the microphone is not optional: when
    the browser hands out both audio contexts and getUserMedia is refused,
    connect() throws that error after its cleanup (the field hasActiveMic,
    which this revision does not have, is taken to be false).  The statuses notified
    are CONNECTING, DISCONNECTED, ERROR, the calls are connect() and its own
    disconnect(), onError got the message, no session is held, and the two
    contexts the call created are closed. *)
Theorem legacy_connect_needs_the_microphone
  (env : ConnectEnv) (s : Machine) (ic oc : AudioContext) (e : Error) :
  hasActiveMic (this s) = false ->
  inputDevice env = inr ic ->
  outputDevice env = inr oc ->
  microphone env = Some e ->
  result (Legacy.connect env) s = Throw e /\
  statuses (output (Legacy.connect env) s) = [CONNECTING; DISCONNECTED; ERROR] /\
  calls (output (Legacy.connect env) s) = [CConnect; CDisconnect] /\
  In (ErrorEv (message e)) (output (Legacy.connect env) s) /\
  sessionPromise (this (run (Legacy.connect env) s)) = None /\
  heap (run (Legacy.connect env) s) !! fresh s = Some (NContext (set_state closed ic)) /\
  heap (run (Legacy.connect env) s) !! S (fresh s)
    = Some (NContext (set_state closed oc)).
Proof.
  intros Hm Hi Ho He.
  unfold result, output, run.
  destruct (Legacy.connect env s) as [[r s'] o] eqn:E.
  unfold Legacy.connect in E. rewrite Hi, Ho, He in E. unfold new_AudioContext in E.
  step_in E.
  unfold try_catch in E.
  match type of E with
  | context [match ?b s with _ => _ end] => destruct (b s) as [[rb sb] ob] eqn:B
  end.
  do 9 step_in B.
  match type of B with
  | context [bind (getUserMedia _) _ ?st] => set (sc := st) in *
  end.
  destruct (await_cases sc) as (sd & o1 & Ha & D & O1).
  assert (getUserMedia (Some e) sc = (Throw e, sd, o1)) as Hg.
  { unfold getUserMedia. rewrite (bind_step _ _ _ _ _ _ Ha).
    unfold throw. now rewrite List.app_nil_r. }
  rewrite (bind_throw _ _ _ _ _ _ Hg) in B.
  cbn in B. inversion B; subst rb sb ob. clear B.
  pose proof D as (Td & Fd & _ & _).
  assert (this sc = set_outputAnalyser (Some (3 + fresh s)%nat)
                      (set_inputAnalyser (Some (2 + fresh s)%nat)
                         (set_outputContext (Some (S (fresh s)))
                            (set_inputContext (Some (fresh s)) (this s))))) as Tc
    by reflexivity.
  assert (hasActiveMic (this sd) = false) as Hmd.
  { rewrite Td, Tc. destruct (this s); exact Hm. }
  assert (heap sd !! fresh s = Some (NContext ic)) as C0.
  { apply (drift_cell sc sd _ _ D); [|reflexivity]. unfold sc. norm. now look. }
  assert (heap sd !! S (fresh s) = Some (NContext oc)) as C1.
  { apply (drift_cell sc sd _ _ D); [|reflexivity]. unfold sc. norm. now look. }
  assert (inputContext (this sd) = Some (fresh s)) as I0 by (now rewrite Td, Tc).
  assert (outputContext (this sd) = Some (S (fresh s))) as I1 by (now rewrite Td, Tc).
  pose proof (disconnect_tears_down sd (fresh s) (NContext ic) C0
                (or_introl (conj (or_introl I0) (ex_intro _ ic eq_refl)))) as K0.
  pose proof (disconnect_tears_down sd (S (fresh s)) (NContext oc) C1
                (or_introl (conj (or_intror I1) (ex_intro _ oc eq_refl)))) as K1.
  destruct (disconnect_spec sd) as [hp Hdis].
  unfold run in K0, K1. rewrite Hdis in K0, K1. cbn [fst snd] in K0, K1.
  rewrite (bind_step _ _ sd tt _ [Enter CDisconnect; Status DISCONNECTED]) in E
    by (rewrite (legacy_disconnect_same sd Hmd); exact Hdis).
  cbn in E. inversion E; subst r s' o. clear E.
  cbn [fst snd].
  assert (statuses o1 = [] /\ calls o1 = []) as [S1 L1].
  { clear -O1. induction O1 as [|x o Hx _ [IH1 IH2]]; [now split|].
    destruct x; try discriminate. now split. }
  split; [reflexivity|]. split; [|split; [|split; [|split; [|split]]]].
  - rewrite ?List.app_nil_r.
    change (statuses (Enter CConnect :: Status CONNECTING ::
                        o1 ++ [Enter CDisconnect; Status DISCONNECTED;
                               ErrorEv (message e); Status ERROR]))
      with (CONNECTING :: statuses (o1 ++ [Enter CDisconnect; Status DISCONNECTED;
                                           ErrorEv (message e); Status ERROR])).
    now rewrite statuses_app, S1.
  - rewrite ?List.app_nil_r.
    change (calls (Enter CConnect :: Status CONNECTING ::
                     o1 ++ [Enter CDisconnect; Status DISCONNECTED;
                            ErrorEv (message e); Status ERROR]))
      with (CConnect :: calls (o1 ++ [Enter CDisconnect; Status DISCONNECTED;
                                      ErrorEv (message e); Status ERROR])).
    now rewrite calls_app, L1.
  - rewrite ?List.app_nil_r. right. right. apply in_or_app. right.
    right. right. now left.
  - reflexivity.
  - exact K0.
  - exact K1.
Qed.

Lemma legacy_connect_needs_the_microphone_witness :
  hasActiveMic (this (boot [])) = false /\
  inputDevice mic_denied = inr a_context /\
  outputDevice mic_denied = inr a_context /\
  microphone mic_denied
    = Some {| name := "NotAllowedError"; message := "Permission denied" |} /\
  result (Legacy.connect mic_denied) (boot [])
    = Throw {| name := "NotAllowedError"; message := "Permission denied" |} /\
  statuses (output (Legacy.connect mic_denied) (boot []))
    = [CONNECTING; DISCONNECTED; ERROR] /\
  calls (output (Legacy.connect mic_denied) (boot [])) = [CConnect; CDisconnect] /\
  In (ErrorEv (message {| name := "NotAllowedError"; message := "Permission denied" |}))
     (output (Legacy.connect mic_denied) (boot [])) /\
  sessionPromise (this (run (Legacy.connect mic_denied) (boot []))) = None /\
  heap (run (Legacy.connect mic_denied) (boot [])) !! fresh (boot [])
    = Some (NContext (set_state closed a_context)) /\
  heap (run (Legacy.connect mic_denied) (boot [])) !! S (fresh (boot []))
    = Some (NContext (set_state closed a_context)).
Proof.
  split; [reflexivity|]. split; [reflexivity|]. split; [reflexivity|].
  split; [reflexivity|].
  exact (legacy_connect_needs_the_microphone mic_denied (boot []) a_context a_context
           {| name := "NotAllowedError"; message := "Permission denied" |}
           eq_refl eq_refl eq_refl eq_refl).
Defined.

(** X29.  In the earlier revision, on a session whose handshake resolved
    and that accepts sends, with a temporary context that the browser
    grants and a file that decodes, sendAudioFile returns normally.  The
    file chunks carry the samples as decoded, without normalisation; only
    upload messages are written and the prompt is the last of them; the
    fields are as before, with isProcessingFile false; and the temporary
    context is closed. *)
Theorem legacy_upload_goes_out_as_decoded
  (file : Upload) (s : Machine) (h : handle) (d : samples) (tc : AudioContext) :
  healthy h s ->
  fallbackContext file = inr tc ->
  state tc <> closed ->
  decoding file = inr d ->
  result (Legacy.sendAudioFile file) s = Normal tt /\
  file_samples (output (Legacy.sendAudioFile file) s) = d /\
  uploads (output (Legacy.sendAudioFile file) s) /\
  (exists pre t,
     output (Legacy.sendAudioFile file) s
       = pre ++ [Sent t h (Prompt Legacy.continuation_prompt)] /\
     Forall (fun e => is_prompt e = false) pre) /\
  this (run (Legacy.sendAudioFile file) s) = set_isProcessingFile false (this s) /\
  heap (run (Legacy.sendAudioFile file) s) !! fresh s
    = Some (NContext (set_state closed tc)).
Proof.
  intros Hh Hf Hst Hd.
  pose proof Hh as [Hp (c & Hc & Hk & Hb & Hlt)].
  unfold result, output, run.
  destruct (Legacy.sendAudioFile file s) as [[r s'] o] eqn:E.
  unfold Legacy.sendAudioFile in E.
  rewrite (bind_silent _ _ s (this s) s) in E by reflexivity. rewrite Hp in E.
  step_in E.
  set (s1 := set_this (set_isProcessingFile true (this s)) s) in *.
  assert (muted s1) as Hm1 by reflexivity.
  destruct (await_promise_muted h s1 Hm1) as (s2 & T2 & H2 & F2 & A2).
  assert (heap s1 !! h = Some (NSession c)) as Hc1 by exact Hc.
  rewrite Hc1, Hk in A2.
  rewrite (bind_step _ _ _ _ _ _ A2) in E.
  rewrite Hf in E. unfold new_AudioContext in E.
  step_in E.
  assert (fresh s2 = fresh s) as F2' by exact F2.
  rewrite F2' in E.
  match type of E with
  | context [try_finally _ _ ?st] => set (s3 := st) in *
  end.
  assert (this s3 = this s1) as T3 by (unfold s3; norm; exact T2).
  assert (heap s3 = <[fresh s := NContext tc]> (heap s)) as H3
    by (unfold s3; norm; now rewrite H2).
  assert (fresh s3 = S (fresh s)) as F3 by reflexivity.
  assert (muted s3) as Hm3 by (now apply (muted_this s1)).
  assert (healthy h s3) as Hh3.
  { split; [rewrite T3; exact Hp|]. exists c. rewrite H3, F3.
    rewrite lookup_insert_ne by lia. repeat split; auto. }
  destruct (decode_and_resample_muted (decoding file) s3 Hm3) as (s4 & T4 & H4 & F4 & D4).
  rewrite Hd in D4.
  assert (healthy h s4) as Hh4 by (now apply (healthy_ambient h s3)).
  assert (muted s4) as Hm4 by (now apply (muted_this s3)).
  destruct (legacy_send_chunks_muted h d (length d) 0 s4 Hh4 Hm4)
    as (s5 & o5 & E5 & T5 & H5 & F5 & U5 & N5 & P5).
  assert (healthy h s5) as Hh5 by (now apply (healthy_ambient h s4)).
  pose proof (send_healthy h (Prompt Legacy.continuation_prompt) s5 Hh5) as E6.
  assert (heap s5 !! fresh s = Some (NContext tc)) as Htc
    by (rewrite H5, H4, H3; apply lookup_insert_eq).
  assert (muted s5) as Hm5 by (now apply (muted_this s4)).
  set (s6 := set_heap (<[fresh s := NContext (set_state closed tc)]> (heap s5)) s5).
  assert (muted s6) as Hm6 by exact Hm5.
  destruct (await_muted s6 Hm6) as (s7 & A7 & T7 & H7 & F7).
  assert (Legacy.close (fresh s) s5 = (Normal tt, s7, [])) as Ecl.
  { unfold Legacy.close.
    rewrite (bind_silent _ _ s5 (heap s5 !! fresh s) s5) by reflexivity.
    rewrite Htc.
    destruct (state tc) eqn:Es; try congruence;
      rewrite (bind_step _ _ s5 tt s6 []) by reflexivity; now rewrite A7. }
  unfold try_finally, try_catch in E. rewrite Hd in E.
  rewrite (bind_step _ _ _ _ _ _ D4) in E.
  rewrite (bind_step _ _ _ _ _ _ E5) in E.
  rewrite E6 in E.
  rewrite (bind_step _ _ _ _ _ _ Ecl) in E.
  unfold assign, modify in E. cbn in E. rewrite ?List.app_nil_r in E.
  inversion E; subst r s' o. clear E.
  cbn [fst snd this heap set_this].
  specialize (P5 ltac:(lia)). simpl skipn in P5.
  split; [reflexivity|]. split; [|split; [|split; [|split]]].
  - rewrite file_samples_app, P5. simpl. apply List.app_nil_r.
  - apply Forall_app. split; [exact U5 | repeat constructor].
  - exists o5, (now s5). split; [reflexivity | exact N5].
  - rewrite T7. unfold s6. norm. rewrite T5, T4, T3. unfold s1. norm.
    destruct (this s); reflexivity.
  - rewrite H7. unfold s6. norm. apply lookup_insert_eq.
Qed.

Lemma healthy_legacy_connected : healthy 6 legacy_connected.
Proof.
  split; [reflexivity|]. exists a_channel.
  split; [vm_compute; reflexivity|]. split; [reflexivity|].
  split; [reflexivity | vm_compute; lia].
Qed.

Lemma legacy_upload_goes_out_as_decoded_witness :
  healthy 6 legacy_connected /\
  fallbackContext (clip_with fine) = inr a_context /\
  state a_context <> closed /\
  decoding (clip_with fine) = inr a_clip /\
  result (Legacy.sendAudioFile (clip_with fine)) legacy_connected = Normal tt /\
  file_samples (output (Legacy.sendAudioFile (clip_with fine)) legacy_connected)
    = a_clip /\
  uploads (output (Legacy.sendAudioFile (clip_with fine)) legacy_connected) /\
  (exists pre t,
     output (Legacy.sendAudioFile (clip_with fine)) legacy_connected
       = pre ++ [Sent t 6%nat (Prompt Legacy.continuation_prompt)] /\
     Forall (fun e => is_prompt e = false) pre) /\
  this (run (Legacy.sendAudioFile (clip_with fine)) legacy_connected)
    = set_isProcessingFile false (this legacy_connected) /\
  heap (run (Legacy.sendAudioFile (clip_with fine)) legacy_connected)
    !! fresh legacy_connected
    = Some (NContext (set_state closed a_context)).
Proof.
  assert (state a_context <> closed) as H by discriminate.
  split; [exact healthy_legacy_connected|]. split; [reflexivity|].
  split; [exact H|]. split; [reflexivity|].
  exact (legacy_upload_goes_out_as_decoded (clip_with fine) legacy_connected 6%nat
           a_clip a_context healthy_legacy_connected eq_refl H eq_refl).
Defined.

(** X30.  In the earlier revision, when the handshake of the session
    rejected, or the browser refuses the temporary audio context,
    sendAudioFile throws that error having written nothing, and
    isProcessingFile stays true: both come after the flag is set and before
    the [try] whose [finally] clears it. *)
Theorem legacy_upload_that_cannot_start_leaves_the_mic_muted
  (file : Upload) (s : Machine) (p : handle) (c : Session) (e : Error) :
  sessionPromise (this s) = Some p ->
  heap s !! p = Some (NSession c) ->
  handshake c = Some e \/ (handshake c = None /\ fallbackContext file = inl e) ->
  result (Legacy.sendAudioFile file) s = Throw e /\
  output (Legacy.sendAudioFile file) s = [] /\
  this (run (Legacy.sendAudioFile file) s) = set_isProcessingFile true (this s) /\
  heap (run (Legacy.sendAudioFile file) s) = heap s.
Proof.
  intros Hp Hc Hcase.
  unfold result, output, run.
  destruct (Legacy.sendAudioFile file s) as [[r s'] o] eqn:E.
  unfold Legacy.sendAudioFile in E.
  rewrite (bind_silent _ _ s (this s) s) in E by reflexivity. rewrite Hp in E.
  step_in E.
  set (s1 := set_this (set_isProcessingFile true (this s)) s) in *.
  assert (muted s1) as Hm1 by reflexivity.
  destruct (await_promise_muted p s1 Hm1) as (s2 & T2 & H2 & F2 & A2).
  assert (heap s1 !! p = Some (NSession c)) as Hc1 by exact Hc.
  rewrite Hc1 in A2.
  cbn [fst snd].
  destruct Hcase as [Hk | [Hk Hf]]; rewrite Hk in A2.
  - rewrite (bind_throw _ _ _ _ _ _ A2) in E. inversion E; subst.
    repeat split; auto.
  - rewrite (bind_step _ _ _ _ _ _ A2) in E.
    rewrite Hf in E. unfold new_AudioContext in E.
    assert (forall B (k : handle -> M B), bind (throw e) k s2 = (Throw e, s2, [])) as Ht
      by reflexivity.
    rewrite Ht in E. cbn in E. inversion E; subst.
    repeat split; auto.
Qed.

Lemma legacy_upload_that_cannot_start_leaves_the_mic_muted_witness :
  sessionPromise (this turned_away) = Some 6%nat /\
  heap turned_away !! 6%nat = Some (NSession refusing) /\
  (handshake refusing = Some (new_Error "API key not valid") \/
   (handshake refusing = None /\
    fallbackContext (clip_with fine) = inl (new_Error "API key not valid"))) /\
  result (Legacy.sendAudioFile (clip_with fine)) turned_away
    = Throw (new_Error "API key not valid") /\
  output (Legacy.sendAudioFile (clip_with fine)) turned_away = [] /\
  this (run (Legacy.sendAudioFile (clip_with fine)) turned_away)
    = set_isProcessingFile true (this turned_away) /\
  heap (run (Legacy.sendAudioFile (clip_with fine)) turned_away) = heap turned_away.
Proof.
  assert (heap turned_away !! 6%nat = Some (NSession refusing)) as H
    by (vm_compute; reflexivity).
  split; [reflexivity|]. split; [exact H|]. split; [left; reflexivity|].
  exact (legacy_upload_that_cannot_start_leaves_the_mic_muted (clip_with fine)
           turned_away 6%nat refusing (new_Error "API key not valid")
           eq_refl H (or_introl eq_refl)).
Defined.
